(** * font2oled: a TrueType font rendered into an 8x8 OLED byte table

    Shallow embedding of [font2oled.py] and proofs about its size search
    ([findSize]), glyph centering ([shiftRight], [centerChar]), bit packing
    ([convert]) and C-array printing ([output]).

    Python integers are [Z].  A PIL image is a record of its size and a
    finite map from coordinates to pixel values; [getpixel] and [putpixel]
    raise [IndexError] outside the image, as PIL does.  Exceptions
    (including the [SystemExit] raised by [exit]) are the [Raise] case of
    the result type [res]; the console is threaded through the functions
    that print. *)

From Equations Require Import Equations.
From stdpp Require Import gmap list.
From Stdlib Require Import ZArith String Ascii HexString Lia.

Open Scope Z_scope.

(** ** Python results: a value or a raised exception *)

Inductive exn : Type :=
| IndexError
| IOError
| SystemExit (code : Z).

Inductive res (A : Type) : Type :=
| Ok (a : A)
| Raise (e : exn).
Arguments Ok {A} a.
Arguments Raise {A} e.

Definition bind {A B : Type} (m : res A) (k : A -> res B) : res B :=
  match m with
  | Ok a => k a
  | Raise e => Raise e
  end.

Declare Scope res_scope.
Delimit Scope res_scope with res.
Notation "'do' x <- m ; k" := (bind m (fun x => k))
  (at level 10, x name, m at level 100, k at level 200) : res_scope.
Open Scope res_scope.

(** [for x in l: s = body x s], stopping at the first exception. *)
Fixpoint for_ {S : Type} (l : list Z) (body : Z -> S -> res S) (s : S) : res S :=
  match l with
  | [] => Ok s
  | x :: l' => do s' <- body x s; for_ l' body s'
  end.

(** [range(n)] *)
Definition range (n : Z) : list Z :=
  map Z.of_nat (seq 0 (Z.to_nat n)).

(** [range(start, stop, -1)] *)
Definition range_down (start stop : Z) : list Z :=
  map (fun k => start - Z.of_nat k) (seq 0 (Z.to_nat (start - stop))).

(** [for x in l: ...] whose body may [break]: the body returns the new
    state and whether it left the loop. *)
Fixpoint for_break {S : Type} (l : list Z) (body : Z -> S -> res (S * bool))
    (s : S) : res S :=
  match l with
  | [] => Ok s
  | x :: l' =>
      do r <- body x s;
      if snd r then Ok (fst r) else for_break l' body (fst r)
  end.

(** ** The console and the file written by [im.save] *)

Record World : Type := mkWorld {
  stdout : list string;
  stderr : list string;
  saved : list (string * gmap (Z * Z) Z)
}.

Definition world0 : World := mkWorld [] [] [].

(** A function that prints: a result and the world it leaves. *)
Definition M (A : Type) : Type := World -> res A * World.

Definition ret {A : Type} (a : A) : M A := fun w => (Ok a, w).

Definition lift {A : Type} (r : res A) : M A := fun w => (r, w).

Definition bindM {A B : Type} (m : M A) (k : A -> M B) : M B :=
  fun w => match m w with
           | (Ok a, w') => k a w'
           | (Raise e, w') => (Raise e, w')
           end.

Declare Scope prog_scope.
Delimit Scope prog_scope with prog.
Notation "'run' x <- m ; k" := (bindM m (fun x => k))
  (at level 10, x name, m at level 100, k at level 200) : prog_scope.
Open Scope prog_scope.

(** [print(line)] and [print(line, file=sys.stderr)] *)
Definition print (line : string) : M unit :=
  fun w => (Ok tt, mkWorld (stdout w ++ [line]) (stderr w) (saved w)).

Definition print_stderr (line : string) : M unit :=
  fun w => (Ok tt, mkWorld (stdout w) (stderr w ++ [line]) (saved w)).

(** [exit(code)] raises [SystemExit]. *)
Definition exit {A : Type} (code : Z) : M A := lift (Raise (SystemExit code)).

(** The status the process ends with when [SystemExit code] reaches the
    top level. *)
Definition exit_status (code : Z) : Z := code mod 256.

(** ** Global variables *)

Definition nbCharacters : Z := 256.
Definition minFontSize : Z := 4.
Definition maxFontSize : Z := 13.

(** ** PIL images of mode "1" *)

Record Image : Type := mkImage {
  xsize : Z;
  ysize : Z;
  px : gmap (Z * Z) Z
}.

(** [Image.new("1", size, 0)] *)
Definition Image_new (size : Z * Z) : Image :=
  mkImage (fst size) (snd size) ∅.

(** The coordinates [getpixel] and [putpixel] accept.  The program never
    passes a negative one. *)
Definition inside (im : Image) (x y : Z) : bool :=
  (0 <=? x) && (x <? xsize im) && (0 <=? y) && (y <? ysize im).

Definition getpixel (im : Image) (xy : Z * Z) : res Z :=
  if inside im (fst xy) (snd xy)
  then Ok (default 0 (px im !! xy))
  else Raise IndexError.

Definition putpixel (im : Image) (xy : Z * Z) (v : Z) : res Image :=
  if inside im (fst xy) (snd xy)
  then Ok (mkImage (xsize im) (ysize im) (<[xy := v]> (px im)))
  else Raise IndexError.

(** ** Shift a character for horizontal alignment *)

Definition shiftRight (im : Image) (i stride : Z) : res Image :=
  for_ (range_down 7 (-1)) (fun j im =>
    if 0 <=? j - stride then
      for_ (range 8) (fun pixel im =>
        do v <- getpixel im (j - stride, i * 8 + pixel);
        putpixel im (j, i * 8 + pixel) v) im
    else
      for_ (range 8) (fun pixel im =>
        putpixel im (j, i * 8 + pixel) 0) im) im.

(** ** Center every character except the punctuation signs *)

(** The inner loop over [pixel]: how many pixels of column [j] of
    character [i] are 255. *)
Definition column_pixels (im : Image) (i j : Z) : res Z :=
  for_ (range 8) (fun pixel pixels =>
    do v <- getpixel im (j, i * 8 + pixel);
    Ok (if v =? 255 then pixels + 1 else pixels)) 0.

(** The loop over [j]: the number of columns that hold a 255 pixel. *)
Definition char_wsize (im : Image) (i : Z) : res Z :=
  for_ (range 8) (fun j wsize =>
    do pixels <- column_pixels im i j;
    Ok (if negb (pixels =? 0) then wsize + 1 else wsize)) 0.

(** [i!=33 and i!=44 and i!=46 and i!=58 and i!=59 and i!=63] *)
Definition centered (i : Z) : bool :=
  negb (i =? 33) && negb (i =? 44) && negb (i =? 46) &&
  negb (i =? 58) && negb (i =? 59) && negb (i =? 63).

(** The stride passed to [shiftRight]; Python 2 [/] on integers. *)
Definition spaces_of (wsize : Z) : Z := (8 - wsize) / 2.

(** One iteration of the loop of [centerChar]. *)
Definition centerChar_body (i : Z) (im : Image) : res Image :=
  if centered i then
    do wsize <- char_wsize im i;
    shiftRight im i (spaces_of wsize)
  else Ok im.

Definition centerChar (im : Image) : res Image :=
  for_ (range nbCharacters) centerChar_body im.

(** ** Fonts

    [ImageFont.truetype] and [ImageDraw.text] belong to PIL.  A loaded font
    gives, for each character code, the glyph that [draw.text] inks: the
    offsets from the anchor of the pixels it sets to 255.  [draw.text]
    pastes the glyph at the anchor and clips it to the image. *)

Definition Glyph : Set := list (Z * Z).
Definition Font : Set := Z -> Glyph.

Definition draw_text (im : Image) (xy : Z * Z) (g : Glyph) : Image :=
  fold_left (fun im d =>
    let x := fst xy + fst d in
    let y := snd xy + snd d in
    if inside im x y
    then mkImage (xsize im) (ysize im) (<[(x, y) := 255]> (px im))
    else im) g im.

(** ** Python lists *)

(** [l[i]] *)
Definition index {A : Type} (l : list A) (i : Z) : res A :=
  let k := if i <? 0 then i + Z.of_nat (List.length l) else i in
  if k <? 0 then Raise IndexError
  else match l !! Z.to_nat k with
       | Some a => Ok a
       | None => Raise IndexError
       end.

(** [l[i] = v] *)
Definition store {A : Type} (l : list A) (i : Z) (v : A) : res (list A) :=
  let k := if i <? 0 then i + Z.of_nat (List.length l) else i in
  if (0 <=? k) && (k <? Z.of_nat (List.length l))
  then Ok (<[Z.to_nat k := v]> l)
  else Raise IndexError.

(** [m[i][j]] and [m[i][j] = v]; the rows of the matrices built by the
    list comprehensions of [toBinary] and [convert] are distinct lists. *)
Definition getitem2 (m : list (list Z)) (i j : Z) : res Z :=
  do row <- index m i; index row j.

Definition setitem2 (m : list (list Z)) (i j v : Z) : res (list (list Z)) :=
  do row <- index m i;
  do row' <- store row j v;
  store m i row'.

(** ** Find the font size that fits characters in 8x8 pixels *)

(** The check of column 8 of character [i], with its [break]. *)
Definition check_oversized (im : Image) (i : Z) (oversized : bool) : res bool :=
  for_break (range 8) (fun pixel oversized =>
    do v <- getpixel im (8, i * 8 + pixel);
    if v =? 255 then Ok (true, true) else Ok (oversized, false)) oversized.

(** The [for i in range(nbCharacters)] loop of [findSize]: clear, draw
    and check every character. *)
Definition draw_chars (font : Font) (im : Image) (oversized : bool)
    : res (Image * bool) :=
  for_ (range nbCharacters) (fun i st =>
    do im <- for_ (range 8) (fun j im =>
               for_ (range 8) (fun pixel im =>
                 putpixel im (j, i * 8 + pixel) 0) im) (fst st);
    let im := draw_text im (0, i * 8) (font i) in
    do oversized <-
      (if (0 <=? i) && (i <=? 128)
       then check_oversized im i (snd st)
       else Ok (snd st));
    Ok (im, oversized)) (im, oversized).

Section Program.

(** [ImageFont.truetype(fontname, size)]; [None] when PIL raises. *)
Variable truetype : string -> Z -> option Font.

Unset Equations With Funext.

(** The [while (oversized)] loop, entered with [oversized = True]; it
    returns the final [fontSize] along with [im]. *)
Equations? findSize_while (fontname : string) (fontSize : Z) : M (Z * Image)
    by wf (Z.to_nat (fontSize - minFontSize + 1)) lt :=
  findSize_while fontname fontSize with Z_lt_dec fontSize minFontSize => {
    | left _ =>
        run _ <- print_stderr "Error: an error happened while using the font";
        exit (-1)
    | right _ =>
        let fontSize' := fontSize - 1 in
        match truetype fontname fontSize' with
        | None => lift (Raise IOError)
        | Some font =>
            run st <- lift (draw_chars font (Image_new (10, 8 * nbCharacters)) false);
            if snd st
            then findSize_while fontname fontSize'
            else ret (fontSize', fst st)
        end }.
Proof. lia. Qed.
Next Obligation.
  intros fontname fontSize. unfold findSize_while.
  rewrite FixWf_unfold.
  - unfold findSize_while_functional, findSize_while_unfold. cbn [pr1 pr2].
    destruct (Z_lt_dec fontSize minFontSize); reflexivity.
  - intros [name size] f g H. cbn [pr1 pr2] in *.
    unfold findSize_while_functional, findSize_while_clause_1.
    destruct (Z_lt_dec size minFontSize); [reflexivity|].
    cbv zeta. destruct (truetype name (size - 1)); [|reflexivity].
    rewrite H. reflexivity.
Defined.

Definition findSize (fontname : string) : M Image :=
  run r <- findSize_while fontname maxFontSize;
  ret (snd r).

(** [im.save(name)] *)
Definition save (im : Image) (name : string) : M unit :=
  fun w => (Ok tt, mkWorld (stdout w) (stderr w) (saved w ++ [(name, px im)])).

(** ** Check arguments and font file *)

Definition checkArgs (argv : list string) : M Image :=
  if (Z.of_nat (List.length argv) =? 2) then
    run name <- lift (index argv 1);
    run _ <- match truetype name 8 with
             | Some _ => ret tt
             | None =>
                 run _ <- print_stderr
                   ("Error: unable to load Font" ++ " " ++ name)%string;
                 exit (-1)
             end;
    run im <- findSize name;
    run im <- lift (centerChar im);
    run _ <- save im "font.png";
    ret im
  else
    run _ <- print_stderr "Error: invalid number of arguments";
    run _ <- print "Usage:";
    run prog <- lift (index argv 0);
    run _ <- print ("python " ++ prog ++ " <fontfile>")%string;
    exit (-1).

End Program.

(** ** Convert image to binary *)

Definition toBinary (im : Image) : res (list (list Z)) :=
  let binary := repeat (repeat 0 (Z.to_nat (nbCharacters * 8))) 8 in
  for_ (range (nbCharacters * 8)) (fun j binary =>
    for_ (range 8) (fun i binary =>
      do value <- getpixel im (i, j);
      setitem2 binary i j (if value =? 255 then 1 else 0)) binary) binary.

(** ** Convert pixel values to bytes *)

Definition convert (pixels : list (list Z)) : res (list (list Z)) :=
  let data := repeat (repeat 0 (Z.to_nat nbCharacters)) 8 in
  for_ (range 8) (fun i data =>
    for_ (range nbCharacters) (fun j data =>
      for_ (range 8) (fun bit data =>
        do old <- getitem2 data i j;
        do p <- getitem2 pixels i (j * 8 + bit);
        setitem2 data i j (Z.lor old (Z.shiftl p bit))) data) data) data.

(** ** Format data as a C array declaration *)

(** [s.rfind(c)]: the index of the last [c] in [s], or -1. *)
Fixpoint rfind_from (c : ascii) (s : list ascii) (pos last : Z) : Z :=
  match s with
  | [] => last
  | a :: s' => rfind_from c s' (pos + 1) (if Ascii.eqb a c then pos else last)
  end.

Definition rfind (c : ascii) (s : list ascii) : Z := rfind_from c s 0 (-1).

(** [s[:n]] and [s[n:]] for [n >= 0] *)
Definition slice_to (s : list ascii) (n : Z) : list ascii := take (Z.to_nat n) s.
Definition slice_from (s : list ascii) (n : Z) : list ascii := drop (Z.to_nat n) s.

(** [os.path.basename(p)]: what follows the last slash. *)
Definition basename (p : string) : string :=
  let l := list_ascii_of_string p in
  string_of_list_ascii (slice_from l (rfind "/" l + 1)).

(** [os.path.splitext(p)]: split at the last dot when it comes after the
    last slash and some character between them is not a dot. *)
Definition splitext (p : string) : string * string :=
  let l := list_ascii_of_string p in
  let sepIndex := rfind "/" l in
  let dotIndex := rfind "." l in
  if (sepIndex <? dotIndex) &&
     existsb (fun c => negb (Ascii.eqb c "."))
       (slice_to (slice_from l (sepIndex + 1)) (dotIndex - (sepIndex + 1)))
  then (string_of_list_ascii (slice_to l dotIndex),
        string_of_list_ascii (slice_from l dotIndex))
  else (p, EmptyString).

(** A regular expression that is one character class: its items are
    single characters and ranges [lo-hi]. *)
Inductive class_item : Set :=
| CChar (c : ascii)
| CRange (lo hi : ascii).

Definition item_matches (c : ascii) (it : class_item) : bool :=
  match it with
  | CChar a => Ascii.eqb c a
  | CRange lo hi => (nat_of_ascii lo <=? nat_of_ascii c)%nat
                    && (nat_of_ascii c <=? nat_of_ascii hi)%nat
  end.

(** [re.sub(class, '', s)]: every character the class matches is dropped. *)
Definition re_sub_class (class : list class_item) (s : string) : string :=
  string_of_list_ascii
    (List.filter (fun c => negb (existsb (item_matches c) class))
       (list_ascii_of_string s)).

(** The pattern ['[ -:,\?]'] as [re] reads it: the range from space to
    colon, a comma and a question mark. *)
Definition filename_pattern : list class_item :=
  [CRange " " ":"; CChar ","; CChar "?"].

(** The first three statements of [output]. *)
Definition array_name (argv1 : string) : string :=
  let filename := basename argv1 in
  let filename := fst (splitext filename) in
  re_sub_class filename_pattern filename.

Definition hex_digits (v : Z) : string :=
  match v with
  | Z0 => "0"
  | Zpos p => HexString.Raw.of_pos p EmptyString
  | Zneg p => HexString.Raw.of_pos p EmptyString
  end.

Fixpoint zeros (n : nat) : string :=
  match n with
  | O => EmptyString
  | S n' => String "0" (zeros n')
  end.

(** [format(v, '#04x')]: sign, [0x], then the hexadecimal digits padded
    with zeros to a total width of 4. *)
Definition format_04x (v : Z) : string :=
  let sign := if v <? 0 then "-"%string else EmptyString in
  let digits := hex_digits v in
  let pad := (4 - String.length sign - 2 - String.length digits)%nat in
  (sign ++ "0x" ++ zeros pad ++ digits)%string.

Definition newline : string := String "010" EmptyString.

(** [s[:-2]] *)
Definition drop_last2 (s : string) : string :=
  let l := list_ascii_of_string s in
  string_of_list_ascii (take (List.length l - 2) l).

Definition output (data : list (list Z)) (argv : list string) : res string :=
  do argv1 <- index argv 1;
  let filename := array_name argv1 in
  let s := ("const char " ++ filename ++ "[][8] PROGMEM = {" ++ newline)%string in
  do s <- for_ (range nbCharacters) (fun j s =>
            let s := (s ++ "{")%string in
            for_ (range 8) (fun i s =>
              do d <- getitem2 data i j;
              let s := (s ++ format_04x d)%string in
              if i mod 8 =? 7
              then Ok (s ++ "}," ++ newline)%string
              else Ok (s ++ ", ")%string) s) s;
  Ok (drop_last2 s ++ newline ++ "};")%string.

(** ** Main *)

Definition main (truetype : string -> Z -> option Font) (argv : list string)
    : M unit :=
  run image <- checkArgs truetype argv;
  run binary <- lift (toBinary image);
  run data <- lift (convert binary);
  run text <- lift (output data argv);
  print text.

(** ** The identifier as the component design words it

    "Reserved punctuation characters (space, hyphen, colon, comma,
    question mark) stripped": the five characters, each on its own. *)

Definition reserved_punctuation : list class_item :=
  [CChar " "; CChar "-"; CChar ":"; CChar ","; CChar "?"].

Definition stripped_name (argv1 : string) : string :=
  re_sub_class reserved_punctuation (fst (splitext (basename argv1))).

(** ** Reading the embedding

    The value stored at a coordinate (0 where nothing was written), the
    cell of character [i] (columns 0..7 of rows [i*8 .. i*8+7]), and the
    images on which [centerChar] raises no [IndexError]. *)

Definition pixel (im : Image) (x y : Z) : Z := default 0 (px im !! (x, y)).

Definition in_cell (i x y : Z) : bool :=
  (0 <=? x) && (x <=? 7) && (i * 8 <=? y) && (y <=? i * 8 + 7).

Definition same_size (im im' : Image) : Prop :=
  xsize im' = xsize im /\ ysize im' = ysize im.

Definition canvas (im : Image) : Prop :=
  8 <= xsize im /\ nbCharacters * 8 <= ysize im.

(** The pixels [shiftRight im i stride] leaves behind, read off [im]. *)
Definition shifted (im : Image) (i stride x y : Z) : Z :=
  if in_cell i x y then
    if 0 <=? x - stride then pixel im (x - stride) y else 0
  else pixel im x y.

(** The values the two counting loops of [centerChar] compute. *)
Definition ink_pixels (im : Image) (i j : Z) : Z :=
  fold_left (fun pixels p => if pixel im j (i * 8 + p) =? 255 then pixels + 1 else pixels)
    (range 8) 0.

Definition ink_width (im : Image) (i : Z) : Z :=
  fold_left (fun wsize j => if negb (ink_pixels im i j =? 0) then wsize + 1 else wsize)
    (range 8) 0.

(** The pixels [centerChar im] leaves behind, read off [im]. *)
Definition center_pixel (im : Image) (x y : Z) : Z :=
  if (0 <=? y) && (y <? nbCharacters * 8) && centered (y / 8)
  then shifted im (y / 8) (spaces_of (ink_width im (y / 8))) x y
  else pixel im x y.

(** The pixels of a mode "1" image are 0 or 255. *)
Definition monochrome (im : Image) : Prop :=
  forall x y, pixel im x y = 0 \/ pixel im x y = 255.

(** No glyph of the font has ink above the anchor it is drawn at. *)
Definition below_anchor (font : Font) : Prop :=
  forall i d, In d (font i) -> 0 <= snd d.

(** The fit predicate of the search: a pass over a fresh image that
    leaves [oversized] unset. *)
Definition fits (font : Font) : res bool :=
  do st <- draw_chars font (Image_new (10, 8 * nbCharacters)) false;
  Ok (negb (snd st)).

(** The size [findSize] stopped at. *)
Definition returned_size (r : res (Z * Image) * World) : res Z :=
  do st <- fst r; Ok (fst st).

Definition search_error : string :=
  "Error: an error happened while using the font".

(** ** Reading matrices

    The entry at a row and a column (0 outside the matrix), the matrices
    of a given shape, and the byte [convert] builds for row [i] and
    character [j]. *)

Definition entry (m : list (list Z)) (i j : Z) : Z :=
  default 0 (row ← m !! Z.to_nat i; row !! Z.to_nat j).

Definition matrix_shape (m : list (list Z)) (rows cols : Z) : Prop :=
  Z.of_nat (List.length m) = rows /\
  Forall (fun row => Z.of_nat (List.length row) = cols) m.

Definition packed (pixels : list (list Z)) (i j : Z) : Z :=
  fold_left (fun byte bit => Z.lor byte (Z.shiftl (entry pixels i (j * 8 + bit)) bit))
    (range 8) 0.

Definition is_hex_digit (c : ascii) : bool :=
  existsb (Ascii.eqb c) (list_ascii_of_string "0123456789abcdef").

(** The hexadecimal digit of [d]. *)
Definition hex_char (d : Z) : ascii :=
  match String.get (Z.to_nat d) "0123456789abcdef" with
  | Some c => c
  | None => "0"%char
  end.

(** ** Sample inputs

    A character sheet with three inked characters: [A] (65) in its
    columns 0..3, [B] (66) across its eight columns, and [!] (33) in its
    column 0. *)

Definition bar (w : Z) : Glyph := map (fun x => (x, 0)) (range w).

Definition sample_sheet : Image :=
  let im := Image_new (10, 8 * nbCharacters) in
  let im := draw_text im (0, 65 * 8) ((0, 1) :: (3, 1) :: bar 4) in
  let im := draw_text im (0, 66 * 8) (bar 8) in
  draw_text im (0, 33 * 8) [(0, 0); (0, 1); (0, 3)].

(** Three fonts whose glyphs are bars in the top row of the cell: as wide
    as the point size; five pixels wider than the point size; and nine
    pixels wide at every size. *)
Definition sample_truetype : string -> Z -> option Font :=
  fun _ size => Some (fun _ => bar size).

Definition wide_truetype : string -> Z -> option Font :=
  fun _ size => Some (fun _ => bar (size + 5)).

Definition oversized_truetype : string -> Z -> option Font :=
  fun _ size => Some (fun i => if i =? 65 then bar 9 else bar 3).

Definition unwrap_image (r : res Image * World) : Image :=
  match fst r with
  | Ok im => im
  | Raise _ => Image_new (0, 0)
  end.

Definition sample_fitted : Image :=
  unwrap_image (findSize sample_truetype "sample.ttf" world0).

(** The sample sheet after [shiftRight] of [A] by 2. *)
Definition sample_shifted : Image :=
  match shiftRight sample_sheet 65 2 with
  | Ok im => im
  | Raise _ => sample_sheet
  end.

(** A matrix of 8 rows of [nbCharacters * 8] entries that alternate
    between 0 and 1. *)
Definition sample_matrix : list (list Z) :=
  map (fun r => map (fun c => (r + c) mod 2) (range (nbCharacters * 8))) (range 8).

(** ** Further definitions *)

(** ** Reading the text of [output]

    The line of character [j]: its eight bytes between braces. *)

Definition char_row (data : list (list Z)) (j : Z) : string :=
  ("{" ++ String.concat ", " (map (fun i => format_04x (entry data i j)) (range 8))
       ++ "}")%string.

(** ** More sample inputs

    A font file that PIL cannot load, a font that PIL cannot load at size
    10, and a font whose glyphs have ink at the offsets 0 and 9 of their
    top row at every size. *)

Definition missing_truetype : string -> Z -> option Font :=
  fun _ _ => None.

Definition partial_truetype : string -> Z -> option Font :=
  fun _ size => if size =? 10 then None else Some (fun _ => bar size).

Definition far_ink_truetype : string -> Z -> option Font :=
  fun _ size => Some (fun _ => [(0, 0); (9, 0)]).

(** A character sheet whose only ink is in column 7 of [A]. *)
Definition right_ink_sheet : Image :=
  draw_text (Image_new (10, 8 * nbCharacters)) (0, 65 * 8) [(7, 0); (7, 1)].

(** A table of 8 rows of [nbCharacters] bytes. *)
Definition sample_table : list (list Z) :=
  map (fun r => map (fun c => (r * 31 + c) mod 256) (range nbCharacters)) (range 8).

(** The stride [centerChar] shifts character [i] by, given its measured
    width: none for the six punctuation signs. *)
Definition spaces_of_char (i wsize : Z) : Z :=
  if centered i then spaces_of wsize else 0.

(** The value of a result, or a default. *)
Definition unwrap_or {A : Type} (default : A) (r : res A) : A :=
  match r with
  | Ok a => a
  | Raise _ => default
  end.

(** The sample font through the pipeline: the image [findSize] returns
    for it, centred, made binary and packed. *)
Definition sample_centered : Image :=
  unwrap_or sample_fitted (centerChar sample_fitted).

Definition sample_binary : list (list Z) :=
  unwrap_or [] (toBinary sample_centered).

Definition sample_packed : list (list Z) :=
  unwrap_or [] (convert sample_binary).

(** The first [rows] rows of [m] exist and hold at least [cols] entries
    each: the part of its argument that [convert] reads. *)
Definition covers (m : list (list Z)) (rows cols : Z) : Prop :=
  forall i, 0 <= i < rows ->
    exists row, m !! Z.to_nat i = Some row /\ cols <= Z.of_nat (List.length row).

(** [[row[:cols] for row in m[:rows]]] *)
Definition trimmed (m : list (list Z)) (rows cols : Z) : list (list Z) :=
  take (Z.to_nat cols) <$> take (Z.to_nat rows) m.

(** * Proofs *)

(** ** Loops *)

Lemma bind_Ok {A B : Type} (m : res A) (k : A -> res B) (b : B) :
  bind m k = Ok b -> exists a, m = Ok a /\ k a = Ok b.
Proof. destruct m as [a|e]; simpl; [eauto | discriminate]. Qed.

Lemma for_app {S : Type} (l1 l2 : list Z) (body : Z -> S -> res S) (s : S) :
  for_ (l1 ++ l2) body s = (do s' <- for_ l1 body s; for_ l2 body s').
Proof.
  revert s; induction l1 as [|x l1 IH]; intros s; simpl; [reflexivity|].
  destruct (body x s); simpl; auto.
Qed.

(** A loop whose body cannot fail is a left fold. *)
Lemma for_pure {S : Type} (f : Z -> S -> S) (l : list Z)
    (body : Z -> S -> res S) (s : S) :
  (forall x s, In x l -> body x s = Ok (f x s)) ->
  for_ l body s = Ok (fold_left (fun s x => f x s) l s).
Proof.
  revert s; induction l as [|x l IH]; intros s H; simpl; [reflexivity|].
  rewrite H by (left; reflexivity). simpl. apply IH.
  intros; apply H; right; assumption.
Qed.

(** Partial correctness: what every successful iteration preserves holds
    at the end of a successful loop. *)
Lemma for_preserves {S : Type} (P : S -> Prop) (l : list Z)
    (body : Z -> S -> res S) (s s' : S) :
  (forall x s1 s2, In x l -> P s1 -> body x s1 = Ok s2 -> P s2) ->
  P s -> for_ l body s = Ok s' -> P s'.
Proof.
  revert s; induction l as [|x l IH]; intros s Hstep Hs Hrun; simpl in Hrun.
  - congruence.
  - apply bind_Ok in Hrun as (s1 & H1 & H2).
    apply (IH s1); [ | | exact H2].
    + intros; eapply Hstep; eauto. right; assumption.
    + eapply Hstep; eauto. left; reflexivity.
Qed.

Lemma for_seq_inv {S : Type} (P : nat -> S -> Prop) (g : nat -> Z)
    (body : Z -> S -> res S) (len a : nat) (s : S) :
  P a s ->
  (forall k s1, (a <= k < a + len)%nat -> P k s1 ->
     exists s2, body (g k) s1 = Ok s2 /\ P (Datatypes.S k) s2) ->
  exists s', for_ (map g (seq a len)) body s = Ok s' /\ P (a + len)%nat s'.
Proof.
  revert a s; induction len as [|len IH]; intros a s Hs Hstep; simpl.
  - exists s. rewrite Nat.add_0_r. auto.
  - destruct (Hstep a s) as (s2 & Hb & Hs2); [lia | assumption |].
    rewrite Hb; simpl.
    destruct (IH (Datatypes.S a) s2) as (s' & Hrun & Hs'); [assumption | |].
    + intros k s1 Hk. apply Hstep. lia.
    + exists s'. split; [assumption|].
      replace (a + Datatypes.S len)%nat with (Datatypes.S a + len)%nat by lia.
      assumption.
Qed.

(** Total correctness of [for x in range(n)] by an invariant indexed by
    the loop counter. *)
Lemma for_range_inv {S : Type} (P : Z -> S -> Prop) (n : Z)
    (body : Z -> S -> res S) (s : S) :
  0 <= n -> P 0 s ->
  (forall k s1, 0 <= k < n -> P k s1 ->
     exists s2, body k s1 = Ok s2 /\ P (k + 1) s2) ->
  exists s', for_ (range n) body s = Ok s' /\ P n s'.
Proof.
  intros Hn Hs Hstep. unfold range.
  destruct (for_seq_inv (fun k => P (Z.of_nat k)) Z.of_nat body (Z.to_nat n) 0%nat s)
    as (s' & Hrun & Hs'); [exact Hs | |].
  - intros k s1 Hk HP. destruct (Hstep (Z.of_nat k) s1) as (s2 & ? & ?);
      [lia | assumption |].
    exists s2. split; [assumption|].
    replace (Z.of_nat (Datatypes.S k)) with (Z.of_nat k + 1) by lia. assumption.
  - exists s'. split; [assumption|].
    simpl in Hs'. rewrite Z2Nat.id in Hs' by lia. assumption.
Qed.

(** The same for [for j in range(start, stop, -1)]: the invariant holds
    of the next value of [j]. *)
Lemma for_range_down_inv {S : Type} (P : Z -> S -> Prop) (start stop : Z)
    (body : Z -> S -> res S) (s : S) :
  stop <= start -> P start s ->
  (forall j s1, stop < j <= start -> P j s1 ->
     exists s2, body j s1 = Ok s2 /\ P (j - 1) s2) ->
  exists s', for_ (range_down start stop) body s = Ok s' /\ P stop s'.
Proof.
  intros Hn Hs Hstep. unfold range_down.
  destruct (for_seq_inv (fun k => P (start - Z.of_nat k))
              (fun k => start - Z.of_nat k) body (Z.to_nat (start - stop)) 0%nat s)
    as (s' & Hrun & Hs'); [simpl; rewrite Z.sub_0_r; exact Hs | |].
  - intros k s1 Hk HP. destruct (Hstep (start - Z.of_nat k) s1) as (s2 & ? & ?);
      [lia | assumption |].
    exists s2. split; [assumption|].
    replace (start - Z.of_nat (Datatypes.S k)) with (start - Z.of_nat k - 1) by lia.
    assumption.
  - exists s'. split; [assumption|].
    simpl in Hs'. rewrite Z2Nat.id in Hs' by lia.
    replace (start - (start - stop)) with stop in Hs' by lia. assumption.
Qed.

Lemma In_range (n x : Z) : In x (range n) <-> 0 <= x < n.
Proof.
  unfold range. rewrite in_map_iff. split.
  - intros (k & <- & Hk). apply in_seq in Hk. lia.
  - intros H. exists (Z.to_nat x). split; [lia|]. apply in_seq. lia.
Qed.

Lemma range_succ (n : Z) : 0 <= n -> range (n + 1) = range n ++ [n].
Proof.
  intros Hn. unfold range.
  replace (Z.to_nat (n + 1)) with (Datatypes.S (Z.to_nat n)) by lia.
  rewrite seq_S, map_app. simpl. rewrite Z2Nat.id by lia. reflexivity.
Qed.

(** ** Pixels *)

Ltac bool_lia :=
  repeat match goal with
         | |- context [?a <=? ?b] => destruct (Z.leb_spec a b)
         | |- context [?a <? ?b] => destruct (Z.ltb_spec a b)
         | |- context [?a =? ?b] => destruct (Z.eqb_spec a b)
         end;
  simpl; try reflexivity; try lia.

Lemma inside_true (im : Image) (x y : Z) :
  inside im x y = true <-> 0 <= x < xsize im /\ 0 <= y < ysize im.
Proof. unfold inside. rewrite !andb_true_iff. lia. Qed.

Lemma getpixel_inside (im : Image) (x y : Z) :
  inside im x y = true -> getpixel im (x, y) = Ok (pixel im x y).
Proof. unfold getpixel; simpl. intros ->. reflexivity. Qed.

Lemma getpixel_Ok (im : Image) (x y v : Z) :
  getpixel im (x, y) = Ok v -> inside im x y = true /\ v = pixel im x y.
Proof.
  unfold getpixel; simpl. destruct (inside im x y); [|discriminate].
  intros [= <-]. auto.
Qed.

Lemma putpixel_Ok (im im' : Image) (x y v : Z) :
  putpixel im (x, y) v = Ok im' ->
  inside im x y = true /\ same_size im im' /\
  forall x' y', pixel im' x' y' =
    if (x' =? x) && (y' =? y) then v else pixel im x' y'.
Proof.
  unfold putpixel; simpl. destruct (inside im x y); [|discriminate].
  intros [= <-]. split; [reflexivity|]. split; [split; reflexivity|].
  intros x' y'. unfold pixel; simpl.
  destruct (Z.eqb_spec x' x) as [->|]; destruct (Z.eqb_spec y' y) as [->|]; simpl;
    first [ now rewrite lookup_insert_eq
          | rewrite lookup_insert_ne by congruence; reflexivity ].
Qed.

Lemma putpixel_inside (im : Image) (x y v : Z) :
  inside im x y = true -> exists im', putpixel im (x, y) v = Ok im'.
Proof. unfold putpixel; simpl. intros ->. eauto. Qed.

Lemma same_size_inside (im im' : Image) (x y : Z) :
  same_size im im' -> inside im' x y = inside im x y.
Proof. intros [Hx Hy]. unfold inside. rewrite Hx, Hy. reflexivity. Qed.

Lemma same_size_refl (im : Image) : same_size im im.
Proof. split; reflexivity. Qed.

Lemma same_size_trans (a b c : Image) :
  same_size a b -> same_size b c -> same_size a c.
Proof. unfold same_size. intuition congruence. Qed.

(** Images of the same size agree on [getpixel] where they agree on the
    stored value. *)
Lemma getpixel_ext (im im' : Image) (x y : Z) :
  same_size im im' -> pixel im' x y = pixel im x y ->
  getpixel im' (x, y) = getpixel im (x, y).
Proof.
  intros Hs Hp. unfold getpixel; simpl. rewrite (same_size_inside _ _ _ _ Hs).
  fold (pixel im' x y). fold (pixel im x y). rewrite Hp. reflexivity.
Qed.

(** ** [shiftRight] *)

Ltac pixel_cases := bool_lia; try (f_equal; lia); try congruence.

(** The inner loop that copies column [c] of character [i] onto column
    [j]; [c] may be [j] itself. *)
Lemma copy_column_spec (im : Image) (i j c : Z) :
  0 <= j < xsize im -> 0 <= c < xsize im -> 0 <= i * 8 -> i * 8 + 8 <= ysize im ->
  exists im',
    for_ (range 8) (fun pixel im =>
      do v <- getpixel im (c, i * 8 + pixel);
      putpixel im (j, i * 8 + pixel) v) im = Ok im' /\
    same_size im im' /\
    forall x y, pixel im' x y =
      if (x =? j) && (i * 8 <=? y) && (y <? i * 8 + 8) then pixel im c y
      else pixel im x y.
Proof.
  intros Hj Hc Hi0 Hi1.
  apply (for_range_inv (fun k s => same_size im s /\
    forall x y, pixel s x y =
      if (x =? j) && (i * 8 <=? y) && (y <? i * 8 + k) then pixel im c y
      else pixel im x y)); [lia | | ].
  - split; [apply same_size_refl|]. intros x y. pixel_cases.
  - intros k s1 Hk [Hsz Hpx].
    rewrite getpixel_inside
      by (rewrite (same_size_inside _ _ _ _ Hsz); apply inside_true; lia).
    simpl.
    destruct (putpixel_inside s1 j (i * 8 + k) (pixel s1 c (i * 8 + k))) as [s2 Hput].
    { rewrite (same_size_inside _ _ _ _ Hsz); apply inside_true; lia. }
    exists s2. split; [exact Hput|].
    apply putpixel_Ok in Hput as (_ & Hsz2 & Hpx2).
    split; [eapply same_size_trans; eassumption|].
    intros x y. rewrite Hpx2, !Hpx. pixel_cases.
Qed.

(** The inner loop that blanks column [j] of character [i]. *)
Lemma zero_column_spec (im : Image) (i j : Z) :
  0 <= j < xsize im -> 0 <= i * 8 -> i * 8 + 8 <= ysize im ->
  exists im',
    for_ (range 8) (fun pixel im => putpixel im (j, i * 8 + pixel) 0) im = Ok im' /\
    same_size im im' /\
    forall x y, pixel im' x y =
      if (x =? j) && (i * 8 <=? y) && (y <? i * 8 + 8) then 0
      else pixel im x y.
Proof.
  intros Hj Hi0 Hi1.
  apply (for_range_inv (fun k s => same_size im s /\
    forall x y, pixel s x y =
      if (x =? j) && (i * 8 <=? y) && (y <? i * 8 + k) then 0
      else pixel im x y)); [lia | | ].
  - split; [apply same_size_refl|]. intros x y. pixel_cases.
  - intros k s1 Hk [Hsz Hpx].
    destruct (putpixel_inside s1 j (i * 8 + k) 0) as [s2 Hput].
    { rewrite (same_size_inside _ _ _ _ Hsz); apply inside_true; lia. }
    exists s2. split; [exact Hput|].
    apply putpixel_Ok in Hput as (_ & Hsz2 & Hpx2).
    split; [eapply same_size_trans; eassumption|].
    intros x y. rewrite Hpx2, !Hpx. pixel_cases.
Qed.

(** [shiftRight] never fails on a character that lies inside the image
    when the stride is not negative, and what it leaves is [shifted]:
    the columns are visited from 7 down to 0, so column [j - stride] is
    still the original one when column [j] is written. *)
Lemma shiftRight_spec (im : Image) (i stride : Z) :
  8 <= xsize im -> 0 <= i * 8 -> i * 8 + 8 <= ysize im -> 0 <= stride ->
  exists im',
    shiftRight im i stride = Ok im' /\ same_size im im' /\
    forall x y, pixel im' x y = shifted im i stride x y.
Proof.
  intros Hx Hi0 Hi1 Hs. unfold shiftRight.
  destruct (for_range_down_inv (fun j s => same_size im s /\
    forall x y, pixel s x y =
      if (j <? x) && in_cell i x y then shifted im i stride x y
      else pixel im x y) 7 (-1)
      (fun j im0 =>
         if 0 <=? j - stride
         then for_ (range 8) (fun pixel im1 =>
                do v <- getpixel im1 (j - stride, i * 8 + pixel);
                putpixel im1 (j, i * 8 + pixel) v) im0
         else for_ (range 8) (fun pixel im1 => putpixel im1 (j, i * 8 + pixel) 0) im0)
      im) as (im' & Hrun & Hsz & Hpx); [lia | | | ].
  - split; [apply same_size_refl|]. intros x y. unfold in_cell. pixel_cases.
  - intros j s1 Hj [[Hsx Hsy] Hpx].
    destruct (Z.leb_spec 0 (j - stride)).
    + destruct (copy_column_spec s1 i j (j - stride)) as (s2 & Hrun & Hsz2 & Hpx2);
        [lia | lia | lia | lia |].
      exists s2. split; [exact Hrun|].
      split; [eapply same_size_trans; [split|]; eassumption|].
      intros x y. rewrite Hpx2, !Hpx. unfold shifted, in_cell. pixel_cases.
    + destruct (zero_column_spec s1 i j) as (s2 & Hrun & Hsz2 & Hpx2);
        [lia | lia | lia |].
      exists s2. split; [exact Hrun|].
      split; [eapply same_size_trans; [split|]; eassumption|].
      intros x y. rewrite Hpx2, !Hpx. unfold shifted, in_cell. pixel_cases.
  - exists im'. split; [exact Hrun|]. split; [exact Hsz|].
    intros x y. rewrite Hpx. unfold shifted, in_cell. pixel_cases.
Qed.

Lemma range_8 : range 8 = [0; 1; 2; 3; 4; 5; 6; 7].
Proof. reflexivity. Qed.

Lemma In_range_down (start stop x : Z) :
  In x (range_down start stop) -> stop < x <= start.
Proof.
  unfold range_down. rewrite in_map_iff.
  intros (k & <- & Hk). apply in_seq in Hk. lia.
Qed.

Lemma in_cell_true (i x y : Z) :
  in_cell i x y = true <-> 0 <= x <= 7 /\ i * 8 <= y <= i * 8 + 7.
Proof. unfold in_cell. rewrite !andb_true_iff. lia. Qed.

(** Whatever the stride, a [shiftRight] that returns has written inside
    the cell of character [i] only. *)
Lemma shiftRight_frame (im im' : Image) (i stride : Z) :
  shiftRight im i stride = Ok im' ->
  same_size im im' /\
  forall x y, in_cell i x y = false -> pixel im' x y = pixel im x y.
Proof.
  unfold shiftRight.
  set (P := fun s : Image => same_size im s /\
    forall x y, in_cell i x y = false -> pixel s x y = pixel im x y).
  assert (Hput : forall j p v s1 s2, 0 <= j <= 7 -> 0 <= p < 8 ->
            P s1 -> putpixel s1 (j, i * 8 + p) v = Ok s2 -> P s2).
  { intros j p v s1 s2 Hj Hp [Hsz Hpx] Hput.
    apply putpixel_Ok in Hput as (_ & Hsz2 & Hpx2).
    split; [eapply same_size_trans; eassumption|].
    intros x y Hout. rewrite Hpx2, <- (Hpx x y Hout).
    destruct (Z.eqb_spec x j); destruct (Z.eqb_spec y (i * 8 + p)); simpl; try reflexivity.
    exfalso. assert (in_cell i x y = true) by (apply in_cell_true; lia). congruence. }
  apply (for_preserves P).
  - intros j s1 s2 Hj HP Hbody. apply In_range_down in Hj.
    destruct (0 <=? j - stride).
    + revert Hbody. apply (for_preserves P); [|exact HP].
      intros p t1 t2 Hp HP1 Hb. apply In_range in Hp.
      apply bind_Ok in Hb as (v & _ & Hb). eapply Hput; [| |exact HP1|exact Hb]; lia.
    + revert Hbody. apply (for_preserves P); [|exact HP].
      intros p t1 t2 Hp HP1 Hb. apply In_range in Hp.
      eapply Hput; [| |exact HP1|exact Hb]; lia.
  - split; [apply same_size_refl|]. reflexivity.
Qed.

(** ** The ink width measured by [centerChar] *)

Lemma column_pixels_spec (im : Image) (i j : Z) :
  0 <= j < xsize im -> 0 <= i * 8 -> i * 8 + 8 <= ysize im ->
  column_pixels im i j = Ok (ink_pixels im i j).
Proof.
  intros Hj Hi0 Hi1. unfold column_pixels, ink_pixels.
  apply (for_pure (fun p pixels =>
    if pixel im j (i * 8 + p) =? 255 then pixels + 1 else pixels)).
  intros p s Hp. apply In_range in Hp.
  rewrite getpixel_inside by (apply inside_true; lia). reflexivity.
Qed.

Lemma char_wsize_spec (im : Image) (i : Z) :
  8 <= xsize im -> 0 <= i * 8 -> i * 8 + 8 <= ysize im ->
  char_wsize im i = Ok (ink_width im i).
Proof.
  intros Hx Hi0 Hi1. unfold char_wsize, ink_width.
  apply (for_pure (fun j wsize =>
    if negb (ink_pixels im i j =? 0) then wsize + 1 else wsize)).
  intros j s Hj. apply In_range in Hj.
  rewrite column_pixels_spec by lia. reflexivity.
Qed.

Lemma ink_pixels_ext (a b : Image) (i j : Z) :
  (forall p, 0 <= p < 8 -> pixel a j (i * 8 + p) = pixel b j (i * 8 + p)) ->
  ink_pixels a i j = ink_pixels b i j.
Proof.
  intros H. unfold ink_pixels. rewrite range_8. simpl.
  rewrite !H by lia. reflexivity.
Qed.

Lemma ink_width_ext (a b : Image) (i : Z) :
  (forall x y, in_cell i x y = true -> pixel a x y = pixel b x y) ->
  ink_width a i = ink_width b i.
Proof.
  intros H. unfold ink_width. rewrite range_8. simpl.
  rewrite !(ink_pixels_ext a b)
    by (intros p Hp; apply H, in_cell_true; lia).
  reflexivity.
Qed.

Lemma ink_width_range (im : Image) (i : Z) : 0 <= ink_width im i <= 8.
Proof.
  unfold ink_width. rewrite range_8. simpl.
  repeat match goal with |- context [negb ?b] => destruct (negb b) end; lia.
Qed.

Lemma spaces_of_range (w : Z) : 0 <= w <= 8 -> 0 <= spaces_of w <= 4.
Proof.
  intros H. unfold spaces_of. split.
  - apply Z.div_pos; lia.
  - apply Z.div_le_upper_bound; lia.
Qed.

(** ** [centerChar] *)

Lemma cell_row_div (k y : Z) : k * 8 <= y < k * 8 + 8 -> y / 8 = k.
Proof. intros H. symmetry. apply (Z.div_unique y 8 k (y - k * 8)); lia. Qed.

Lemma center_pixel_cell (im : Image) (k x y : Z) :
  0 <= k < nbCharacters -> k * 8 <= y < k * 8 + 8 ->
  center_pixel im x y =
    if centered k then shifted im k (spaces_of (ink_width im k)) x y
    else pixel im x y.
Proof.
  intros Hk Hy. unfold center_pixel. rewrite (cell_row_div k y Hy).
  unfold nbCharacters in *.
  destruct (Z.leb_spec 0 y); [|lia]. destruct (Z.ltb_spec y (256 * 8)); [|lia].
  reflexivity.
Qed.

Lemma center_pixel_outside (im : Image) (x y : Z) :
  y < 0 \/ nbCharacters * 8 <= y -> center_pixel im x y = pixel im x y.
Proof.
  intros H. unfold center_pixel.
  destruct (Z.leb_spec 0 y); destruct (Z.ltb_spec y (nbCharacters * 8)); simpl;
    try reflexivity; lia.
Qed.

(** One iteration on a canvas: it returns, keeps the size, and leaves
    the pixels of every other character as they were. *)
Lemma centerChar_body_spec (im : Image) (i : Z) :
  canvas im -> 0 <= i < nbCharacters ->
  exists im',
    centerChar_body i im = Ok im' /\ same_size im im' /\
    forall x y, pixel im' x y =
      if centered i then shifted im i (spaces_of (ink_width im i)) x y
      else pixel im x y.
Proof.
  intros [Hx Hy] Hi. unfold nbCharacters in *. unfold centerChar_body.
  destruct (centered i).
  - rewrite char_wsize_spec by lia. simpl.
    apply shiftRight_spec; try lia.
    apply spaces_of_range, ink_width_range.
  - exists im. split; [reflexivity|]. split; [apply same_size_refl|]. reflexivity.
Qed.

(** [centerChar] returns on every canvas and leaves [center_pixel]:
    character [i] is measured and shifted on its own pixels, which the
    iterations before it have not touched. *)
Lemma centerChar_spec (im : Image) :
  canvas im ->
  exists im',
    centerChar im = Ok im' /\ same_size im im' /\
    forall x y, pixel im' x y = center_pixel im x y.
Proof.
  intros Hc. unfold centerChar.
  destruct (for_range_inv (fun k s => same_size im s /\
    forall x y, pixel s x y =
      if y <? k * 8 then center_pixel im x y else pixel im x y)
    nbCharacters centerChar_body im) as (im' & Hrun & Hsz & Hpx).
  - unfold nbCharacters; lia.
  - split; [apply same_size_refl|]. intros x y.
    destruct (Z.ltb_spec y (0 * 8)); [|reflexivity].
    symmetry. apply center_pixel_outside. lia.
  - intros k s1 Hk [Hsz Hpx].
    assert (Hc1 : canvas s1).
    { destruct Hc, Hsz as [Hx Hy]. split; rewrite ?Hx, ?Hy; assumption. }
    destruct (centerChar_body_spec s1 k Hc1 Hk) as (s2 & Hrun & Hsz2 & Hpx2).
    exists s2. split; [exact Hrun|].
    split; [eapply same_size_trans; eassumption|].
    assert (Hw : ink_width s1 k = ink_width im k).
    { apply ink_width_ext. intros x y Hin. apply in_cell_true in Hin.
      rewrite Hpx. destruct (Z.ltb_spec y (k * 8)); [lia | reflexivity]. }
    intros x y. rewrite Hpx2, Hw.
    destruct (Z.ltb_spec y ((k + 1) * 8)) as [Hlt|Hge].
    + destruct (Z.ltb_spec y (k * 8)) as [Hlt'|Hge'].
      * assert (Hout : in_cell k x y = false)
          by (unfold in_cell; pixel_cases).
        unfold shifted. rewrite Hout, Hpx.
        destruct (Z.ltb_spec y (k * 8)); [|lia].
        destruct (centered k); reflexivity.
      * rewrite (center_pixel_cell im k x y Hk) by lia.
        destruct (centered k).
        -- unfold shifted. destruct (in_cell k x y); rewrite ?Hpx;
             destruct (Z.ltb_spec y (k * 8)); try lia; reflexivity.
        -- rewrite Hpx. destruct (Z.ltb_spec y (k * 8)); [lia | reflexivity].
    + assert (Hout : in_cell k x y = false)
        by (unfold in_cell; pixel_cases).
      unfold shifted. rewrite Hout, Hpx.
      destruct (Z.ltb_spec y (k * 8)); [lia|].
      destruct (centered k); reflexivity.
  - exists im'. split; [exact Hrun|]. split; [exact Hsz|].
    intros x y. rewrite Hpx.
    destruct (Z.ltb_spec y (nbCharacters * 8)); [reflexivity|].
    symmetry. apply center_pixel_outside. lia.
Qed.

Lemma canvas_same_size (im im' : Image) :
  canvas im -> same_size im im' -> canvas im'.
Proof. intros [Hx Hy] [Hx' Hy']. split; rewrite ?Hx', ?Hy'; assumption. Qed.

Lemma getpixel_cell (im : Image) (i x y : Z) :
  canvas im -> 0 <= i < nbCharacters -> in_cell i x y = true ->
  getpixel im (x, y) = Ok (pixel im x y).
Proof.
  intros [Hx Hy] Hi Hin. apply in_cell_true in Hin. unfold nbCharacters in *.
  apply getpixel_inside, inside_true. lia.
Qed.

Lemma centered_false (i : Z) :
  centered i = false <-> In i [33; 44; 46; 58; 59; 63].
Proof.
  unfold centered. simpl. split.
  - intros H.
    destruct (Z.eqb_spec i 33); [auto|]. destruct (Z.eqb_spec i 44); [auto|].
    destruct (Z.eqb_spec i 46); [auto|]. destruct (Z.eqb_spec i 58); [auto|].
    destruct (Z.eqb_spec i 59); [auto 6|]. destruct (Z.eqb_spec i 63); [auto 7|].
    discriminate.
  - intros [<-|[<-|[<-|[<-|[<-|[<-|[]]]]]]]; reflexivity.
Qed.

(** What [centerChar] leaves in the cell of a character, by cases. *)
Lemma centerChar_cell (im : Image) :
  canvas im ->
  exists im',
    centerChar im = Ok im' /\ canvas im' /\ same_size im im' /\
    (forall i x y, 0 <= i < nbCharacters -> in_cell i x y = true ->
       pixel im' x y =
         if centered i then
           if 0 <=? x - spaces_of (ink_width im i)
           then pixel im (x - spaces_of (ink_width im i)) y else 0
         else pixel im x y) /\
    (forall x y, 8 <= x -> pixel im' x y = pixel im x y).
Proof.
  intros Hc. destruct (centerChar_spec im Hc) as (im' & Hrun & Hsz & Hpx).
  exists im'. split; [exact Hrun|]. split; [eapply canvas_same_size; eassumption|].
  split; [exact Hsz|]. split.
  - intros i x y Hi Hin. rewrite Hpx.
    rewrite (center_pixel_cell im i x y Hi) by (apply in_cell_true in Hin; lia).
    unfold shifted. rewrite Hin. reflexivity.
  - intros x y Hx. rewrite Hpx. unfold center_pixel, shifted.
    assert (Hout : in_cell (y / 8) x y = false) by (unfold in_cell; pixel_cases).
    rewrite Hout. destruct (_ && _); reflexivity.
Qed.

(** ** Claims on centering *)

(** C8.  On every canvas [centerChar] returns, and the cells of the six
    character codes 33, 44, 46, 58, 59 and 63 hold after it the pixels
    they held before it. *)
Theorem centerChar_keeps_punctuation (im : Image) :
  canvas im ->
  exists im',
    centerChar im = Ok im' /\
    forall i x y, In i [33; 44; 46; 58; 59; 63] ->
      0 <= x <= 7 -> i * 8 <= y <= i * 8 + 7 ->
      getpixel im' (x, y) = getpixel im (x, y).
Proof.
  intros Hc. destruct (centerChar_cell im Hc) as (im' & Hrun & Hc' & Hsz & Hcell & _).
  exists im'. split; [exact Hrun|].
  intros i x y Hi Hx Hy. apply getpixel_ext; [exact Hsz|].
  assert (Hin : in_cell i x y = true) by (apply in_cell_true; lia).
  assert (Hr : 0 <= i < nbCharacters).
  { unfold nbCharacters. simpl in Hi. lia. }
  rewrite (Hcell i x y Hr Hin).
  apply centered_false in Hi. rewrite Hi. reflexivity.
Qed.

(** C9.  A [shiftRight] of character [i], and so one iteration of
    [centerChar] on character [i], changes no pixel outside columns 0..7
    of rows [i*8 .. i*8+7]: the cells of the other characters and the
    columns from 8 on read as before. *)
Theorem shiftRight_only_own_cell (im im' : Image) (i stride x y : Z) :
  shiftRight im i stride = Ok im' \/ centerChar_body i im = Ok im' ->
  ~ (0 <= x <= 7 /\ i * 8 <= y <= i * 8 + 7) ->
  getpixel im' (x, y) = getpixel im (x, y).
Proof.
  intros Hrun Hout.
  assert (Hcell : in_cell i x y = false).
  { destruct (in_cell i x y) eqn:E; [|reflexivity].
    apply in_cell_true in E. contradiction. }
  assert (Hshift : forall s, shiftRight im i s = Ok im' ->
            getpixel im' (x, y) = getpixel im (x, y)).
  { intros s Hs. apply shiftRight_frame in Hs as [Hsz Hpx].
    apply getpixel_ext; auto. }
  destruct Hrun as [Hs|Hb]; [eapply Hshift; eassumption|].
  unfold centerChar_body in Hb. destruct (centered i).
  - apply bind_Ok in Hb as (w & _ & Hs). eapply Hshift; eassumption.
  - injection Hb as <-. reflexivity.
Qed.

Lemma shiftRight_sample_shifted :
  shiftRight sample_sheet 65 2 = Ok sample_shifted.
Proof.
  unfold sample_shifted.
  destruct (shiftRight_spec sample_sheet 65 2) as (im' & -> & _);
    [vm_compute; discriminate | lia | vm_compute; discriminate | lia | reflexivity].
Qed.

Lemma shiftRight_only_own_cell_witness :
  (shiftRight sample_sheet 65 2 = Ok sample_shifted \/
   centerChar_body 65 sample_sheet = Ok sample_shifted) /\
  ~ (0 <= 3 <= 7 /\ 65 * 8 <= 66 * 8 <= 65 * 8 + 7) /\
  getpixel sample_shifted (3, 66 * 8) = getpixel sample_sheet (3, 66 * 8).
Proof.
  split; [left; exact shiftRight_sample_shifted|].
  split; [lia|].
  apply (shiftRight_only_own_cell sample_sheet sample_shifted 65 2 3 (66 * 8)).
  - left. exact shiftRight_sample_shifted.
  - lia.
Defined.

(** C6.  A character that is centered and whose measured width is 4 is
    shifted by [(8 - 4) / 2 = 2]; after [centerChar] column 7 of its cell
    holds what column 5 held, and columns 0 and 1 hold zeros. *)
Theorem center_width_4 (im : Image) (i : Z) :
  canvas im -> 0 <= i < nbCharacters -> centered i = true ->
  char_wsize im i = Ok 4 ->
  spaces_of 4 = 2 /\
  centerChar_body i im = shiftRight im i 2 /\
  exists im',
    centerChar im = Ok im' /\
    forall p, 0 <= p <= 7 ->
      getpixel im' (7, i * 8 + p) = getpixel im (5, i * 8 + p) /\
      getpixel im' (0, i * 8 + p) = Ok 0 /\
      getpixel im' (1, i * 8 + p) = Ok 0.
Proof.
  intros Hc Hi Hcen Hw.
  split; [reflexivity|].
  split; [unfold centerChar_body; rewrite Hcen, Hw; reflexivity|].
  assert (Hw' : ink_width im i = 4).
  { destruct Hc. unfold nbCharacters in *.
    rewrite char_wsize_spec in Hw by lia. congruence. }
  destruct (centerChar_cell im Hc) as (im' & Hrun & Hc' & Hsz & Hcell & _).
  exists im'. split; [exact Hrun|].
  intros p Hp.
  assert (Hin : forall x, 0 <= x <= 7 -> in_cell i x (i * 8 + p) = true)
    by (intros; apply in_cell_true; lia).
  rewrite (getpixel_cell im' i 7), (getpixel_cell im' i 0),
    (getpixel_cell im' i 1), (getpixel_cell im i 5) by (auto; apply Hin; lia).
  rewrite (Hcell i 7), (Hcell i 0), (Hcell i 1) by (auto; apply Hin; lia).
  rewrite Hcen, Hw'. auto.
Qed.

Lemma center_width_4_witness :
  canvas sample_sheet /\ 0 <= 65 < nbCharacters /\ centered 65 = true /\
  char_wsize sample_sheet 65 = Ok 4 /\
  spaces_of 4 = 2 /\
  centerChar_body 65 sample_sheet = shiftRight sample_sheet 65 2 /\
  exists im',
    centerChar sample_sheet = Ok im' /\
    forall p, 0 <= p <= 7 ->
      getpixel im' (7, 65 * 8 + p) = getpixel sample_sheet (5, 65 * 8 + p) /\
      getpixel im' (0, 65 * 8 + p) = Ok 0 /\
      getpixel im' (1, 65 * 8 + p) = Ok 0.
Proof.
  assert (Hc : canvas sample_sheet) by (split; vm_compute; discriminate).
  assert (Hi : 0 <= 65 < nbCharacters) by (unfold nbCharacters; lia).
  assert (Hw : char_wsize sample_sheet 65 = Ok 4) by (vm_compute; reflexivity).
  split; [exact Hc|]. split; [exact Hi|]. split; [reflexivity|].
  split; [exact Hw|].
  exact (center_width_4 sample_sheet 65 Hc Hi eq_refl Hw).
Defined.

Lemma centerChar_keeps_punctuation_witness :
  canvas sample_sheet /\
  exists im',
    centerChar sample_sheet = Ok im' /\
    forall i x y, In i [33; 44; 46; 58; 59; 63] ->
      0 <= x <= 7 -> i * 8 <= y <= i * 8 + 7 ->
      getpixel im' (x, y) = getpixel sample_sheet (x, y).
Proof.
  assert (Hc : canvas sample_sheet) by (split; vm_compute; discriminate).
  split; [exact Hc|].
  exact (centerChar_keeps_punctuation sample_sheet Hc).
Defined.

(** ** Centering twice *)

Lemma ink_pixels_column (a b : Image) (i j c : Z) :
  (forall p, 0 <= p < 8 -> pixel a j (i * 8 + p) = pixel b c (i * 8 + p)) ->
  ink_pixels a i j = ink_pixels b i c.
Proof.
  intros H. unfold ink_pixels. rewrite range_8. cbn [fold_left].
  rewrite !H by lia. reflexivity.
Qed.

Lemma ink_pixels_zero (a : Image) (i j : Z) :
  (forall p, 0 <= p < 8 -> pixel a j (i * 8 + p) = 0) ->
  ink_pixels a i j = 0.
Proof.
  intros H. unfold ink_pixels. rewrite range_8. cbn [fold_left].
  rewrite !H by lia. reflexivity.
Qed.

(** A shift to the right cannot add an inked column. *)
Lemma ink_width_shifted (im im1 : Image) (i s : Z) :
  0 <= s <= 4 ->
  (forall x y, in_cell i x y = true ->
     pixel im1 x y = if 0 <=? x - s then pixel im (x - s) y else 0) ->
  ink_width im1 i <= ink_width im i.
Proof.
  intros Hs H.
  assert (Hlo : forall j, 0 <= j < s -> ink_pixels im1 i j = 0).
  { intros j Hj. apply ink_pixels_zero. intros p Hp.
    rewrite H by (apply in_cell_true; lia).
    destruct (Z.leb_spec 0 (j - s)); [lia | reflexivity]. }
  assert (Hhi : forall j c, s <= j <= 7 -> c = j - s ->
            ink_pixels im1 i j = ink_pixels im i c).
  { intros j c Hj ->. apply ink_pixels_column. intros p Hp.
    rewrite H by (apply in_cell_true; lia).
    destruct (Z.leb_spec 0 (j - s)); [reflexivity | lia]. }
  unfold ink_width. rewrite range_8. cbn [fold_left].
  assert (Hcases : s = 0 \/ s = 1 \/ s = 2 \/ s = 3 \/ s = 4) by lia.
  destruct Hcases as [->|[->|[->|[->| ->]]]];
    repeat match goal with
           | |- context [ink_pixels im1 i ?j] =>
               first [ rewrite (Hlo j) by lia
                     | let c := eval compute in (j - 0) in
                       rewrite (Hhi j c) by lia
                     | let c := eval compute in (j - 1) in
                       rewrite (Hhi j c) by lia
                     | let c := eval compute in (j - 2) in
                       rewrite (Hhi j c) by lia
                     | let c := eval compute in (j - 3) in
                       rewrite (Hhi j c) by lia
                     | let c := eval compute in (j - 4) in
                       rewrite (Hhi j c) by lia ]
           end;
    change (0 =? 0) with true; cbn [negb];
    repeat match goal with
           | |- context [negb (?a =? 0)] => destruct (negb (a =? 0))
           end; lia.
Qed.

Lemma spaces_of_zero (w : Z) : spaces_of w = 0 <-> 7 <= w <= 8.
Proof. unfold spaces_of. split; intros H; Z.div_mod_to_equations; lia. Qed.

(** What a shift by a positive stride leaves unchanged is all zero. *)
Lemma fixed_by_shift_zero (c : Z -> Z) (s : Z) :
  1 <= s ->
  (forall x, 0 <= x <= 7 -> c x = if 0 <=? x - s then c (x - s) else 0) ->
  forall x, 0 <= x <= 7 -> c x = 0.
Proof.
  intros Hs Hfix.
  assert (H : forall n : nat, forall x, 0 <= x <= 7 -> x < Z.of_nat n -> c x = 0).
  { induction n as [|n IH]; intros x Hx Hn; [lia|].
    rewrite Hfix by lia. destruct (Z.leb_spec 0 (x - s)); [|reflexivity].
    apply IH; lia. }
  intros x Hx. apply (H 8%nat); lia.
Qed.

(** C3, as the code has it.  For a character that is centered, with
    measured width [w]: a second [centerChar] leaves its cell as the first
    one left it exactly when the first one shifted by [(8 - w) / 2 = 0]
    (a width of 7 or 8) or left the cell all zero.  The second pass
    measures the shifted character and shifts it again. *)
Theorem centerChar_twice (im : Image) (i : Z) :
  canvas im -> 0 <= i < nbCharacters -> centered i = true ->
  exists w im1 im2,
    char_wsize im i = Ok w /\
    centerChar im = Ok im1 /\ centerChar im1 = Ok im2 /\
    ((forall x y, 0 <= x <= 7 -> i * 8 <= y <= i * 8 + 7 ->
        getpixel im2 (x, y) = getpixel im1 (x, y)) <->
     (spaces_of w = 0 \/
      forall x y, 0 <= x <= 7 -> i * 8 <= y <= i * 8 + 7 ->
        getpixel im1 (x, y) = Ok 0)).
Proof.
  intros Hc Hi Hcen.
  destruct (centerChar_cell im Hc) as (im1 & Hrun1 & Hc1 & Hsz1 & Hcell1 & _).
  destruct (centerChar_cell im1 Hc1) as (im2 & Hrun2 & Hc2 & Hsz2 & Hcell2 & _).
  exists (ink_width im i), im1, im2.
  split. { destruct Hc. unfold nbCharacters in *. apply char_wsize_spec; lia. }
  split; [exact Hrun1|]. split; [exact Hrun2|].
  set (s := spaces_of (ink_width im i)) in *.
  set (s1 := spaces_of (ink_width im1 i)) in *.
  assert (Hs : 0 <= s <= 4) by apply spaces_of_range, ink_width_range.
  assert (Hs1 : 0 <= s1 <= 4) by apply spaces_of_range, ink_width_range.
  assert (H1 : forall x y, in_cell i x y = true ->
            pixel im1 x y = if 0 <=? x - s then pixel im (x - s) y else 0).
  { intros x y Hin. rewrite (Hcell1 i x y Hi Hin), Hcen. reflexivity. }
  assert (H2 : forall x y, in_cell i x y = true ->
            pixel im2 x y = if 0 <=? x - s1 then pixel im1 (x - s1) y else 0).
  { intros x y Hin. rewrite (Hcell2 i x y Hi Hin), Hcen. reflexivity. }
  assert (Hget : forall a, canvas a -> forall v x y,
            0 <= x <= 7 -> i * 8 <= y <= i * 8 + 7 ->
            (getpixel a (x, y) = Ok v <-> pixel a x y = v)).
  { intros a Ha v x y Hx Hy.
    rewrite (getpixel_cell a i x y Ha Hi) by (apply in_cell_true; lia).
    split; congruence. }
  split.
  - intros Hsame.
    destruct (Z.eq_dec s 0) as [Hz|Hnz]; [left; exact Hz | right].
    assert (Hw : ink_width im1 i <= ink_width im i)
      by (apply (ink_width_shifted im im1 i s); assumption).
    assert (Hpos : 1 <= s1).
    { pose proof (ink_width_range im i). pose proof (ink_width_range im1 i).
      destruct (Z.eq_dec s1 0) as [Hz1|]; [|lia].
      apply spaces_of_zero in Hz1.
      assert (7 <= ink_width im i <= 8) by lia.
      apply spaces_of_zero in H3. contradiction. }
    intros x y Hx Hy. apply (Hget im1 Hc1); [lia | lia |].
    apply (fixed_by_shift_zero (fun x => pixel im1 x y) s1 Hpos); [|lia].
    intros x' Hx'. rewrite <- H2 by (apply in_cell_true; lia).
    symmetry. apply (Hget im2 Hc2); [lia | lia |].
    rewrite Hsame by lia. apply (Hget im1 Hc1); [lia | lia | reflexivity].
  - intros Hor x y Hx Hy.
    assert (Hin : in_cell i x y = true) by (apply in_cell_true; lia).
    rewrite (getpixel_cell im2 i x y Hc2 Hi Hin), (getpixel_cell im1 i x y Hc1 Hi Hin).
    f_equal. rewrite (H2 x y Hin).
    destruct Hor as [Hz|Hblank].
    + assert (Heq : forall x y, in_cell i x y = true -> pixel im1 x y = pixel im x y).
      { intros x0 y0 Hin0. rewrite (H1 x0 y0 Hin0). fold s in Hz. rewrite Hz.
        rewrite Z.sub_0_r. apply in_cell_true in Hin0.
        destruct (Z.leb_spec 0 x0); [reflexivity | lia]. }
      assert (Hz1 : s1 = 0).
      { unfold s1. rewrite (ink_width_ext im1 im i Heq). exact Hz. }
      rewrite Hz1, Z.sub_0_r. destruct (Z.leb_spec 0 x); [reflexivity | lia].
    + assert (Hb : forall x y, 0 <= x <= 7 -> i * 8 <= y <= i * 8 + 7 ->
                pixel im1 x y = 0).
      { intros x0 y0 Hx0 Hy0. apply (Hget im1 Hc1); [lia | lia |].
        apply Hblank; lia. }
      rewrite (Hb x y) by lia.
      destruct (Z.leb_spec 0 (x - s1)); [apply Hb; lia | reflexivity].
Qed.

Lemma centerChar_twice_witness :
  canvas sample_sheet /\ 0 <= 66 < nbCharacters /\ centered 66 = true /\
  exists w im1 im2,
    char_wsize sample_sheet 66 = Ok w /\
    centerChar sample_sheet = Ok im1 /\ centerChar im1 = Ok im2 /\
    ((forall x y, 0 <= x <= 7 -> 66 * 8 <= y <= 66 * 8 + 7 ->
        getpixel im2 (x, y) = getpixel im1 (x, y)) <->
     (spaces_of w = 0 \/
      forall x y, 0 <= x <= 7 -> 66 * 8 <= y <= 66 * 8 + 7 ->
        getpixel im1 (x, y) = Ok 0)).
Proof.
  assert (Hc : canvas sample_sheet) by (split; vm_compute; discriminate).
  assert (Hi : 0 <= 66 < nbCharacters) by (unfold nbCharacters; lia).
  split; [exact Hc|]. split; [exact Hi|]. split; [reflexivity|].
  exact (centerChar_twice sample_sheet 66 Hc Hi eq_refl).
Defined.

Lemma centerChar_run_twice (im : Image) (Q : Image -> Image -> Prop) :
  match centerChar im with
  | Ok im1 => match centerChar im1 with
              | Ok im2 => Q im1 im2
              | Raise _ => False
              end
  | Raise _ => False
  end ->
  exists im1 im2, centerChar im = Ok im1 /\ centerChar im1 = Ok im2 /\ Q im1 im2.
Proof.
  destruct (centerChar im) as [im1|]; [|contradiction].
  destruct (centerChar im1) as [im2|] eqn:E2; [|contradiction].
  intros HQ. exists im1, im2. auto.
Qed.

(** C3, as it is worded, fails on character 65 of the sample sheet: its
    width is 4, its slack [8 - 4] is even, the first [centerChar] moves
    its ink from columns 0..3 to columns 2..5 and the second one moves it
    on to columns 4..7. *)
Lemma second_centerChar_moves_width_4 :
  char_wsize sample_sheet 65 = Ok 4 /\ Z.even (8 - 4) = true /\
  exists im1 im2,
    centerChar sample_sheet = Ok im1 /\ centerChar im1 = Ok im2 /\
    (char_wsize im1 65 = Ok 4 /\
     getpixel sample_sheet (2, 65 * 8) = Ok 255 /\
     getpixel im1 (2, 65 * 8) = Ok 255 /\
     getpixel im2 (2, 65 * 8) = Ok 0).
Proof.
  split; [vm_compute; reflexivity|]. split; [reflexivity|].
  apply centerChar_run_twice. vm_compute. repeat split; reflexivity.
Qed.

(** ** Drawing and checking a character in [findSize] *)

Lemma draw_text_spec (g : Glyph) (im : Image) (xy : Z * Z) :
  same_size im (draw_text im xy g) /\
  forall x y,
    (pixel (draw_text im xy g) x y = pixel im x y \/
     pixel (draw_text im xy g) x y = 255 /\
     exists d, In d g /\ x = fst xy + fst d /\ y = snd xy + snd d) /\
    (pixel im x y = 255 -> pixel (draw_text im xy g) x y = 255).
Proof.
  unfold draw_text. revert im.
  induction g as [|d g IH]; intros im; simpl.
  - split; [apply same_size_refl|]. intros x y. auto.
  - set (x0 := fst xy + fst d). set (y0 := snd xy + snd d).
    set (im1 := if inside im x0 y0
                then mkImage (xsize im) (ysize im) (<[(x0, y0) := 255]> (px im))
                else im).
    assert (Hsz1 : same_size im im1).
    { unfold im1. destruct (inside im x0 y0); split; reflexivity. }
    assert (Hpx1 : forall x y,
              pixel im1 x y = pixel im x y \/
              pixel im1 x y = 255 /\ x = x0 /\ y = y0).
    { intros x y. unfold im1. destruct (inside im x0 y0); [|auto].
      unfold pixel; simpl.
      destruct (decide ((x0, y0) = (x, y))) as [[= <- <-]|Hne].
      - right. rewrite lookup_insert_eq. auto.
      - left. rewrite lookup_insert_ne by exact Hne. reflexivity. }
    destruct (IH im1) as [Hsz Hpx].
    split; [eapply same_size_trans; eassumption|].
    intros x y. destruct (Hpx x y) as [Hcases Hkeep]. split.
    + destruct Hcases as [Heq|(H255 & d' & Hd' & Hxy)].
      * rewrite Heq. destruct (Hpx1 x y) as [|(? & ? & ?)]; [auto|].
        right. split; [assumption|]. exists d. auto.
      * right. split; [assumption|]. exists d'. auto.
    + intros H. apply Hkeep. destruct (Hpx1 x y) as [->|(? & _)]; assumption.
Qed.

Lemma draw_text_inks (g : Glyph) (im : Image) (xy d : Z * Z) :
  In d g -> inside im (fst xy + fst d) (snd xy + snd d) = true ->
  pixel (draw_text im xy g) (fst xy + fst d) (snd xy + snd d) = 255.
Proof.
  unfold draw_text. revert im.
  induction g as [|d' g IH]; intros im Hin Hins; simpl; [contradiction|].
  destruct Hin as [->|Hin].
  - rewrite Hins.
    apply (proj2 (proj2 (draw_text_spec g _ xy) _ _)).
    unfold pixel; simpl. rewrite lookup_insert_eq. reflexivity.
  - apply IH; [exact Hin|].
    destruct (inside im (fst xy + fst d') (snd xy + snd d')); [|exact Hins].
    exact Hins.
Qed.

(** The two loops that clear the cell of character [i]. *)
Lemma clear_cell_spec (im : Image) (i : Z) :
  8 <= xsize im -> 0 <= i * 8 -> i * 8 + 8 <= ysize im ->
  exists im',
    for_ (range 8) (fun j im =>
      for_ (range 8) (fun pixel im => putpixel im (j, i * 8 + pixel) 0) im) im
      = Ok im' /\
    same_size im im' /\
    forall x y, pixel im' x y = if in_cell i x y then 0 else pixel im x y.
Proof.
  intros Hx Hi0 Hi1.
  destruct (for_range_inv (fun k s => same_size im s /\
    forall x y, pixel s x y =
      if (x <? k) && in_cell i x y then 0 else pixel im x y) 8
    (fun j im0 =>
       for_ (range 8) (fun pixel im1 => putpixel im1 (j, i * 8 + pixel) 0) im0) im)
    as (im' & Hrun & Hsz & Hpx); [lia | | | ].
  - split; [apply same_size_refl|]. intros x y. unfold in_cell. pixel_cases.
  - intros k s1 Hk [[Hsx Hsy] Hpx].
    destruct (zero_column_spec s1 i k) as (s2 & Hrun & Hsz2 & Hpx2); [lia | lia | lia |].
    exists s2. split; [exact Hrun|].
    split; [eapply same_size_trans; [split|]; eassumption|].
    intros x y. rewrite Hpx2, !Hpx. unfold in_cell. pixel_cases.
  - exists im'. split; [exact Hrun|]. split; [exact Hsz|].
    intros x y. rewrite Hpx. unfold in_cell. pixel_cases.
Qed.

(** Whether column 8 of character [i] holds a 255. *)
Lemma check_oversized_spec (im : Image) (i : Z) (oversized : bool) :
  9 <= xsize im -> 0 <= i * 8 -> i * 8 + 8 <= ysize im ->
  check_oversized im i oversized =
    Ok (oversized || existsb (fun p => pixel im 8 (i * 8 + p) =? 255) (range 8)).
Proof.
  intros Hx Hi0 Hi1. unfold check_oversized.
  assert (H : forall l, (forall p, In p l -> 0 <= p < 8) ->
    for_break l (fun pixel o =>
      do v <- getpixel im (8, i * 8 + pixel);
      if v =? 255 then Ok (true, true) else Ok (o, false)) oversized =
    Ok (oversized || existsb (fun p => pixel im 8 (i * 8 + p) =? 255) l)).
  { induction l as [|p l IH]; intros Hl; simpl.
    - rewrite orb_false_r. reflexivity.
    - rewrite getpixel_inside
        by (apply inside_true; specialize (Hl p (or_introl eq_refl)); lia).
      simpl. destruct (pixel im 8 (i * 8 + p) =? 255); simpl.
      + rewrite orb_true_r. reflexivity.
      + apply IH. intros q Hq. apply Hl. right. exact Hq. }
  apply H. intros p Hp. apply In_range in Hp. exact Hp.
Qed.

(** One pass over the characters.  It returns; [oversized] is set as
    soon as a character of 0..128 inks column 8 of one of its own rows;
    and when the glyphs stay below their anchors, [oversized] left unset
    means that column 8 is blank in the cells of characters 0..128. *)
Lemma draw_chars_spec (font : Font) (im : Image) (o : bool) :
  9 <= xsize im -> nbCharacters * 8 <= ysize im -> monochrome im ->
  exists im' o',
    draw_chars font im o = Ok (im', o') /\ same_size im im' /\
    monochrome im' /\
    (o = true -> o' = true) /\
    ((exists i p, 0 <= i <= 128 /\ 0 <= p <= 7 /\ In (8, p) (font i)) ->
       o' = true) /\
    (below_anchor font -> o' = false ->
       forall i p, 0 <= i <= 128 -> 0 <= p <= 7 -> pixel im' 8 (i * 8 + p) = 0).
Proof.
  intros Hx Hy Hmono. unfold draw_chars.
  match goal with
  | |- context [for_ _ ?b _] => set (body := b)
  end.
  destruct (for_range_inv (fun k (st : Image * bool) =>
    same_size im (fst st) /\ monochrome (fst st) /\
    (o = true -> snd st = true) /\
    (forall i p, 0 <= i <= 128 -> i < k -> 0 <= p <= 7 ->
       In (8, p) (font i) -> snd st = true) /\
    (below_anchor font -> snd st = false ->
       forall i p, 0 <= i <= 128 -> i < k -> 0 <= p <= 7 ->
         pixel (fst st) 8 (i * 8 + p) = 0))
    nbCharacters body (im, o)) as (st & Hrun & Hsz & Hm & Ho & Hdet & Hclear).
  - unfold nbCharacters; lia.
  - simpl. split; [apply same_size_refl|]. split; [exact Hmono|].
    split; [auto|]. split; intros; lia.
  - intros k [im1 o1] Hk (Hsz & Hm & Ho & Hdet & Hclr). cbn [fst snd] in *.
    unfold nbCharacters in *. destruct Hsz as [Hsx Hsy].
    destruct (clear_cell_spec im1 k) as (ima & Hca & Hsza & Hpxa); [lia | lia | lia |].
    unfold body. cbn [fst snd]. rewrite Hca. cbn [bind].
    set (imb := draw_text ima (0, k * 8) (font k)).
    destruct (draw_text_spec (font k) ima (0, k * 8)) as [Hszb Hpxb].
    fold imb in Hszb, Hpxb.
    assert (Hsz1b : same_size im1 imb) by (eapply same_size_trans; eassumption).
    assert (Hszimb : same_size im imb)
      by (eapply same_size_trans; [split|]; eassumption).
    assert (Hmb : monochrome imb).
    { intros x y. destruct (proj1 (Hpxb x y)) as [->|[-> _]]; [|auto].
      rewrite Hpxa. destruct (in_cell k x y); [auto | apply Hm]. }
    assert (Hold : forall i p, i < k -> 0 <= p <= 7 -> below_anchor font ->
              pixel imb 8 (i * 8 + p) = pixel im1 8 (i * 8 + p)).
    { intros i p Hik Hp Hba.
      destruct (proj1 (Hpxb 8 (i * 8 + p))) as [->|(_ & d & Hd & _ & Hyd)].
      - rewrite Hpxa. unfold in_cell. pixel_cases.
      - apply Hba in Hd. simpl in Hyd. lia. }
    set (seen := existsb (fun p => pixel imb 8 (k * 8 + p) =? 255) (range 8)).
    assert (Hseen_t : forall p, 0 <= p <= 7 -> In (8, p) (font k) -> seen = true).
    { intros p Hp Hin. apply existsb_exists. exists p.
      split; [apply In_range; lia|].
      apply Z.eqb_eq.
      apply (draw_text_inks (font k) ima (0, k * 8) (8, p) Hin).
      destruct Hsza as [Hax Hay]. apply inside_true. simpl. lia. }
    assert (Hseen_f : seen = false -> forall p, 0 <= p <= 7 ->
              pixel imb 8 (k * 8 + p) = 0).
    { intros Hf p Hp. destruct (Hmb 8 (k * 8 + p)) as [|H255]; [assumption|].
      assert (seen = true); [|congruence].
      apply existsb_exists. exists p. split; [apply In_range; lia|].
      apply Z.eqb_eq. exact H255. }
    assert (Hstep : forall o2, (o2 = o1 \/ 0 <= k <= 128 /\ o2 = o1 || seen) ->
      (k <= 128 -> o2 = o1 || seen) ->
      same_size im (fst (imb, o2)) /\ monochrome (fst (imb, o2)) /\
      (o = true -> snd (imb, o2) = true) /\
      (forall i p, 0 <= i <= 128 -> i < k + 1 -> 0 <= p <= 7 ->
         In (8, p) (font i) -> snd (imb, o2) = true) /\
      (below_anchor font -> snd (imb, o2) = false ->
         forall i p, 0 <= i <= 128 -> i < k + 1 -> 0 <= p <= 7 ->
           pixel (fst (imb, o2)) 8 (i * 8 + p) = 0)).
    { intros o2 Ho2 Hk2. simpl.
      assert (Hmono2 : o1 = true -> o2 = true).
      { destruct Ho2 as [->|[_ ->]]; [auto|]. intros ->. reflexivity. }
      split; [exact Hszimb|]. split; [exact Hmb|]. split; [auto|]. split.
      - intros i p Hi Hik Hp Hin.
        destruct (Z.eq_dec i k) as [->|Hne].
        + rewrite Hk2 by lia. rewrite (Hseen_t p Hp Hin). apply orb_true_r.
        + apply Hmono2. apply (Hdet i p); auto; lia.
      - intros Hba Hf i p Hi Hik Hp.
        assert (Ho1 : o1 = false) by (destruct o1; [rewrite Hmono2 in Hf|]; auto).
        destruct (Z.eq_dec i k) as [->|Hne].
        + apply Hseen_f; [|exact Hp].
          rewrite Hk2, Ho1 in Hf by lia. exact Hf.
        + rewrite Hold by (auto; lia). apply Hclr; auto; lia. }
    destruct ((0 <=? k) && (k <=? 128)) eqn:E.
    + rewrite check_oversized_spec
        by (destruct Hsz1b as [Hbx Hby]; rewrite ?Hbx, ?Hby; lia).
      cbn [bind]. fold seen. exists (imb, o1 || seen). split; [reflexivity|].
      apply Hstep; [right; split; [|reflexivity]|reflexivity].
      apply andb_true_iff in E. lia.
    + cbn [bind]. exists (imb, o1). split; [reflexivity|].
      apply Hstep; [left; reflexivity|].
      intros Hle. apply andb_false_iff in E. destruct E as [E|E]; lia.
  - destruct st as [im' o']. simpl in *. exists im', o'.
    split; [exact Hrun|]. split; [exact Hsz|]. split; [exact Hm|].
    split; [exact Ho|]. split.
    + intros (i & p & Hi & Hp & Hin). apply (Hdet i p); auto.
      unfold nbCharacters; lia.
    + intros Hba Hf i p Hi Hp. apply Hclear; auto. unfold nbCharacters; lia.
Qed.

(** ** The search loop of [findSize] *)

Lemma findSize_while_step (truetype : string -> Z -> option Font)
    (fontname : string) (fontSize : Z) :
  findSize_while truetype fontname fontSize =
    if Z_lt_dec fontSize minFontSize then
      run _ <- print_stderr search_error; exit (-1)
    else
      match truetype fontname (fontSize - 1) with
      | None => lift (Raise IOError)
      | Some font =>
          run st <- lift (draw_chars font (Image_new (10, 8 * nbCharacters)) false);
          if snd st
          then findSize_while truetype fontname (fontSize - 1)
          else ret (fontSize - 1, fst st)
      end.
Proof.
  rewrite findSize_while_equation_1.
  destruct (Z_lt_dec fontSize minFontSize); reflexivity.
Qed.

Lemma new_image_spec (size : Z * Z) :
  xsize (Image_new size) = fst size /\ ysize (Image_new size) = snd size /\
  monochrome (Image_new size).
Proof.
  split; [reflexivity|]. split; [reflexivity|].
  intros x y. left. unfold pixel, Image_new; simpl. rewrite lookup_empty. reflexivity.
Qed.

(** A pass over the fresh image of [findSize] returns. *)
Lemma draw_chars_fresh (font : Font) :
  exists im o,
    draw_chars font (Image_new (10, 8 * nbCharacters)) false = Ok (im, o) /\
    same_size (Image_new (10, 8 * nbCharacters)) im /\
    ((exists i p, 0 <= i <= 128 /\ 0 <= p <= 7 /\ In (8, p) (font i)) ->
       o = true) /\
    (below_anchor font -> o = false ->
       forall i p, 0 <= i <= 128 -> 0 <= p <= 7 -> pixel im 8 (i * 8 + p) = 0).
Proof.
  destruct (new_image_spec (10, 8 * nbCharacters)) as (Hx & Hy & Hm).
  destruct (draw_chars_spec font (Image_new (10, 8 * nbCharacters)) false)
    as (im & o & Hrun & Hsz & _ & _ & Hdet & Hclr).
  - rewrite Hx. cbn [fst]. lia.
  - rewrite Hy. cbn [snd]. lia.
  - exact Hm.
  - exists im, o. auto.
Qed.

Section Search.

Variable truetype : string -> Z -> option Font.
Variable fontname : string.

(** When the loop returns, it returns a size from [minFontSize - 1] up
    to one less than the size it was entered with, the pass at that size
    left [oversized] unset, and nothing was printed. *)
Lemma findSize_while_Ok (n : nat) :
  forall fontSize w size im w',
    (Z.to_nat (fontSize - minFontSize + 1) <= n)%nat ->
    findSize_while truetype fontname fontSize w = (Ok (size, im), w') ->
    minFontSize - 1 <= size <= fontSize - 1 /\ w' = w /\
    exists font,
      truetype fontname size = Some font /\
      draw_chars font (Image_new (10, 8 * nbCharacters)) false = Ok (im, false).
Proof.
  induction n as [|n IH]; intros fontSize w size im w' Hn Hrun;
    rewrite findSize_while_step in Hrun;
    destruct (Z_lt_dec fontSize minFontSize) as [Hlt|Hge];
    try discriminate Hrun; try lia.
  destruct (truetype fontname (fontSize - 1)) as [font|] eqn:Hfont;
    [|discriminate Hrun].
  unfold bindM, lift in Hrun.
  destruct (draw_chars font (Image_new (10, 8 * nbCharacters)) false)
    as [[im1 o1]|e] eqn:Hpass; [|discriminate].
  cbn [fst snd] in Hrun. destruct o1.
  - apply IH in Hrun; [|lia].
    destruct Hrun as (Hsize & Hw & Hf). split; [lia|]. auto.
  - unfold ret in Hrun. injection Hrun as <- <- <-.
    split; [lia|]. split; [reflexivity|]. exists font. auto.
Qed.

(** When the pass at every size from [fontSize - 1] down to
    [minFontSize - 1] sets [oversized], the loop prints the error and
    raises [SystemExit(-1)]. *)
Lemma findSize_while_exhausted (n : nat) :
  forall fontSize w,
    (Z.to_nat (fontSize - minFontSize + 1) <= n)%nat ->
    (forall size, minFontSize - 1 <= size <= fontSize - 1 ->
       exists font, truetype fontname size = Some font /\ fits font = Ok false) ->
    findSize_while truetype fontname fontSize w =
      (Raise (SystemExit (-1)),
       mkWorld (stdout w) (stderr w ++ [search_error]) (saved w)).
Proof.
  induction n as [|n IH]; intros fontSize w Hn Hall;
    rewrite findSize_while_step;
    destruct (Z_lt_dec fontSize minFontSize) as [Hlt|Hge];
    try reflexivity; try lia.
  destruct (Hall (fontSize - 1)) as (font & Hfont & Hfit); [lia|].
  rewrite Hfont. unfold fits in Hfit. unfold bindM, lift.
  destruct (draw_chars font (Image_new (10, 8 * nbCharacters)) false)
    as [[im1 o1]|e]; [|discriminate].
  cbn [bind fst snd] in *. destruct o1; [|discriminate].
  apply IH; [lia|]. intros size Hsize. apply Hall. lia.
Qed.

End Search.

(** ** Functions that print *)

Lemma bindM_Ok {A B : Type} (m : M A) (k : A -> M B) (w : World) (a : A)
    (w' : World) :
  m w = (Ok a, w') -> bindM m k w = k a w'.
Proof. unfold bindM. intros ->. reflexivity. Qed.

Lemma bindM_Raise {A B : Type} (m : M A) (k : A -> M B) (w : World) (e : exn)
    (w' : World) :
  m w = (Raise e, w') -> bindM m k w = (Raise e, w').
Proof. unfold bindM. intros ->. reflexivity. Qed.

(** ** Claims on the size search *)

(** C5.  When [findSize] returns an image, as drawn by a font whose
    glyphs have no ink above their anchor, every pixel of column 8 in the
    rows of the characters 0..128 reads 0. *)
Theorem findSize_probe_column_blank (truetype : string -> Z -> option Font)
    (fontname : string) (w w' : World) (im : Image) :
  (forall size font, truetype fontname size = Some font -> below_anchor font) ->
  findSize truetype fontname w = (Ok im, w') ->
  forall i p, 0 <= i <= 128 -> 0 <= p <= 7 ->
    getpixel im (8, i * 8 + p) = Ok 0.
Proof.
  intros Hfont Hrun i p Hi Hp. unfold findSize, bindM in Hrun.
  destruct (findSize_while truetype fontname maxFontSize w) as [[[size im1]|e] w1] eqn:E;
    [|discriminate].
  unfold ret in Hrun. cbn [snd] in Hrun. injection Hrun as <- <-.
  apply (findSize_while_Ok truetype fontname _ _ _ _ _ _ (Nat.le_refl _)) in E.
  destruct E as (_ & _ & font & Hf & Hpass).
  destruct (draw_chars_fresh font) as (im2 & o & Hpass2 & Hsz & _ & Hclr).
  rewrite Hpass in Hpass2. injection Hpass2 as <- <-.
  rewrite getpixel_inside.
  - f_equal. apply Hclr; auto. eapply Hfont; eassumption.
  - rewrite (same_size_inside _ _ _ _ Hsz). apply inside_true.
    unfold nbCharacters. simpl. lia.
Qed.

Lemma sample_truetype_below_anchor (fontname : string) (size : Z) (font : Font) :
  sample_truetype fontname size = Some font -> below_anchor font.
Proof.
  intros [= <-] i d Hd. unfold bar in Hd. apply in_map_iff in Hd.
  destruct Hd as (x & <- & _). simpl. lia.
Qed.

Lemma findSize_sample_fitted :
  findSize sample_truetype "sample.ttf" world0 = (Ok sample_fitted, world0).
Proof.
  unfold sample_fitted, unwrap_image.
  assert (H : match findSize sample_truetype "sample.ttf" world0 with
              | (Ok _, w) => w = world0
              | (Raise _, _) => False
              end) by (vm_compute; reflexivity).
  destruct (findSize sample_truetype "sample.ttf" world0) as [[im|e] w];
    [|contradiction].
  rewrite H. reflexivity.
Qed.

Lemma findSize_probe_column_blank_witness :
  (forall size font, sample_truetype "sample.ttf" size = Some font ->
     below_anchor font) /\
  findSize sample_truetype "sample.ttf" world0 = (Ok sample_fitted, world0) /\
  0 <= 65 <= 128 /\ 0 <= 0 <= 7 /\
  getpixel sample_fitted (8, 65 * 8 + 0) = Ok 0.
Proof.
  split; [apply sample_truetype_below_anchor|].
  split; [exact findSize_sample_fitted|].
  split; [lia|]. split; [lia|].
  apply (findSize_probe_column_blank sample_truetype "sample.ttf" world0 world0
           sample_fitted (sample_truetype_below_anchor "sample.ttf")
           findSize_sample_fitted 65 0); lia.
Defined.

(** C4.  When the pass at every size the loop tries, from
    [maxFontSize - 1] down to [minFontSize - 1], sets [oversized], the
    program prints the error on the standard error, prints nothing on the
    standard output, saves no image, and ends by [exit(-1)], a status
    other than 0. *)
Theorem exhausted_search_exits (truetype : string -> Z -> option Font)
    (prog fontfile : string) (w : World) :
  (forall size, minFontSize - 1 <= size <= maxFontSize - 1 ->
     exists font, truetype fontfile size = Some font /\ fits font = Ok false) ->
  main truetype [prog; fontfile] w =
    (Raise (SystemExit (-1)),
     mkWorld (stdout w) (stderr w ++ [search_error]) (saved w)) /\
  exit_status (-1) <> 0.
Proof.
  intros Hall. split; [|discriminate].
  destruct (Hall 8) as (font8 & Hf8 & _); [unfold minFontSize, maxFontSize; lia|].
  unfold main, checkArgs, findSize.
  change (Z.of_nat (List.length [prog; fontfile]) =? 2) with true. cbv iota.
  change (index [prog; fontfile] 1) with (Ok fontfile).
  apply bindM_Raise.
  rewrite (bindM_Ok _ _ w fontfile w) by reflexivity.
  rewrite Hf8.
  rewrite (bindM_Ok _ _ w tt w) by reflexivity.
  do 2 apply bindM_Raise.
  apply (findSize_while_exhausted truetype fontfile _ _ _ (Nat.le_refl _)).
  intros size Hsize. apply Hall. lia.
Qed.

(** A glyph of 0..128 with ink in column 8 of its own rows makes the
    pass oversized. *)
Lemma inked_probe_column_not_fits (font : Font) (i p : Z) :
  0 <= i <= 128 -> 0 <= p <= 7 -> In (8, p) (font i) -> fits font = Ok false.
Proof.
  intros Hi Hp Hin. unfold fits.
  destruct (draw_chars_fresh font) as (im & o & Hpass & _ & Hdet & _).
  rewrite Hpass. cbn [bind snd]. rewrite Hdet; [reflexivity|].
  exists i, p. auto.
Qed.

Lemma exhausted_search_exits_witness :
  (forall size, minFontSize - 1 <= size <= maxFontSize - 1 ->
     exists font, oversized_truetype "wide.ttf" size = Some font /\
                  fits font = Ok false) /\
  main oversized_truetype ["font2oled.py"; "wide.ttf"]%string world0 =
    (Raise (SystemExit (-1)), mkWorld [] [search_error] []) /\
  exit_status (-1) <> 0.
Proof.
  assert (H : forall size, minFontSize - 1 <= size <= maxFontSize - 1 ->
     exists font, oversized_truetype "wide.ttf" size = Some font /\
                  fits font = Ok false).
  { intros size _. eexists. split; [reflexivity|].
    apply (inked_probe_column_not_fits _ 65 0); [lia | lia |].
    vm_compute. auto 10. }
  split; [exact H|].
  exact (exhausted_search_exits oversized_truetype "font2oled.py" "wide.ttf" world0 H).
Defined.

(** ** The floor of the search *)

(** The sizes [findSize] can stop at. *)
Lemma findSize_size_range (truetype : string -> Z -> option Font)
    (fontname : string) (w w' : World) (size : Z) (im : Image) :
  findSize_while truetype fontname maxFontSize w = (Ok (size, im), w') ->
  minFontSize - 1 <= size <= maxFontSize - 1.
Proof.
  intros H.
  apply (findSize_while_Ok truetype fontname _ _ _ _ _ _ (Nat.le_refl _)) in H.
  tauto.
Qed.

(** C1, on the code.  The test [fontSize < minFontSize] comes before
    [fontSize -= 1]: a font that is oversized from size 4 up and fits at
    size 3 gets its characters drawn at size 3, below [minFontSize], and
    the program prints its table. *)
Lemma findSize_stops_below_minFontSize :
  (forall size, minFontSize <= size <= maxFontSize - 1 ->
     exists font, wide_truetype "wide.ttf" size = Some font /\
                  fits font = Ok false) /\
  returned_size (findSize_while wide_truetype "wide.ttf" maxFontSize world0) = Ok 3 /\
  3 < minFontSize /\
  fst (main wide_truetype ["font2oled.py"; "wide.ttf"]%string world0) = Ok tt.
Proof.
  split.
  { intros size Hsize. eexists. split; [reflexivity|].
    apply (inked_probe_column_not_fits _ 65 0); [lia | lia |].
    unfold bar. apply in_map_iff. exists 8. split; [reflexivity|].
    apply In_range. unfold minFontSize in Hsize. lia. }
  split; [vm_compute; reflexivity|].
  split; [reflexivity|].
  vm_compute. reflexivity.
Qed.

(** ** Python lists and matrices *)

Lemma index_spec {A : Type} (l : list A) (i : Z) :
  0 <= i < Z.of_nat (List.length l) ->
  exists a, l !! Z.to_nat i = Some a /\ index l i = Ok a.
Proof.
  intros Hi. unfold index. cbv zeta.
  destruct (Z.ltb_spec i 0); [lia|]. cbv iota.
  destruct (Z.ltb_spec i 0); [lia|].
  destruct (l !! Z.to_nat i) as [a|] eqn:E.
  - exists a. auto.
  - apply lookup_ge_None in E. lia.
Qed.

Lemma store_spec {A : Type} (l : list A) (i : Z) (v : A) :
  0 <= i < Z.of_nat (List.length l) ->
  store l i v = Ok (<[Z.to_nat i := v]> l).
Proof.
  intros Hi. unfold store. cbv zeta.
  destruct (Z.ltb_spec i 0); [lia|]. cbv iota.
  destruct (Z.leb_spec 0 i); [|lia].
  destruct (Z.ltb_spec i (Z.of_nat (List.length l))); [|lia].
  reflexivity.
Qed.

Lemma matrix_shape_row (m : list (list Z)) (rows cols i : Z) :
  matrix_shape m rows cols -> 0 <= i < rows ->
  exists row, m !! Z.to_nat i = Some row /\ Z.of_nat (List.length row) = cols.
Proof.
  intros [Hr Hc] Hi.
  destruct (m !! Z.to_nat i) as [row|] eqn:E.
  - exists row. split; [reflexivity|].
    rewrite Forall_forall in Hc. apply Hc.
    eapply list_elem_of_lookup_2. eassumption.
  - apply lookup_ge_None in E. lia.
Qed.

Lemma getitem2_spec (m : list (list Z)) (rows cols i j : Z) :
  matrix_shape m rows cols -> 0 <= i < rows -> 0 <= j < cols ->
  getitem2 m i j = Ok (entry m i j).
Proof.
  intros Hm Hi Hj.
  destruct (matrix_shape_row m rows cols i Hm Hi) as (row & Hrow & Hlen).
  unfold getitem2, entry.
  destruct (index_spec m i) as (row' & Hrow' & ->); [destruct Hm; lia|].
  rewrite Hrow in Hrow'. injection Hrow' as <-.
  cbn [bind]. destruct (index_spec row j) as (a & Ha & ->); [lia|].
  rewrite Hrow. simpl. rewrite Ha. reflexivity.
Qed.

Lemma setitem2_spec (m : list (list Z)) (rows cols i j v : Z) :
  matrix_shape m rows cols -> 0 <= i < rows -> 0 <= j < cols ->
  exists m',
    setitem2 m i j v = Ok m' /\ matrix_shape m' rows cols /\
    forall i' j', 0 <= i' -> 0 <= j' ->
      entry m' i' j' = if (i' =? i) && (j' =? j) then v else entry m i' j'.
Proof.
  intros Hm Hi Hj.
  destruct (matrix_shape_row m rows cols i Hm Hi) as (row & Hrow & Hlen).
  unfold setitem2.
  destruct (index_spec m i) as (row' & Hrow' & ->); [destruct Hm; lia|].
  rewrite Hrow in Hrow'. injection Hrow' as <-.
  cbn [bind]. rewrite store_spec by lia. cbn [bind].
  rewrite store_spec by (destruct Hm; lia).
  eexists. split; [reflexivity|]. split.
  - destruct Hm as [Hr Hc]. split.
    + rewrite length_insert. exact Hr.
    + apply Forall_insert; [exact Hc|]. rewrite length_insert. exact Hlen.
  - intros i' j' Hi' Hj'. unfold entry.
    destruct (Z.eqb_spec i' i) as [->|Hne].
    + rewrite list_lookup_insert_eq by (destruct Hm; lia). simpl.
      destruct (Z.eqb_spec j' j) as [->|Hnej].
      * rewrite list_lookup_insert_eq by lia. reflexivity.
      * rewrite list_lookup_insert_ne by lia. rewrite Hrow. reflexivity.
    + rewrite list_lookup_insert_ne by lia. reflexivity.
Qed.

Lemma matrix_shape_repeat (rows cols : Z) :
  0 <= rows -> 0 <= cols ->
  matrix_shape (repeat (repeat 0 (Z.to_nat cols)) (Z.to_nat rows)) rows cols /\
  forall i j, entry (repeat (repeat 0 (Z.to_nat cols)) (Z.to_nat rows)) i j = 0.
Proof.
  intros Hr Hc. split.
  - split; [rewrite repeat_length; lia|].
    apply Forall_forall. intros row Hin.
    apply list_elem_of_In, repeat_spec in Hin. subst.
    rewrite repeat_length. lia.
  - intros i j. unfold entry.
    destruct (repeat (repeat 0 (Z.to_nat cols)) (Z.to_nat rows) !! Z.to_nat i)
      as [row|] eqn:E; [|reflexivity].
    simpl. apply list_elem_of_lookup_2, list_elem_of_In, repeat_spec in E. subst.
    destruct (repeat 0 (Z.to_nat cols) !! Z.to_nat j) as [a|] eqn:E; [|reflexivity].
    apply list_elem_of_lookup_2, list_elem_of_In, repeat_spec in E. subst. reflexivity.
Qed.

(** ** [convert] *)

Lemma packed_fold_succ (pixels : list (list Z)) (i j k : Z) :
  0 <= k ->
  fold_left (fun byte bit => Z.lor byte (Z.shiftl (entry pixels i (j * 8 + bit)) bit))
    (range (k + 1)) 0 =
  Z.lor
    (fold_left (fun byte bit => Z.lor byte (Z.shiftl (entry pixels i (j * 8 + bit)) bit))
       (range k) 0)
    (Z.shiftl (entry pixels i (j * 8 + k)) k).
Proof. intros Hk. rewrite range_succ by lia. rewrite fold_left_app. reflexivity. Qed.

(** The loop over [bit] fills entry [(i, j)] and no other. *)
Lemma convert_bits_spec (pixels data : list (list Z)) (i j : Z) :
  matrix_shape pixels 8 (nbCharacters * 8) ->
  matrix_shape data 8 nbCharacters ->
  0 <= i < 8 -> 0 <= j < nbCharacters -> entry data i j = 0 ->
  exists data',
    for_ (range 8) (fun bit data =>
      do old <- getitem2 data i j;
      do p <- getitem2 pixels i (j * 8 + bit);
      setitem2 data i j (Z.lor old (Z.shiftl p bit))) data = Ok data' /\
    matrix_shape data' 8 nbCharacters /\
    forall i' j', 0 <= i' -> 0 <= j' ->
      entry data' i' j' =
        if (i' =? i) && (j' =? j) then packed pixels i j else entry data i' j'.
Proof.
  intros Hpix Hdata Hi Hj Hzero.
  apply (for_range_inv (fun k d => matrix_shape d 8 nbCharacters /\
    forall i' j', 0 <= i' -> 0 <= j' ->
      entry d i' j' =
        if (i' =? i) && (j' =? j)
        then fold_left (fun byte bit =>
               Z.lor byte (Z.shiftl (entry pixels i (j * 8 + bit)) bit)) (range k) 0
        else entry data i' j')); [lia | | ].
  - split; [exact Hdata|]. intros i' j' _ _.
    destruct (Z.eqb_spec i' i) as [->|]; [|reflexivity].
    destruct (Z.eqb_spec j' j) as [->|]; [|reflexivity].
    exact Hzero.
  - intros k d Hk [Hd Hent].
    rewrite (getitem2_spec d 8 nbCharacters) by assumption.
    cbn [bind].
    rewrite (getitem2_spec pixels 8 (nbCharacters * 8))
      by (try assumption; unfold nbCharacters in *; lia).
    cbn [bind].
    destruct (setitem2_spec d 8 nbCharacters i j
                (Z.lor (entry d i j) (Z.shiftl (entry pixels i (j * 8 + k)) k)))
      as (d' & Hset & Hd' & Hent'); try assumption.
    exists d'. split; [exact Hset|]. split; [exact Hd'|].
    intros i' j' Hi' Hj'. rewrite Hent' by assumption.
    destruct ((i' =? i) && (j' =? j)) eqn:E; [|rewrite Hent, E by assumption; reflexivity].
    rewrite packed_fold_succ by lia. rewrite Hent by lia.
    rewrite !Z.eqb_refl. reflexivity.
Qed.

(** The loop over [j] fills row [i]. *)
Lemma convert_row_spec (pixels data : list (list Z)) (i : Z) :
  matrix_shape pixels 8 (nbCharacters * 8) ->
  matrix_shape data 8 nbCharacters ->
  0 <= i < 8 -> (forall j, 0 <= j -> entry data i j = 0) ->
  exists data',
    for_ (range nbCharacters) (fun j data =>
      for_ (range 8) (fun bit data =>
        do old <- getitem2 data i j;
        do p <- getitem2 pixels i (j * 8 + bit);
        setitem2 data i j (Z.lor old (Z.shiftl p bit))) data) data = Ok data' /\
    matrix_shape data' 8 nbCharacters /\
    forall i' j', 0 <= i' -> 0 <= j' ->
      entry data' i' j' =
        if (i' =? i) && (j' <? nbCharacters) then packed pixels i j'
        else entry data i' j'.
Proof.
  intros Hpix Hdata Hi Hzero.
  apply (for_range_inv (fun k d => matrix_shape d 8 nbCharacters /\
    forall i' j', 0 <= i' -> 0 <= j' ->
      entry d i' j' =
        if (i' =? i) && (j' <? k) then packed pixels i j' else entry data i' j'));
    [unfold nbCharacters; lia | | ].
  - split; [exact Hdata|]. intros i' j' _ Hj'.
    destruct (Z.ltb_spec j' 0); [lia|]. rewrite andb_false_r. reflexivity.
  - intros k d Hk [Hd Hent].
    destruct (convert_bits_spec pixels d i k Hpix Hd Hi Hk)
      as (d' & Hrun & Hd' & Hent').
    { rewrite Hent by lia. rewrite Z.eqb_refl.
      destruct (Z.ltb_spec k k); [lia|]. apply Hzero. lia. }
    exists d'. split; [exact Hrun|]. split; [exact Hd'|].
    intros i' j' Hi' Hj'. rewrite Hent', Hent by assumption.
    destruct (Z.eqb_spec i' i) as [->|]; [|reflexivity].
    destruct (Z.eqb_spec j' k) as [->|]; simpl.
    + destruct (Z.ltb_spec k (k + 1)); [reflexivity | lia].
    + destruct (Z.ltb_spec j' k); destruct (Z.ltb_spec j' (k + 1)); try lia; reflexivity.
Qed.

(** [convert] returns on every matrix of 8 rows of [nbCharacters * 8]
    entries; entry [(i, j)] of its table is [packed pixels i j]. *)
Lemma convert_spec (pixels : list (list Z)) :
  matrix_shape pixels 8 (nbCharacters * 8) ->
  exists data,
    convert pixels = Ok data /\ matrix_shape data 8 nbCharacters /\
    forall i j, 0 <= i < 8 -> 0 <= j < nbCharacters ->
      entry data i j = packed pixels i j.
Proof.
  intros Hpix. unfold convert. cbv zeta.
  destruct (matrix_shape_repeat 8 nbCharacters) as [Hshape Hzero];
    [lia | unfold nbCharacters; lia |].
  change (Z.to_nat 8) with 8%nat in Hshape, Hzero.
  set (data0 := repeat (repeat 0 (Z.to_nat nbCharacters)) 8) in *.
  destruct (for_range_inv (fun k d => matrix_shape d 8 nbCharacters /\
    forall i' j', 0 <= i' -> 0 <= j' ->
      entry d i' j' =
        if (i' <? k) && (j' <? nbCharacters) then packed pixels i' j' else 0) 8
    (fun i data =>
       for_ (range nbCharacters) (fun j data =>
         for_ (range 8) (fun bit data =>
           do old <- getitem2 data i j;
           do p <- getitem2 pixels i (j * 8 + bit);
           setitem2 data i j (Z.lor old (Z.shiftl p bit))) data) data) data0)
    as (data & Hrun & Hd & Hent); [lia | | | ].
  - split; [exact Hshape|]. intros i' j' Hi' _.
    destruct (Z.ltb_spec i' 0); [lia|]. apply Hzero.
  - intros k d Hk [Hd Hent].
    destruct (convert_row_spec pixels d k Hpix Hd Hk) as (d' & Hrun & Hd' & Hent').
    { intros j Hj. rewrite Hent by lia. destruct (Z.ltb_spec k k); [lia|]. reflexivity. }
    exists d'. split; [exact Hrun|]. split; [exact Hd'|].
    intros i' j' Hi' Hj'. rewrite Hent', Hent by assumption.
    destruct (Z.eqb_spec i' k) as [->|]; simpl.
    + destruct (Z.ltb_spec k (k + 1)); [|lia].
      destruct (Z.ltb_spec k k); [lia|]. simpl.
      destruct (j' <? nbCharacters); reflexivity.
    + destruct (Z.ltb_spec i' k); destruct (Z.ltb_spec i' (k + 1)); try lia; reflexivity.
  - exists data. split; [exact Hrun|]. split; [exact Hd|].
    intros i j Hi Hj. rewrite Hent by lia.
    destruct (Z.ltb_spec i 8); [|lia].
    destruct (Z.ltb_spec j nbCharacters); [reflexivity | lia].
Qed.

(** ** Claims on packing *)

(** Eight bits, bit [b] from the entry of column [b]. *)
Lemma pack_bits (e0 e1 e2 e3 e4 e5 e6 e7 : Z) :
  (e0 = 0 \/ e0 = 1) -> (e1 = 0 \/ e1 = 1) -> (e2 = 0 \/ e2 = 1) ->
  (e3 = 0 \/ e3 = 1) -> (e4 = 0 \/ e4 = 1) -> (e5 = 0 \/ e5 = 1) ->
  (e6 = 0 \/ e6 = 1) -> (e7 = 0 \/ e7 = 1) ->
  let byte :=
    Z.lor (Z.lor (Z.lor (Z.lor (Z.lor (Z.lor (Z.lor (Z.lor 0
      (Z.shiftl e0 0)) (Z.shiftl e1 1)) (Z.shiftl e2 2)) (Z.shiftl e3 3))
      (Z.shiftl e4 4)) (Z.shiftl e5 5)) (Z.shiftl e6 6)) (Z.shiftl e7 7) in
  0 <= byte <= 255 /\
  Z.land (Z.shiftr byte 0) 1 = e0 /\ Z.land (Z.shiftr byte 1) 1 = e1 /\
  Z.land (Z.shiftr byte 2) 1 = e2 /\ Z.land (Z.shiftr byte 3) 1 = e3 /\
  Z.land (Z.shiftr byte 4) 1 = e4 /\ Z.land (Z.shiftr byte 5) 1 = e5 /\
  Z.land (Z.shiftr byte 6) 1 = e6 /\ Z.land (Z.shiftr byte 7) 1 = e7.
Proof.
  intros [->| ->] [->| ->] [->| ->] [->| ->] [->| ->] [->| ->] [->| ->] [->| ->];
    vm_compute; repeat split; congruence.
Qed.

Lemma packed_bits (pixels : list (list Z)) (i j : Z) :
  (forall b, 0 <= b <= 7 ->
     entry pixels i (j * 8 + b) = 0 \/ entry pixels i (j * 8 + b) = 1) ->
  0 <= packed pixels i j <= 255 /\
  forall b, 0 <= b <= 7 ->
    Z.land (Z.shiftr (packed pixels i j) b) 1 = entry pixels i (j * 8 + b).
Proof.
  intros Hbin. unfold packed. rewrite range_8. cbn [fold_left].
  destruct (pack_bits _ _ _ _ _ _ _ _
              (Hbin 0 ltac:(lia)) (Hbin 1 ltac:(lia)) (Hbin 2 ltac:(lia))
              (Hbin 3 ltac:(lia)) (Hbin 4 ltac:(lia)) (Hbin 5 ltac:(lia))
              (Hbin 6 ltac:(lia)) (Hbin 7 ltac:(lia)))
    as (Hr & H0 & H1 & H2 & H3 & H4 & H5 & H6 & H7).
  split; [exact Hr|]. intros b Hb.
  assert (Hc : b = 0 \/ b = 1 \/ b = 2 \/ b = 3 \/ b = 4 \/ b = 5 \/ b = 6 \/ b = 7)
    by lia.
  destruct Hc as [->|[->|[->|[->|[->|[->|[->| ->]]]]]]]; assumption.
Qed.

(** C7.  For every matrix of 8 rows of [8 * nbCharacters] entries, all 0
    or 1, [convert] returns a table in which [table[r][j]] is the OR over
    [bit] in 0..7 of [matrix[r][j*8 + bit] << bit], and bit [b] of
    [table[r][j]] is [matrix[r][j*8 + b]]. *)
Theorem convert_round_trip (matrix : list (list Z)) :
  matrix_shape matrix 8 (nbCharacters * 8) ->
  (forall r c, 0 <= r <= 7 -> 0 <= c < nbCharacters * 8 ->
     entry matrix r c = 0 \/ entry matrix r c = 1) ->
  exists table,
    convert matrix = Ok table /\
    forall r j, 0 <= r <= 7 -> 0 <= j < nbCharacters ->
      getitem2 table r j =
        Ok (fold_left (fun byte bit =>
              Z.lor byte (Z.shiftl (entry matrix r (j * 8 + bit)) bit)) (range 8) 0) /\
      forall b, 0 <= b <= 7 ->
        exists byte,
          getitem2 table r j = Ok byte /\
          getitem2 matrix r (j * 8 + b) = Ok (Z.land (Z.shiftr byte b) 1).
Proof.
  intros Hshape Hbin.
  destruct (convert_spec matrix Hshape) as (table & Hrun & Htab & Hent).
  exists table. split; [exact Hrun|].
  intros r j Hr Hj.
  assert (Hget : getitem2 table r j = Ok (packed matrix r j)).
  { rewrite (getitem2_spec table 8 nbCharacters) by (try assumption; lia).
    rewrite Hent by lia. reflexivity. }
  split; [exact Hget|].
  intros b Hb. exists (packed matrix r j). split; [exact Hget|].
  rewrite (getitem2_spec matrix 8 (nbCharacters * 8))
    by (try assumption; unfold nbCharacters in *; lia).
  f_equal. symmetry. apply packed_bits; [|exact Hb].
  intros b' Hb'. apply Hbin; [lia|]. unfold nbCharacters in *. lia.
Qed.

Lemma format_04x_byte (v : Z) :
  0 <= v <= 255 ->
  exists h l,
    format_04x v = String "0" (String "x" (String h (String l EmptyString))) /\
    is_hex_digit h = true /\ is_hex_digit l = true.
Proof.
  intros Hv.
  assert (H : forallb (fun v =>
            String.eqb (format_04x v)
              (String "0" (String "x" (String (hex_char (v / 16))
                 (String (hex_char (v mod 16)) EmptyString))))
            && is_hex_digit (hex_char (v / 16))
            && is_hex_digit (hex_char (v mod 16))) (range 256) = true)
    by (vm_compute; reflexivity).
  rewrite forallb_forall in H.
  specialize (H v ltac:(apply In_range; lia)).
  apply andb_true_iff in H as [H Hl]. apply andb_true_iff in H as [H Hh].
  apply String.eqb_eq in H.
  exists (hex_char (v / 16)), (hex_char (v mod 16)). auto.
Qed.

(** C10.  For every matrix of 8 rows of [8 * nbCharacters] entries, all
    0 or 1, every entry of the table [convert] returns is between 0 and
    255, and [format(entry, '#04x')] is [0x] followed by two hexadecimal
    digits. *)
Theorem convert_entries_are_bytes (matrix : list (list Z)) :
  matrix_shape matrix 8 (nbCharacters * 8) ->
  (forall r c, 0 <= r <= 7 -> 0 <= c < nbCharacters * 8 ->
     entry matrix r c = 0 \/ entry matrix r c = 1) ->
  exists table,
    convert matrix = Ok table /\
    forall r j, 0 <= r <= 7 -> 0 <= j < nbCharacters ->
      exists byte,
        getitem2 table r j = Ok byte /\ 0 <= byte <= 255 /\
        exists h l,
          format_04x byte = String "0" (String "x" (String h (String l EmptyString))) /\
          is_hex_digit h = true /\ is_hex_digit l = true.
Proof.
  intros Hshape Hbin.
  destruct (convert_spec matrix Hshape) as (table & Hrun & Htab & Hent).
  exists table. split; [exact Hrun|].
  intros r j Hr Hj. exists (packed matrix r j).
  assert (Hrange : 0 <= packed matrix r j <= 255).
  { apply packed_bits. intros b Hb. apply Hbin; [lia|].
    unfold nbCharacters in *. lia. }
  split.
  - rewrite (getitem2_spec table 8 nbCharacters) by (try assumption; lia).
    rewrite Hent by lia. reflexivity.
  - split; [exact Hrange|]. apply format_04x_byte. exact Hrange.
Qed.

Lemma matrix_shape_check (m : list (list Z)) (rows cols : Z) :
  (Z.of_nat (List.length m) =? rows) &&
  forallb (fun row => Z.of_nat (List.length row) =? cols) m = true ->
  matrix_shape m rows cols.
Proof.
  intros H. apply andb_true_iff in H as [Hr Hc]. split; [apply Z.eqb_eq, Hr|].
  rewrite forallb_forall in Hc. apply Forall_forall.
  intros row Hin. apply Z.eqb_eq, Hc, list_elem_of_In, Hin.
Qed.

Lemma binary_entries_check (m : list (list Z)) :
  forallb (forallb (fun e => (e =? 0) || (e =? 1))) m = true ->
  forall r c, entry m r c = 0 \/ entry m r c = 1.
Proof.
  intros H r c. unfold entry. rewrite forallb_forall in H.
  destruct (m !! Z.to_nat r) as [row|] eqn:Er; [|left; reflexivity]. simpl.
  destruct (row !! Z.to_nat c) as [e|] eqn:Ec; [|left; reflexivity]. simpl.
  apply list_elem_of_lookup_2, list_elem_of_In, H in Er.
  rewrite forallb_forall in Er.
  apply list_elem_of_lookup_2, list_elem_of_In, Er in Ec.
  apply orb_true_iff in Ec as [Ec|Ec]; apply Z.eqb_eq in Ec; auto.
Qed.

Lemma sample_matrix_shape : matrix_shape sample_matrix 8 (nbCharacters * 8).
Proof. apply matrix_shape_check. vm_compute. reflexivity. Qed.

Lemma sample_matrix_binary (r c : Z) :
  0 <= r <= 7 -> 0 <= c < nbCharacters * 8 ->
  entry sample_matrix r c = 0 \/ entry sample_matrix r c = 1.
Proof. intros _ _. apply binary_entries_check. vm_compute. reflexivity. Qed.

Lemma convert_round_trip_witness :
  matrix_shape sample_matrix 8 (nbCharacters * 8) /\
  (forall r c, 0 <= r <= 7 -> 0 <= c < nbCharacters * 8 ->
     entry sample_matrix r c = 0 \/ entry sample_matrix r c = 1) /\
  exists table,
    convert sample_matrix = Ok table /\
    forall r j, 0 <= r <= 7 -> 0 <= j < nbCharacters ->
      getitem2 table r j =
        Ok (fold_left (fun byte bit =>
              Z.lor byte (Z.shiftl (entry sample_matrix r (j * 8 + bit)) bit))
              (range 8) 0) /\
      forall b, 0 <= b <= 7 ->
        exists byte,
          getitem2 table r j = Ok byte /\
          getitem2 sample_matrix r (j * 8 + b) = Ok (Z.land (Z.shiftr byte b) 1).
Proof.
  split; [exact sample_matrix_shape|]. split; [exact sample_matrix_binary|].
  exact (convert_round_trip sample_matrix sample_matrix_shape sample_matrix_binary).
Defined.

Lemma convert_entries_are_bytes_witness :
  matrix_shape sample_matrix 8 (nbCharacters * 8) /\
  (forall r c, 0 <= r <= 7 -> 0 <= c < nbCharacters * 8 ->
     entry sample_matrix r c = 0 \/ entry sample_matrix r c = 1) /\
  exists table,
    convert sample_matrix = Ok table /\
    forall r j, 0 <= r <= 7 -> 0 <= j < nbCharacters ->
      exists byte,
        getitem2 table r j = Ok byte /\ 0 <= byte <= 255 /\
        exists h l,
          format_04x byte = String "0" (String "x" (String h (String l EmptyString))) /\
          is_hex_digit h = true /\ is_hex_digit l = true.
Proof.
  split; [exact sample_matrix_shape|]. split; [exact sample_matrix_binary|].
  exact (convert_entries_are_bytes sample_matrix sample_matrix_shape sample_matrix_binary).
Defined.

(** ** The name of the array *)

(** The class ['[ -:,\?]'] matches every character from space to colon,
    the ten digits among them. *)
Lemma filename_pattern_matches (c : ascii) :
  existsb (item_matches c) filename_pattern = true <->
  (32 <= nat_of_ascii c <= 58)%nat \/ c = "?"%char.
Proof.
  unfold filename_pattern. cbn [existsb item_matches].
  change (nat_of_ascii " ") with 32%nat. change (nat_of_ascii ":") with 58%nat.
  rewrite orb_false_r, !orb_true_iff, andb_true_iff, !Nat.leb_le, !Ascii.eqb_eq.
  split.
  - intros [H|[->|H]]; [left; lia | left; vm_compute; lia | right; exact H].
  - intros [H|H]; [left; lia | right; right; exact H].
Qed.

(** C2, on the code.  For ["My Font-1.ttf"] the three statements of
    [output] give [MyFont]: the hyphen between the space and the colon of
    the pattern makes a range that takes the digit 1 away too.  Stripping
    the five characters one by one gives [MyFont1]. *)
Lemma array_name_My_Font_1 :
  basename "My Font-1.ttf" = "My Font-1.ttf"%string /\
  splitext "My Font-1.ttf" = ("My Font-1"%string, ".ttf"%string) /\
  array_name "My Font-1.ttf" = "MyFont"%string /\
  stripped_name "My Font-1.ttf" = "MyFont1"%string.
Proof. repeat split; reflexivity. Qed.

(** * Further properties *)

(** * More of the program *)

(** ** [checkArgs]: the two errors it reports *)

(** X1.  Called with any number of arguments other than one, the program
    prints the error on the standard error and the two usage lines on the
    standard output, loads no font, saves nothing and ends by
    [exit(-1)]. *)
Theorem wrong_argument_count (truetype : string -> Z -> option Font)
    (prog : string) (rest : list string) (w : World) :
  List.length rest <> 1%nat ->
  main truetype (prog :: rest) w =
    (Raise (SystemExit (-1)),
     mkWorld (stdout w ++ ["Usage:"; ("python " ++ prog ++ " <fontfile>")]%string)
       (stderr w ++ ["Error: invalid number of arguments"%string]) (saved w)).
Proof.
  intros Hlen. unfold main, checkArgs.
  destruct (Z.eqb_spec (Z.of_nat (List.length (prog :: rest))) 2) as [Heq|_].
  { simpl in Heq. lia. }
  apply bindM_Raise.
  unfold bindM, print_stderr, print, lift, exit. cbn [stdout stderr saved].
  change (index (prog :: rest) 0) with (Ok prog).
  cbv iota beta. rewrite <- app_assoc. reflexivity.
Qed.

Lemma wrong_argument_count_witness :
  List.length (@nil string) <> 1%nat /\
  main sample_truetype ["font2oled.py"%string] world0 =
    (Raise (SystemExit (-1)),
     mkWorld ["Usage:"; "python font2oled.py <fontfile>"]%string
       ["Error: invalid number of arguments"%string] []).
Proof.
  split; [discriminate|].
  exact (wrong_argument_count sample_truetype "font2oled.py" [] world0
           ltac:(discriminate)).
Defined.

(** X2.  When the font cannot be loaded at size 8, the program prints
    [Error: unable to load Font] and the path on the standard error,
    nothing on the standard output, and ends by [exit(-1)] without
    searching a size. *)
Theorem font_load_failure (truetype : string -> Z -> option Font)
    (prog fontfile : string) (w : World) :
  truetype fontfile 8 = None ->
  main truetype [prog; fontfile] w =
    (Raise (SystemExit (-1)),
     mkWorld (stdout w)
       (stderr w ++ [("Error: unable to load Font " ++ fontfile)%string])
       (saved w)).
Proof.
  intros Hload. unfold main, checkArgs.
  change (Z.of_nat (List.length [prog; fontfile]) =? 2) with true. cbv iota.
  change (index [prog; fontfile] 1) with (Ok fontfile).
  apply bindM_Raise.
  rewrite (bindM_Ok _ _ w fontfile w) by reflexivity.
  rewrite Hload. apply bindM_Raise. reflexivity.
Qed.

Lemma font_load_failure_witness :
  missing_truetype "missing.ttf"%string 8 = None /\
  main missing_truetype ["font2oled.py"; "missing.ttf"]%string world0 =
    (Raise (SystemExit (-1)),
     mkWorld [] ["Error: unable to load Font missing.ttf"%string] []).
Proof.
  split; [reflexivity|].
  exact (font_load_failure missing_truetype "font2oled.py" "missing.ttf" world0
           eq_refl).
Defined.

(** ** [findSize]: what the search returns *)

Section SearchOutcome.

Variable truetype : string -> Z -> option Font.
Variable fontname : string.

(** The loop stops at the first size, counting down from the one below
    its entry size, whose pass leaves [oversized] unset. *)
Lemma findSize_while_first_fit (n : nat) :
  forall fontSize w size im w',
    (Z.to_nat (fontSize - minFontSize + 1) <= n)%nat ->
    findSize_while truetype fontname fontSize w = (Ok (size, im), w') ->
    (exists font, truetype fontname size = Some font /\ fits font = Ok true) /\
    forall s, size < s <= fontSize - 1 ->
      exists font, truetype fontname s = Some font /\ fits font = Ok false.
Proof.
  induction n as [|n IH]; intros fontSize w size im w' Hn Hrun;
    rewrite findSize_while_step in Hrun;
    destruct (Z_lt_dec fontSize minFontSize) as [Hlt|Hge];
    try discriminate Hrun; try lia.
  destruct (truetype fontname (fontSize - 1)) as [font|] eqn:Hfont;
    [|discriminate Hrun].
  unfold bindM, lift in Hrun.
  destruct (draw_chars font (Image_new (10, 8 * nbCharacters)) false)
    as [[im1 o1]|e] eqn:Hpass; [|discriminate].
  cbn [fst snd] in Hrun. destruct o1.
  - assert (Hn' : (Z.to_nat (fontSize - 1 - minFontSize + 1) <= n)%nat) by lia.
    pose proof (findSize_while_Ok truetype fontname n _ _ _ _ _ Hn' Hrun)
      as (Hsize & _ & _).
    apply IH in Hrun; [|lia]. destruct Hrun as [Hfit Hover].
    split; [exact Hfit|]. intros s Hs.
    destruct (Z.eq_dec s (fontSize - 1)) as [->|Hne].
    + exists font. split; [exact Hfont|]. unfold fits. rewrite Hpass. reflexivity.
    + apply Hover. lia.
  - unfold ret in Hrun. injection Hrun as <- <- <-. split.
    + exists font. split; [exact Hfont|]. unfold fits. rewrite Hpass. reflexivity.
    + intros s Hs. lia.
Qed.

(** When PIL loads the font at every size the loop tries, the loop
    returns an image of 10 by [8 * nbCharacters] pixels, all 0 or 255, and
    prints nothing, or it prints the error and raises [SystemExit(-1)]:
    no pixel is read or written outside the image. *)
Lemma findSize_while_outcomes (n : nat) :
  forall fontSize w,
    (Z.to_nat (fontSize - minFontSize + 1) <= n)%nat ->
    (forall s, minFontSize - 1 <= s <= fontSize - 1 -> truetype fontname s <> None) ->
    (exists size im,
       findSize_while truetype fontname fontSize w = (Ok (size, im), w) /\
       xsize im = 10 /\ ysize im = 8 * nbCharacters /\ monochrome im) \/
    findSize_while truetype fontname fontSize w =
      (Raise (SystemExit (-1)),
       mkWorld (stdout w) (stderr w ++ [search_error]) (saved w)).
Proof.
  induction n as [|n IH]; intros fontSize w Hn Hload;
    rewrite findSize_while_step;
    destruct (Z_lt_dec fontSize minFontSize) as [Hlt|Hge];
    try (right; reflexivity); try lia.
  destruct (truetype fontname (fontSize - 1)) as [font|] eqn:Hfont;
    [|exfalso; apply (Hload (fontSize - 1)); [lia | exact Hfont]].
  destruct (new_image_spec (10, 8 * nbCharacters)) as (Hx & Hy & Hm).
  destruct (draw_chars_spec font (Image_new (10, 8 * nbCharacters)) false)
    as (im & o & Hpass & [Hsx Hsy] & Hmono & _);
    [rewrite Hx; cbn [fst]; lia | rewrite Hy; cbn [snd]; lia | exact Hm |].
  unfold bindM, lift. rewrite Hpass. cbn [fst snd]. destruct o.
  - apply IH; [lia|]. intros s Hs. apply Hload. lia.
  - left. exists (fontSize - 1), im. split; [reflexivity|].
    rewrite Hsx, Hsy, Hx, Hy. auto.
Qed.

(** A size at which PIL cannot load the font, reached after oversized
    passes only, ends the loop by the exception of [ImageFont.truetype]:
    nothing catches it and nothing is printed. *)
Lemma findSize_while_load_error (n : nat) :
  forall fontSize w s,
    (Z.to_nat (fontSize - minFontSize + 1) <= n)%nat ->
    minFontSize - 1 <= s <= fontSize - 1 ->
    truetype fontname s = None ->
    (forall s', s < s' <= fontSize - 1 ->
       exists font, truetype fontname s' = Some font /\ fits font = Ok false) ->
    findSize_while truetype fontname fontSize w = (Raise IOError, w).
Proof.
  induction n as [|n IH]; intros fontSize w s Hn Hs Hnone Hover;
    rewrite findSize_while_step;
    destruct (Z_lt_dec fontSize minFontSize) as [Hlt|Hge]; try lia.
  destruct (Z.eq_dec s (fontSize - 1)) as [->|Hne].
  - rewrite Hnone. reflexivity.
  - destruct (Hover (fontSize - 1)) as (font & Hfont & Hfit); [lia|].
    rewrite Hfont. unfold fits in Hfit. unfold bindM, lift.
    destruct (draw_chars font (Image_new (10, 8 * nbCharacters)) false)
      as [[im1 o1]|e]; [|discriminate].
    cbn [bind fst snd] in *. destruct o1; [|discriminate].
    apply (IH _ _ s); [lia | lia | exact Hnone |].
    intros s' Hs'. apply Hover. lia.
Qed.

End SearchOutcome.

(** X3.  The image [findSize] returns is the one drawn at the largest
    size below [maxFontSize] whose pass leaves [oversized] unset: every
    larger size the loop tried was oversized. *)
Theorem findSize_returns_largest_fit (truetype : string -> Z -> option Font)
    (fontname : string) (w w' : World) (im : Image) :
  findSize truetype fontname w = (Ok im, w') ->
  exists size font,
    minFontSize - 1 <= size <= maxFontSize - 1 /\
    truetype fontname size = Some font /\
    draw_chars font (Image_new (10, 8 * nbCharacters)) false = Ok (im, false) /\
    forall s, size < s <= maxFontSize - 1 ->
      exists font', truetype fontname s = Some font' /\ fits font' = Ok false.
Proof.
  intros Hrun. unfold findSize, bindM in Hrun.
  destruct (findSize_while truetype fontname maxFontSize w) as [[[size im1]|e] w1] eqn:E;
    [|discriminate].
  unfold ret in Hrun. cbn [snd] in Hrun. injection Hrun as <- <-.
  pose proof (findSize_while_Ok truetype fontname _ _ _ _ _ _ (Nat.le_refl _) E)
    as (Hsize & _ & font & Hfont & Hpass).
  pose proof (findSize_while_first_fit truetype fontname _ _ _ _ _ _ (Nat.le_refl _) E)
    as (_ & Hover).
  exists size, font. auto.
Qed.

Lemma findSize_returns_largest_fit_witness :
  findSize sample_truetype "sample.ttf" world0 = (Ok sample_fitted, world0) /\
  exists size font,
    minFontSize - 1 <= size <= maxFontSize - 1 /\
    sample_truetype "sample.ttf" size = Some font /\
    draw_chars font (Image_new (10, 8 * nbCharacters)) false
      = Ok (sample_fitted, false) /\
    forall s, size < s <= maxFontSize - 1 ->
      exists font', sample_truetype "sample.ttf" s = Some font' /\
                    fits font' = Ok false.
Proof.
  split; [exact findSize_sample_fitted|].
  exact (findSize_returns_largest_fit sample_truetype "sample.ttf" world0 world0
           sample_fitted findSize_sample_fitted).
Defined.

(** X4.  When PIL loads the font at every size from [minFontSize - 1] to
    [maxFontSize - 1], [findSize] has two outcomes only: it returns an
    image of 10 by [8 * nbCharacters] pixels, each 0 or 255, having printed
    nothing; or it prints the error and raises [SystemExit(-1)].  No
    [getpixel] or [putpixel] of the search falls outside the image. *)
Theorem findSize_outcomes (truetype : string -> Z -> option Font)
    (fontname : string) (w : World) :
  (forall s, minFontSize - 1 <= s <= maxFontSize - 1 ->
     truetype fontname s <> None) ->
  (exists im,
     findSize truetype fontname w = (Ok im, w) /\
     xsize im = 10 /\ ysize im = 8 * nbCharacters /\
     forall x y, 0 <= x < 10 -> 0 <= y < 8 * nbCharacters ->
       getpixel im (x, y) = Ok 0 \/ getpixel im (x, y) = Ok 255) \/
  findSize truetype fontname w =
    (Raise (SystemExit (-1)),
     mkWorld (stdout w) (stderr w ++ [search_error]) (saved w)).
Proof.
  intros Hload. unfold findSize.
  destruct (findSize_while_outcomes truetype fontname _ maxFontSize w (Nat.le_refl _) Hload)
    as [(size & im & Hrun & Hx & Hy & Hm)|Hexit].
  - left. exists im. split; [rewrite (bindM_Ok _ _ _ _ _ Hrun); reflexivity|].
    split; [exact Hx|]. split; [exact Hy|].
    intros x y Hxr Hyr.
    rewrite getpixel_inside by (apply inside_true; rewrite Hx, Hy; lia).
    destruct (Hm x y) as [->| ->]; auto.
  - right. apply bindM_Raise. exact Hexit.
Qed.

Lemma findSize_outcomes_witness :
  (forall s, minFontSize - 1 <= s <= maxFontSize - 1 ->
     oversized_truetype "wide.ttf" s <> None) /\
  ((exists im,
      findSize oversized_truetype "wide.ttf" world0 = (Ok im, world0) /\
      xsize im = 10 /\ ysize im = 8 * nbCharacters /\
      forall x y, 0 <= x < 10 -> 0 <= y < 8 * nbCharacters ->
        getpixel im (x, y) = Ok 0 \/ getpixel im (x, y) = Ok 255) \/
   findSize oversized_truetype "wide.ttf" world0 =
     (Raise (SystemExit (-1)),
      mkWorld (stdout world0) (stderr world0 ++ [search_error]) (saved world0))).
Proof.
  assert (H : forall s, minFontSize - 1 <= s <= maxFontSize - 1 ->
                oversized_truetype "wide.ttf" s <> None)
    by (intros s _; discriminate).
  split; [exact H|].
  exact (findSize_outcomes oversized_truetype "wide.ttf" world0 H).
Defined.

(** X5.  [checkArgs] tries the font at size 8 only.  When PIL then fails
    to load it at a size the search reaches (every larger size having
    been oversized), the exception of [ImageFont.truetype] leaves the
    program uncaught: no message is printed, no table, no image. *)
Theorem load_error_in_search (truetype : string -> Z -> option Font)
    (prog fontfile : string) (w : World) (s : Z) :
  truetype fontfile 8 <> None ->
  minFontSize - 1 <= s <= maxFontSize - 1 ->
  truetype fontfile s = None ->
  (forall s', s < s' <= maxFontSize - 1 ->
     exists font, truetype fontfile s' = Some font /\ fits font = Ok false) ->
  main truetype [prog; fontfile] w = (Raise IOError, w).
Proof.
  intros H8 Hs Hnone Hover. unfold main, checkArgs, findSize.
  change (Z.of_nat (List.length [prog; fontfile]) =? 2) with true. cbv iota.
  change (index [prog; fontfile] 1) with (Ok fontfile).
  apply bindM_Raise.
  rewrite (bindM_Ok _ _ w fontfile w) by reflexivity.
  destruct (truetype fontfile 8) as [font8|]; [|contradiction].
  rewrite (bindM_Ok _ _ w tt w) by reflexivity.
  do 2 apply bindM_Raise.
  apply (findSize_while_load_error truetype fontfile _ _ _ s (Nat.le_refl _));
    assumption.
Qed.

Lemma load_error_in_search_witness :
  partial_truetype "partial.ttf" 8 <> None /\
  minFontSize - 1 <= 10 <= maxFontSize - 1 /\
  partial_truetype "partial.ttf" 10 = None /\
  (forall s', 10 < s' <= maxFontSize - 1 ->
     exists font, partial_truetype "partial.ttf" s' = Some font /\
                  fits font = Ok false) /\
  main partial_truetype ["font2oled.py"; "partial.ttf"]%string world0
    = (Raise IOError, world0).
Proof.
  assert (H8 : partial_truetype "partial.ttf" 8 <> None) by discriminate.
  assert (Hs : minFontSize - 1 <= 10 <= maxFontSize - 1)
    by (unfold minFontSize, maxFontSize; lia).
  assert (Hover : forall s', 10 < s' <= maxFontSize - 1 ->
     exists font, partial_truetype "partial.ttf" s' = Some font /\
                  fits font = Ok false).
  { intros s' Hs'. unfold partial_truetype.
    destruct (Z.eqb_spec s' 10); [lia|].
    eexists. split; [reflexivity|].
    apply (inked_probe_column_not_fits _ 65 0); [lia | lia |].
    unfold bar. apply in_map_iff. exists 8. split; [reflexivity|].
    apply In_range. lia. }
  split; [exact H8|]. split; [exact Hs|]. split; [reflexivity|].
  split; [exact Hover|].
  exact (load_error_in_search partial_truetype "font2oled.py" "partial.ttf"
           world0 10 H8 Hs eq_refl Hover).
Defined.

(** ** [findSize]: what a pass draws *)

(** A pass over the fresh image returns whatever the font. *)
Lemma draw_chars_returns (font : Font) :
  exists im o, draw_chars font (Image_new (10, 8 * nbCharacters)) false = Ok (im, o).
Proof.
  destruct (draw_chars_fresh font) as (im & o & Hpass & _). eauto.
Qed.

(** One iteration of the pass, on an image of the size [findSize]
    allocates: the cell is cleared, the glyph is drawn, and the flag is
    the old one or the outcome of the check. *)
Lemma draw_chars_step (font : Font) (k : Z) (im1 : Image) (o1 : bool) :
  0 <= k < nbCharacters -> xsize im1 = 10 -> ysize im1 = 8 * nbCharacters ->
  exists ima o2,
    (do im <- for_ (range 8) (fun j im =>
                for_ (range 8) (fun pixel im =>
                  putpixel im (j, k * 8 + pixel) 0) im) im1;
     let im := draw_text im (0, k * 8) (font k) in
     do oversized <-
       (if (0 <=? k) && (k <=? 128)
        then check_oversized im k o1
        else Ok o1);
     Ok (im, oversized)) = Ok (draw_text ima (0, k * 8) (font k), o2) /\
    same_size im1 ima /\
    (forall x y, pixel ima x y = if in_cell k x y then 0 else pixel im1 x y) /\
    (o2 = o1 \/
     o2 = o1 || existsb (fun p =>
            pixel (draw_text ima (0, k * 8) (font k)) 8 (k * 8 + p) =? 255) (range 8)).
Proof.
  intros Hk Hx Hy. unfold nbCharacters in *.
  destruct (clear_cell_spec im1 k) as (ima & Hca & Hsza & Hpxa); [lia | lia | lia |].
  rewrite Hca. cbn [bind].
  set (imb := draw_text ima (0, k * 8) (font k)).
  destruct (draw_text_spec (font k) ima (0, k * 8)) as [[Hbx Hby] _].
  fold imb in Hbx, Hby. destruct Hsza as [Hax Hay].
  destruct ((0 <=? k) && (k <=? 128)).
  - rewrite check_oversized_spec by lia. cbn [bind].
    eexists ima, _. split; [reflexivity|]. split; [split; assumption|]. auto.
  - cbn [bind]. exists ima, o1. split; [reflexivity|].
    split; [split; assumption|]. auto.
Qed.

(** The clearing loop does its work: when no glyph has ink above its
    anchor, the cell of every character holds after the pass the ink of
    its own glyph and nothing of the glyphs drawn before it. *)
Lemma draw_chars_cells (font : Font) :
  below_anchor font ->
  exists im o,
    draw_chars font (Image_new (10, 8 * nbCharacters)) false = Ok (im, o) /\
    xsize im = 10 /\ ysize im = 8 * nbCharacters /\
    forall i x y, 0 <= i < nbCharacters -> 0 <= x <= 7 ->
      i * 8 <= y <= i * 8 + 7 ->
      (pixel im x y = 255 <-> In (x, y - i * 8) (font i)).
Proof.
  intros Hba. unfold draw_chars.
  match goal with
  | |- context [for_ _ ?b _] => set (body := b)
  end.
  destruct (for_range_inv (fun k (st : Image * bool) =>
    xsize (fst st) = 10 /\ ysize (fst st) = 8 * nbCharacters /\
    forall i x y, 0 <= i < k -> 0 <= x <= 7 -> i * 8 <= y <= i * 8 + 7 ->
      (pixel (fst st) x y = 255 <-> In (x, y - i * 8) (font i)))
    nbCharacters body (Image_new (10, 8 * nbCharacters), false))
    as ([im o] & Hrun & Hx & Hy & Hcells).
  - unfold nbCharacters; lia.
  - cbn [fst]. split; [reflexivity|]. split; [reflexivity|]. intros; lia.
  - intros k [im1 o1] Hk (Hx & Hy & Hcells). cbn [fst snd] in *.
    destruct (draw_chars_step font k im1 o1 Hk Hx Hy)
      as (ima & o2 & Hstep & [Hax Hay] & Hpxa & _).
    exists (draw_text ima (0, k * 8) (font k), o2).
    split; [exact Hstep|]. cbn [fst].
    destruct (draw_text_spec (font k) ima (0, k * 8)) as [[Hbx Hby] Hpxb].
    split; [congruence|]. split; [congruence|].
    intros i x y Hi Hxr Hyr.
    destruct (Hpxb x y) as [Hcases Hkeep]. cbn [fst snd] in Hcases.
    destruct (Z.eq_dec i k) as [->|Hne].
    + assert (Hin : in_cell k x y = true) by (apply in_cell_true; lia).
      split.
      * intros H255.
        destruct Hcases as [Heq|(_ & d & Hd & Hdx & Hdy)].
        -- rewrite Heq, Hpxa, Hin in H255. discriminate.
        -- destruct d as [dx dy]. cbn [fst snd] in *.
           replace x with dx by lia. replace (y - k * 8) with dy by lia. exact Hd.
      * intros Hd.
        pose proof (draw_text_inks (font k) ima (0, k * 8) (x, y - k * 8) Hd) as H.
        cbn [fst snd] in H.
        replace (0 + x) with x in H by lia.
        replace (k * 8 + (y - k * 8)) with y in H by lia.
        apply H. apply inside_true. unfold nbCharacters in *. lia.
    + assert (Hout : in_cell k x y = false).
      { destruct (in_cell k x y) eqn:E; [|reflexivity].
        apply in_cell_true in E. lia. }
      rewrite <- (Hcells i x y) by lia. split.
      * intros H255.
        destruct Hcases as [Heq|(_ & d & Hd & _ & Hdy)].
        -- rewrite Heq, Hpxa, Hout in H255. exact H255.
        -- apply Hba in Hd. lia.
      * intros H255. apply Hkeep. rewrite Hpxa, Hout. exact H255.
  - cbn [fst snd] in *. exists im, o. auto.
Qed.

(** A font without ink at the offset 8 of any row leaves column 8 blank
    and the flag unset. *)
Lemma no_ink_at_8_fits (font : Font) :
  (forall i d, In d (font i) -> fst d <> 8) -> fits font = Ok true.
Proof.
  intros Hno. unfold fits, draw_chars.
  match goal with
  | |- context [for_ _ ?b _] => set (body := b)
  end.
  destruct (for_range_inv (fun k (st : Image * bool) =>
    xsize (fst st) = 10 /\ ysize (fst st) = 8 * nbCharacters /\
    snd st = false /\ forall y, pixel (fst st) 8 y = 0)
    nbCharacters body (Image_new (10, 8 * nbCharacters), false))
    as ([im o] & Hrun & _ & _ & Ho & _).
  - unfold nbCharacters; lia.
  - cbn [fst snd]. split; [reflexivity|]. split; [reflexivity|].
    split; [reflexivity|]. intros y.
    unfold pixel, Image_new. cbn [px]. rewrite lookup_empty. reflexivity.
  - intros k [im1 o1] Hk (Hx & Hy & Ho & Hcol). cbn [fst snd] in *. subst o1.
    destruct (draw_chars_step font k im1 false Hk Hx Hy)
      as (ima & o2 & Hstep & [Hax Hay] & Hpxa & Ho2).
    exists (draw_text ima (0, k * 8) (font k), o2).
    split; [exact Hstep|]. cbn [fst snd].
    destruct (draw_text_spec (font k) ima (0, k * 8)) as [[Hbx Hby] Hpxb].
    assert (Hcolb : forall y, pixel (draw_text ima (0, k * 8) (font k)) 8 y = 0).
    { intros y. destruct (proj1 (Hpxb 8 y)) as [->|(_ & d & Hd & Hdx & _)].
      - rewrite Hpxa. unfold in_cell. cbn. apply Hcol.
      - apply Hno in Hd. cbn [fst] in Hdx. lia. }
    split; [congruence|]. split; [congruence|]. split; [|exact Hcolb].
    destruct Ho2 as [->| ->]; [reflexivity|]. cbn [orb].
    destruct (existsb _ _) eqn:E; [|reflexivity].
    apply existsb_exists in E as (p & _ & Hp). rewrite Hcolb in Hp. discriminate.
  - cbn [snd] in Ho. rewrite Hrun. cbn [bind snd]. rewrite Ho. reflexivity.
Qed.

(** X6.  Only column 8 is probed.  A font whose glyphs at size
    [maxFontSize - 1] have no ink at the offset 8 of any row is accepted
    at that size, the first one tried, whatever ink they have at the
    offsets 9 and beyond. *)
Theorem no_ink_at_8_accepted (truetype : string -> Z -> option Font)
    (fontname : string) (w : World) (font : Font) :
  truetype fontname (maxFontSize - 1) = Some font ->
  (forall i d, In d (font i) -> fst d <> 8) ->
  exists im,
    findSize truetype fontname w = (Ok im, w) /\
    draw_chars font (Image_new (10, 8 * nbCharacters)) false = Ok (im, false).
Proof.
  intros Hfont Hno. apply no_ink_at_8_fits in Hno. unfold fits in Hno.
  destruct (draw_chars font (Image_new (10, 8 * nbCharacters)) false)
    as [[im o]|e] eqn:Hpass; [|discriminate].
  cbn [bind snd] in Hno. destruct o; [discriminate|].
  exists im. split; [|reflexivity].
  unfold findSize. rewrite findSize_while_step.
  destruct (Z_lt_dec maxFontSize minFontSize) as [Hlt|_];
    [unfold maxFontSize, minFontSize in Hlt; lia|].
  rewrite Hfont. unfold bindM, lift. rewrite Hpass. reflexivity.
Qed.

Lemma no_ink_at_8_accepted_witness :
  far_ink_truetype "far.ttf" (maxFontSize - 1)
    = Some (fun _ => [(0, 0); (9, 0)]) /\
  (forall (i : Z) d, In d [(0, 0); (9, 0)] -> fst d <> 8) /\
  exists im,
    findSize far_ink_truetype "far.ttf" world0 = (Ok im, world0) /\
    draw_chars (fun _ => [(0, 0); (9, 0)]) (Image_new (10, 8 * nbCharacters)) false
      = Ok (im, false).
Proof.
  assert (Hno : forall (i : Z) d, In d [(0, 0); (9, 0)] -> fst d <> 8).
  { intros i d [<-|[<-|[]]]; discriminate. }
  split; [reflexivity|]. split; [exact Hno|].
  exact (no_ink_at_8_accepted far_ink_truetype "far.ttf" world0
           (fun _ => [(0, 0); (9, 0)]) eq_refl Hno).
Defined.

(** X7.  Each character is cleared before it is drawn, so what a glyph
    inks below its own eight rows does not stay in the next cell: when no
    glyph of the font has ink above its anchor, a pixel of columns 0..7
    of the image [findSize] returns is 255 exactly when the glyph of its
    own character inks it. *)
Theorem findSize_cells_hold_own_glyph (truetype : string -> Z -> option Font)
    (fontname : string) (w w' : World) (im : Image) :
  (forall size font, truetype fontname size = Some font -> below_anchor font) ->
  findSize truetype fontname w = (Ok im, w') ->
  exists size font,
    truetype fontname size = Some font /\
    forall i x y, 0 <= i < nbCharacters -> 0 <= x <= 7 ->
      i * 8 <= y <= i * 8 + 7 ->
      (getpixel im (x, y) = Ok 255 <-> In (x, y - i * 8) (font i)).
Proof.
  intros Hba Hrun. unfold findSize, bindM in Hrun.
  destruct (findSize_while truetype fontname maxFontSize w) as [[[size im1]|e] w1] eqn:E;
    [|discriminate].
  unfold ret in Hrun. cbn [snd] in Hrun. injection Hrun as <- <-.
  pose proof (findSize_while_Ok truetype fontname _ _ _ _ _ _ (Nat.le_refl _) E)
    as (_ & _ & font & Hfont & Hpass).
  destruct (draw_chars_cells font (Hba _ _ Hfont))
    as (im2 & o & Hpass2 & Hx & Hy & Hcells).
  rewrite Hpass in Hpass2. injection Hpass2 as <- <-.
  exists size, font. split; [exact Hfont|].
  intros i x y Hi Hxr Hyr.
  rewrite getpixel_inside
    by (apply inside_true; rewrite Hx, Hy; unfold nbCharacters in *; lia).
  rewrite <- (Hcells i x y Hi Hxr Hyr). split; [intros [= ->] | intros ->]; reflexivity.
Qed.

Lemma findSize_cells_hold_own_glyph_witness :
  (forall size font, sample_truetype "sample.ttf" size = Some font ->
     below_anchor font) /\
  findSize sample_truetype "sample.ttf" world0 = (Ok sample_fitted, world0) /\
  exists size font,
    sample_truetype "sample.ttf" size = Some font /\
    forall i x y, 0 <= i < nbCharacters -> 0 <= x <= 7 ->
      i * 8 <= y <= i * 8 + 7 ->
      (getpixel sample_fitted (x, y) = Ok 255 <-> In (x, y - i * 8) (font i)).
Proof.
  split; [apply sample_truetype_below_anchor|].
  split; [exact findSize_sample_fitted|].
  exact (findSize_cells_hold_own_glyph sample_truetype "sample.ttf" world0 world0
           sample_fitted (sample_truetype_below_anchor "sample.ttf")
           findSize_sample_fitted).
Defined.

(** ** [shiftRight]: what a shift leaves *)

(** X8.  On an image that holds the eight columns and eight rows of
    character [i], [shiftRight] by a stride that is not negative returns
    and keeps the size; column [x] of the cell then holds what column
    [x - stride] held, and zeros when [x < stride].  What the last
    [stride] columns held is gone. *)
Theorem shiftRight_moves_columns (im : Image) (i stride : Z) :
  8 <= xsize im -> 0 <= i -> i * 8 + 8 <= ysize im -> 0 <= stride ->
  exists im',
    shiftRight im i stride = Ok im' /\
    xsize im' = xsize im /\ ysize im' = ysize im /\
    forall x y, 0 <= x <= 7 -> i * 8 <= y <= i * 8 + 7 ->
      getpixel im' (x, y) =
        if stride <=? x then getpixel im (x - stride, y) else Ok 0.
Proof.
  intros Hx Hi Hy Hs.
  destruct (shiftRight_spec im i stride) as (im' & Hrun & [Hsx Hsy] & Hpx);
    [lia | lia | lia | lia |].
  exists im'. split; [exact Hrun|]. split; [exact Hsx|]. split; [exact Hsy|].
  intros x y Hxr Hyr.
  rewrite getpixel_inside by (apply inside_true; lia).
  rewrite Hpx. unfold shifted.
  assert (Hin : in_cell i x y = true) by (apply in_cell_true; lia).
  rewrite Hin.
  destruct (Z.leb_spec 0 (x - stride)); destruct (Z.leb_spec stride x); try lia.
  - rewrite getpixel_inside by (apply inside_true; lia). reflexivity.
  - reflexivity.
Qed.

Lemma shiftRight_moves_columns_witness :
  8 <= xsize sample_sheet /\ 0 <= 65 /\ 65 * 8 + 8 <= ysize sample_sheet /\
  0 <= 2 /\
  exists im',
    shiftRight sample_sheet 65 2 = Ok im' /\
    xsize im' = xsize sample_sheet /\ ysize im' = ysize sample_sheet /\
    forall x y, 0 <= x <= 7 -> 65 * 8 <= y <= 65 * 8 + 7 ->
      getpixel im' (x, y) =
        if 2 <=? x then getpixel sample_sheet (x - 2, y) else Ok 0.
Proof.
  assert (Hx : 8 <= xsize sample_sheet) by (vm_compute; discriminate).
  assert (Hy : 65 * 8 + 8 <= ysize sample_sheet) by (vm_compute; discriminate).
  split; [exact Hx|]. split; [lia|]. split; [exact Hy|]. split; [lia|].
  exact (shiftRight_moves_columns sample_sheet 65 2 Hx ltac:(lia) Hy ltac:(lia)).
Defined.

(** X9.  Shifts add up: a shift by [a] followed by a shift by [b] leaves
    the image a single shift by [a + b] leaves. *)
Theorem shiftRight_twice (im : Image) (i a b : Z) :
  8 <= xsize im -> 0 <= i -> i * 8 + 8 <= ysize im -> 0 <= a -> 0 <= b ->
  exists im1 im2 im3,
    shiftRight im i a = Ok im1 /\ shiftRight im1 i b = Ok im2 /\
    shiftRight im i (a + b) = Ok im3 /\
    forall x y, getpixel im2 (x, y) = getpixel im3 (x, y).
Proof.
  intros Hx Hi Hy Ha Hb.
  destruct (shiftRight_spec im i a) as (im1 & Hrun1 & [Hx1 Hy1] & Hpx1);
    [lia | lia | lia | lia |].
  destruct (shiftRight_spec im1 i b) as (im2 & Hrun2 & [Hx2 Hy2] & Hpx2);
    [lia | lia | lia | lia |].
  destruct (shiftRight_spec im i (a + b)) as (im3 & Hrun3 & [Hx3 Hy3] & Hpx3);
    [lia | lia | lia | lia |].
  exists im1, im2, im3. split; [exact Hrun1|]. split; [exact Hrun2|].
  split; [exact Hrun3|].
  intros x y. symmetry. apply getpixel_ext; [split; congruence|].
  rewrite Hpx2, Hpx3. unfold shifted.
  destruct (in_cell i x y) eqn:Hin; [|rewrite Hpx1; unfold shifted; rewrite Hin; reflexivity].
  apply in_cell_true in Hin.
  destruct (Z.leb_spec 0 (x - b)).
  - rewrite Hpx1. unfold shifted.
    assert (Hin' : in_cell i (x - b) y = true) by (apply in_cell_true; lia).
    rewrite Hin'.
    destruct (Z.leb_spec 0 (x - b - a)); destruct (Z.leb_spec 0 (x - (a + b)));
      try lia; try reflexivity; f_equal; lia.
  - destruct (Z.leb_spec 0 (x - (a + b))); [lia | reflexivity].
Qed.

Lemma shiftRight_twice_witness :
  8 <= xsize sample_sheet /\ 0 <= 65 /\ 65 * 8 + 8 <= ysize sample_sheet /\
  0 <= 1 /\ 0 <= 2 /\
  exists im1 im2 im3,
    shiftRight sample_sheet 65 1 = Ok im1 /\ shiftRight im1 65 2 = Ok im2 /\
    shiftRight sample_sheet 65 (1 + 2) = Ok im3 /\
    forall x y, getpixel im2 (x, y) = getpixel im3 (x, y).
Proof.
  assert (Hx : 8 <= xsize sample_sheet) by (vm_compute; discriminate).
  assert (Hy : 65 * 8 + 8 <= ysize sample_sheet) by (vm_compute; discriminate).
  split; [exact Hx|]. split; [lia|]. split; [exact Hy|].
  split; [lia|]. split; [lia|].
  exact (shiftRight_twice sample_sheet 65 1 2 Hx ltac:(lia) Hy ltac:(lia) ltac:(lia)).
Defined.

(** ** [centerChar]: where the ink goes *)

(** The 64 pixels of the cell of character 65. *)
Ltac cell_65_cases x y Hx Hy :=
  let Hxc := fresh in
  let Hyc := fresh in
  assert (Hxc : x = 0 \/ x = 1 \/ x = 2 \/ x = 3 \/ x = 4 \/ x = 5 \/ x = 6 \/ x = 7)
    by lia;
  assert (Hyc : y = 520 \/ y = 521 \/ y = 522 \/ y = 523 \/ y = 524 \/ y = 525 \/
                y = 526 \/ y = 527) by lia;
  clear Hx Hy;
  destruct Hxc as [->|[->|[->|[->|[->|[->|[->| ->]]]]]]];
  destruct Hyc as [->|[->|[->|[->|[->|[->|[->| ->]]]]]]].

Lemma canvas_sample_sheet : canvas sample_sheet.
Proof. split; vm_compute; discriminate. Qed.

Lemma canvas_right_ink_sheet : canvas right_ink_sheet.
Proof. split; vm_compute; discriminate. Qed.

(** X10.  A character whose [w] inked columns are its columns
    [0 .. w-1], as [draw.text] leaves a glyph without side bearing, is
    centred: with [s = (8 - w) / 2], every inked pixel moves [s] columns
    to the right and none is lost, the ink lies in columns
    [s .. s+w-1], and the margin on the right is the margin on the left
    or one column more. *)
Theorem centerChar_centres_left_aligned (im : Image) (i w : Z) :
  canvas im -> 0 <= i < nbCharacters -> centered i = true ->
  char_wsize im i = Ok w ->
  (forall x y, 0 <= x <= 7 -> i * 8 <= y <= i * 8 + 7 ->
     getpixel im (x, y) = Ok 255 -> x < w) ->
  exists im',
    centerChar im = Ok im' /\
    (forall x y, 0 <= x <= 7 -> i * 8 <= y <= i * 8 + 7 ->
       getpixel im (x, y) = Ok 255 ->
       getpixel im' (x + spaces_of w, y) = Ok 255) /\
    (forall x y, 0 <= x <= 7 -> i * 8 <= y <= i * 8 + 7 ->
       getpixel im' (x, y) = Ok 255 ->
       spaces_of w <= x < spaces_of w + w) /\
    spaces_of w <= 8 - (spaces_of w + w) <= spaces_of w + 1.
Proof.
  intros Hc Hi Hcen Hw Hleft.
  assert (Hw' : w = ink_width im i).
  { destruct Hc. unfold nbCharacters in *.
    rewrite char_wsize_spec in Hw by lia. congruence. }
  pose proof (ink_width_range im i) as Hwr. rewrite <- Hw' in Hwr.
  assert (Hs : 2 * spaces_of w <= 8 - w <= 2 * spaces_of w + 1)
    by (unfold spaces_of; Z.div_mod_to_equations; lia).
  destruct (centerChar_cell im Hc) as (im' & Hrun & Hc' & Hsz & Hcell & _).
  exists im'. split; [exact Hrun|].
  assert (Hget : forall a, canvas a -> forall v x y,
            0 <= x <= 7 -> i * 8 <= y <= i * 8 + 7 ->
            (getpixel a (x, y) = Ok v <-> pixel a x y = v)).
  { intros a Ha v x y Hx Hy.
    rewrite (getpixel_cell a i x y Ha Hi) by (apply in_cell_true; lia).
    split; congruence. }
  split; [|split; [|lia]].
  - intros x y Hx Hy H255. pose proof (Hleft x y Hx Hy H255) as Hxw.
    apply (Hget im' Hc'); [lia | lia |].
    rewrite (Hcell i) by (auto; apply in_cell_true; lia).
    rewrite Hcen, <- Hw'.
    destruct (Z.leb_spec 0 (x + spaces_of w - spaces_of w)); [|lia].
    replace (x + spaces_of w - spaces_of w) with x by lia.
    apply (Hget im Hc); [lia | lia | exact H255].
  - intros x y Hx Hy H255. apply (Hget im' Hc') in H255; [|lia|lia].
    rewrite (Hcell i) in H255 by (auto; apply in_cell_true; lia).
    rewrite Hcen, <- Hw' in H255.
    destruct (Z.leb_spec 0 (x - spaces_of w)); [|discriminate].
    assert (x - spaces_of w < w); [|lia].
    apply (Hleft (x - spaces_of w) y); [lia | lia |].
    apply (Hget im Hc); [lia | lia | exact H255].
Qed.

Lemma centerChar_centres_left_aligned_witness :
  canvas sample_sheet /\ 0 <= 65 < nbCharacters /\ centered 65 = true /\
  char_wsize sample_sheet 65 = Ok 4 /\
  (forall x y, 0 <= x <= 7 -> 65 * 8 <= y <= 65 * 8 + 7 ->
     getpixel sample_sheet (x, y) = Ok 255 -> x < 4) /\
  exists im',
    centerChar sample_sheet = Ok im' /\
    (forall x y, 0 <= x <= 7 -> 65 * 8 <= y <= 65 * 8 + 7 ->
       getpixel sample_sheet (x, y) = Ok 255 ->
       getpixel im' (x + spaces_of 4, y) = Ok 255) /\
    (forall x y, 0 <= x <= 7 -> 65 * 8 <= y <= 65 * 8 + 7 ->
       getpixel im' (x, y) = Ok 255 ->
       spaces_of 4 <= x < spaces_of 4 + 4) /\
    spaces_of 4 <= 8 - (spaces_of 4 + 4) <= spaces_of 4 + 1.
Proof.
  assert (Hi : 0 <= 65 < nbCharacters) by (unfold nbCharacters; lia).
  assert (Hw : char_wsize sample_sheet 65 = Ok 4) by (vm_compute; reflexivity).
  assert (Hleft : forall x y, 0 <= x <= 7 -> 65 * 8 <= y <= 65 * 8 + 7 ->
     getpixel sample_sheet (x, y) = Ok 255 -> x < 4).
  { intros x y Hx Hy. cell_65_cases x y Hx Hy; intros H;
      first [lia | vm_compute in H; discriminate H]. }
  split; [exact canvas_sample_sheet|]. split; [exact Hi|]. split; [reflexivity|].
  split; [exact Hw|]. split; [exact Hleft|].
  exact (centerChar_centres_left_aligned sample_sheet 65 4 canvas_sample_sheet
           Hi eq_refl Hw Hleft).
Defined.

(** X11.  The width is the number of inked columns, not the extent of
    the ink, and the shift takes no account of where the ink is: a
    character whose ink lies in its last [(8 - w) / 2] columns only has
    no ink left after [centerChar]. *)
Theorem centerChar_discards_right_ink (im : Image) (i w : Z) :
  canvas im -> 0 <= i < nbCharacters -> centered i = true ->
  char_wsize im i = Ok w ->
  (forall x y, 0 <= x <= 7 -> i * 8 <= y <= i * 8 + 7 ->
     getpixel im (x, y) = Ok 255 -> 8 <= x + spaces_of w) ->
  exists im',
    centerChar im = Ok im' /\
    forall x y, 0 <= x <= 7 -> i * 8 <= y <= i * 8 + 7 ->
      getpixel im' (x, y) <> Ok 255.
Proof.
  intros Hc Hi Hcen Hw Hright.
  assert (Hw' : w = ink_width im i).
  { destruct Hc. unfold nbCharacters in *.
    rewrite char_wsize_spec in Hw by lia. congruence. }
  destruct (centerChar_cell im Hc) as (im' & Hrun & Hc' & Hsz & Hcell & _).
  exists im'. split; [exact Hrun|].
  intros x y Hx Hy H255.
  rewrite (getpixel_cell im' i x y Hc' Hi) in H255 by (apply in_cell_true; lia).
  rewrite (Hcell i) in H255 by (auto; apply in_cell_true; lia).
  rewrite Hcen, <- Hw' in H255.
  destruct (Z.leb_spec 0 (x - spaces_of w)); [|discriminate].
  assert (8 <= x - spaces_of w + spaces_of w); [|lia].
  apply (Hright (x - spaces_of w) y); [|lia|].
  - pose proof (spaces_of_range w). pose proof (ink_width_range im i). lia.
  - rewrite (getpixel_cell im i _ y Hc Hi); [exact H255|].
    apply in_cell_true.
    pose proof (spaces_of_range w). pose proof (ink_width_range im i). lia.
Qed.

Lemma centerChar_discards_right_ink_witness :
  canvas right_ink_sheet /\ 0 <= 65 < nbCharacters /\ centered 65 = true /\
  char_wsize right_ink_sheet 65 = Ok 1 /\
  (forall x y, 0 <= x <= 7 -> 65 * 8 <= y <= 65 * 8 + 7 ->
     getpixel right_ink_sheet (x, y) = Ok 255 -> 8 <= x + spaces_of 1) /\
  getpixel right_ink_sheet (7, 65 * 8) = Ok 255 /\
  exists im',
    centerChar right_ink_sheet = Ok im' /\
    forall x y, 0 <= x <= 7 -> 65 * 8 <= y <= 65 * 8 + 7 ->
      getpixel im' (x, y) <> Ok 255.
Proof.
  assert (Hi : 0 <= 65 < nbCharacters) by (unfold nbCharacters; lia).
  assert (Hw : char_wsize right_ink_sheet 65 = Ok 1) by (vm_compute; reflexivity).
  assert (Hright : forall x y, 0 <= x <= 7 -> 65 * 8 <= y <= 65 * 8 + 7 ->
     getpixel right_ink_sheet (x, y) = Ok 255 -> 8 <= x + spaces_of 1).
  { intros x y Hx Hy. cell_65_cases x y Hx Hy; intros H;
      first [vm_compute; discriminate | vm_compute in H; discriminate H]. }
  split; [exact canvas_right_ink_sheet|]. split; [exact Hi|].
  split; [reflexivity|]. split; [exact Hw|]. split; [exact Hright|].
  split; [vm_compute; reflexivity|].
  exact (centerChar_discards_right_ink right_ink_sheet 65 1 canvas_right_ink_sheet
           Hi eq_refl Hw Hright).
Defined.

(** X12.  [centerChar] treats the characters one by one: the cell of a
    character after the whole loop is its cell after the iteration of
    that character alone on the image as it was given. *)
Theorem centerChar_cells_independent (im : Image) (i : Z) :
  canvas im -> 0 <= i < nbCharacters ->
  exists im' imi,
    centerChar im = Ok im' /\ centerChar_body i im = Ok imi /\
    forall x y, 0 <= x <= 7 -> i * 8 <= y <= i * 8 + 7 ->
      getpixel im' (x, y) = getpixel imi (x, y).
Proof.
  intros Hc Hi.
  destruct (centerChar_cell im Hc) as (im' & Hrun & Hc' & Hsz & Hcell & _).
  destruct (centerChar_body_spec im i Hc Hi) as (imi & Hruni & Hszi & Hpxi).
  exists im', imi. split; [exact Hrun|]. split; [exact Hruni|].
  intros x y Hx Hy.
  assert (Hin : in_cell i x y = true) by (apply in_cell_true; lia).
  rewrite (getpixel_cell im' i x y Hc' Hi Hin).
  rewrite (getpixel_cell imi i x y (canvas_same_size _ _ Hc Hszi) Hi Hin).
  f_equal. rewrite (Hcell i x y Hi Hin), Hpxi. unfold shifted. rewrite Hin.
  reflexivity.
Qed.

Lemma centerChar_cells_independent_witness :
  canvas sample_sheet /\ 0 <= 65 < nbCharacters /\
  exists im' imi,
    centerChar sample_sheet = Ok im' /\ centerChar_body 65 sample_sheet = Ok imi /\
    forall x y, 0 <= x <= 7 -> 65 * 8 <= y <= 65 * 8 + 7 ->
      getpixel im' (x, y) = getpixel imi (x, y).
Proof.
  assert (Hi : 0 <= 65 < nbCharacters) by (unfold nbCharacters; lia).
  split; [exact canvas_sample_sheet|]. split; [exact Hi|].
  exact (centerChar_cells_independent sample_sheet 65 canvas_sample_sheet Hi).
Defined.

(** X13.  [centerChar] never adds an inked column: the width measured
    on a character after the loop is at most the width measured
    before. *)
Theorem centerChar_width_never_grows (im : Image) (i : Z) :
  canvas im -> 0 <= i < nbCharacters ->
  exists im' w w',
    centerChar im = Ok im' /\
    char_wsize im i = Ok w /\ char_wsize im' i = Ok w' /\ w' <= w.
Proof.
  intros Hc Hi.
  destruct (centerChar_cell im Hc) as (im' & Hrun & Hc' & Hsz & Hcell & _).
  exists im', (ink_width im i), (ink_width im' i).
  split; [exact Hrun|].
  split. { destruct Hc. unfold nbCharacters in *. apply char_wsize_spec; lia. }
  split. { destruct Hc'. unfold nbCharacters in *. apply char_wsize_spec; lia. }
  destruct (centered i) eqn:Hcen.
  - apply (ink_width_shifted im im' i (spaces_of (ink_width im i))).
    + apply spaces_of_range, ink_width_range.
    + intros x y Hin. rewrite (Hcell i x y Hi Hin), Hcen. reflexivity.
  - rewrite (ink_width_ext im' im i); [lia|].
    intros x y Hin. rewrite (Hcell i x y Hi Hin), Hcen. reflexivity.
Qed.

Lemma centerChar_width_never_grows_witness :
  canvas right_ink_sheet /\ 0 <= 65 < nbCharacters /\
  exists im' w w',
    centerChar right_ink_sheet = Ok im' /\
    char_wsize right_ink_sheet 65 = Ok w /\ char_wsize im' 65 = Ok w' /\ w' <= w.
Proof.
  assert (Hi : 0 <= 65 < nbCharacters) by (unfold nbCharacters; lia).
  split; [exact canvas_right_ink_sheet|]. split; [exact Hi|].
  exact (centerChar_width_never_grows right_ink_sheet 65 canvas_right_ink_sheet Hi).
Defined.

(** X14.  A character of width 7 or 8 is not moved: its cell holds
    after [centerChar] what it held before. *)
Theorem centerChar_keeps_wide_characters (im : Image) (i w : Z) :
  canvas im -> 0 <= i < nbCharacters ->
  char_wsize im i = Ok w -> 7 <= w ->
  exists im',
    centerChar im = Ok im' /\
    forall x y, 0 <= x <= 7 -> i * 8 <= y <= i * 8 + 7 ->
      getpixel im' (x, y) = getpixel im (x, y).
Proof.
  intros Hc Hi Hw H7.
  assert (Hw' : w = ink_width im i).
  { destruct Hc. unfold nbCharacters in *.
    rewrite char_wsize_spec in Hw by lia. congruence. }
  assert (Hs : spaces_of (ink_width im i) = 0).
  { apply spaces_of_zero. pose proof (ink_width_range im i). lia. }
  destruct (centerChar_cell im Hc) as (im' & Hrun & Hc' & Hsz & Hcell & _).
  exists im'. split; [exact Hrun|].
  intros x y Hx Hy. apply getpixel_ext; [exact Hsz|].
  rewrite (Hcell i) by (auto; apply in_cell_true; lia).
  rewrite Hs, Z.sub_0_r.
  destruct (centered i); [|reflexivity].
  destruct (Z.leb_spec 0 x); [reflexivity | lia].
Qed.

Lemma centerChar_keeps_wide_characters_witness :
  canvas sample_sheet /\ 0 <= 66 < nbCharacters /\
  char_wsize sample_sheet 66 = Ok 8 /\ 7 <= 8 /\
  exists im',
    centerChar sample_sheet = Ok im' /\
    forall x y, 0 <= x <= 7 -> 66 * 8 <= y <= 66 * 8 + 7 ->
      getpixel im' (x, y) = getpixel sample_sheet (x, y).
Proof.
  assert (Hi : 0 <= 66 < nbCharacters) by (unfold nbCharacters; lia).
  assert (Hw : char_wsize sample_sheet 66 = Ok 8) by (vm_compute; reflexivity).
  split; [exact canvas_sample_sheet|]. split; [exact Hi|]. split; [exact Hw|].
  split; [lia|].
  exact (centerChar_keeps_wide_characters sample_sheet 66 8 canvas_sample_sheet
           Hi Hw ltac:(lia)).
Defined.

(** X15.  [centerChar] keeps the size of the image, leaves the columns
    from 8 on (the probe column among them) and the rows past the last
    character as they were, and moves pixels along their row only: every
    value it leaves is 0 or a value the same row held, so a 0/255 image
    stays one. *)
Theorem centerChar_moves_within_rows (im : Image) :
  canvas im ->
  exists im',
    centerChar im = Ok im' /\
    xsize im' = xsize im /\ ysize im' = ysize im /\
    (forall x y, 8 <= x \/ nbCharacters * 8 <= y ->
       getpixel im' (x, y) = getpixel im (x, y)) /\
    (forall x y v, getpixel im' (x, y) = Ok v ->
       v = 0 \/ exists x0, getpixel im (x0, y) = Ok v).
Proof.
  intros Hc. destruct (centerChar_spec im Hc) as (im' & Hrun & Hsz & Hpx).
  exists im'. split; [exact Hrun|]. destruct Hsz as [Hsx Hsy].
  split; [exact Hsx|]. split; [exact Hsy|]. split.
  - intros x y Hout. apply getpixel_ext; [split; assumption|].
    rewrite Hpx. destruct Hout as [Hx|Hy].
    + unfold center_pixel, shifted.
      assert (Hcell : in_cell (y / 8) x y = false) by (unfold in_cell; pixel_cases).
      rewrite Hcell. destruct (_ && _); reflexivity.
    + apply center_pixel_outside. lia.
  - intros x y v Hget. apply getpixel_Ok in Hget as [Hin ->].
    rewrite (same_size_inside im im') in Hin by (split; assumption).
    apply inside_true in Hin.
    rewrite Hpx. unfold center_pixel, shifted.
    assert (Hs := spaces_of_range _ (ink_width_range im (y / 8))).
    set (s := spaces_of (ink_width im (y / 8))) in *.
    destruct (_ && _); [|right; exists x; apply getpixel_inside, inside_true; lia].
    destruct (in_cell (y / 8) x y) eqn:Hcell;
      [|right; exists x; apply getpixel_inside, inside_true; lia].
    destruct (Z.leb_spec 0 (x - s)); [|left; reflexivity].
    right. exists (x - s). apply getpixel_inside, inside_true. lia.
Qed.

Lemma centerChar_moves_within_rows_witness :
  canvas sample_sheet /\
  exists im',
    centerChar sample_sheet = Ok im' /\
    xsize im' = xsize sample_sheet /\ ysize im' = ysize sample_sheet /\
    (forall x y, 8 <= x \/ nbCharacters * 8 <= y ->
       getpixel im' (x, y) = getpixel sample_sheet (x, y)) /\
    (forall x y v, getpixel im' (x, y) = Ok v ->
       v = 0 \/ exists x0, getpixel sample_sheet (x0, y) = Ok v).
Proof.
  split; [exact canvas_sample_sheet|].
  exact (centerChar_moves_within_rows sample_sheet canvas_sample_sheet).
Defined.

(** ** [toBinary] *)

(** The loop over [i] fills column [j] of the matrix. *)
Lemma toBinary_column_spec (im : Image) (binary : list (list Z)) (j : Z) :
  canvas im -> matrix_shape binary 8 (nbCharacters * 8) ->
  0 <= j < nbCharacters * 8 ->
  exists binary',
    for_ (range 8) (fun i binary =>
      do value <- getpixel im (i, j);
      setitem2 binary i j (if value =? 255 then 1 else 0)) binary = Ok binary' /\
    matrix_shape binary' 8 (nbCharacters * 8) /\
    forall i' j', 0 <= i' -> 0 <= j' ->
      entry binary' i' j' =
        if (j' =? j) && (i' <? 8)
        then (if pixel im i' j =? 255 then 1 else 0)
        else entry binary i' j'.
Proof.
  intros [Hx Hy] Hshape Hj.
  apply (for_range_inv (fun k b => matrix_shape b 8 (nbCharacters * 8) /\
    forall i' j', 0 <= i' -> 0 <= j' ->
      entry b i' j' =
        if (j' =? j) && (i' <? k)
        then (if pixel im i' j =? 255 then 1 else 0)
        else entry binary i' j')); [lia | | ].
  - split; [exact Hshape|]. intros i' j' Hi' _.
    destruct (Z.ltb_spec i' 0); [lia|]. rewrite andb_false_r. reflexivity.
  - intros k b Hk [Hb Hent].
    rewrite getpixel_inside by (apply inside_true; lia). cbn [bind].
    destruct (setitem2_spec b 8 (nbCharacters * 8) k j
                (if pixel im k j =? 255 then 1 else 0) Hb Hk Hj)
      as (b' & Hset & Hb' & Hent').
    exists b'. split; [exact Hset|]. split; [exact Hb'|].
    intros i' j' Hi' Hj'. rewrite Hent', Hent by assumption.
    destruct (Z.eqb_spec j' j) as [->|]; [|rewrite andb_false_r; reflexivity].
    rewrite andb_true_r. cbn [andb].
    destruct (Z.eqb_spec i' k) as [->|].
    + destruct (Z.ltb_spec k (k + 1)); [reflexivity | lia].
    + destruct (Z.ltb_spec i' k); destruct (Z.ltb_spec i' (k + 1)); try lia; reflexivity.
Qed.

(** [toBinary] returns on every canvas a matrix of 8 rows of
    [nbCharacters * 8] entries: entry [(i, j)] is 1 when the pixel of
    column [i] and row [j] is 255, and 0 otherwise. *)
Lemma toBinary_spec (im : Image) :
  canvas im ->
  exists binary,
    toBinary im = Ok binary /\ matrix_shape binary 8 (nbCharacters * 8) /\
    forall i j, 0 <= i < 8 -> 0 <= j < nbCharacters * 8 ->
      entry binary i j = if pixel im i j =? 255 then 1 else 0.
Proof.
  intros Hc. unfold toBinary. cbv zeta.
  destruct (matrix_shape_repeat 8 (nbCharacters * 8)) as [Hshape Hzero];
    [lia | unfold nbCharacters; lia |].
  change (Z.to_nat 8) with 8%nat in Hshape, Hzero.
  set (binary0 := repeat (repeat 0 (Z.to_nat (nbCharacters * 8))) 8) in *.
  destruct (for_range_inv (fun k b => matrix_shape b 8 (nbCharacters * 8) /\
    forall i' j', 0 <= i' < 8 -> 0 <= j' ->
      entry b i' j' =
        if j' <? k then (if pixel im i' j' =? 255 then 1 else 0) else 0)
    (nbCharacters * 8)
    (fun j binary =>
       for_ (range 8) (fun i binary =>
         do value <- getpixel im (i, j);
         setitem2 binary i j (if value =? 255 then 1 else 0)) binary) binary0)
    as (binary & Hrun & Hb & Hent); [unfold nbCharacters; lia | | | ].
  - split; [exact Hshape|]. intros i' j' _ Hj'.
    destruct (Z.ltb_spec j' 0); [lia|]. apply Hzero.
  - intros k b Hk [Hb Hent].
    destruct (toBinary_column_spec im b k Hc Hb Hk) as (b' & Hrun & Hb' & Hent').
    exists b'. split; [exact Hrun|]. split; [exact Hb'|].
    intros i' j' Hi' Hj'. rewrite Hent', Hent by lia.
    destruct (Z.ltb_spec i' 8); [|lia]. rewrite andb_true_r.
    destruct (Z.eqb_spec j' k) as [->|].
    + destruct (Z.ltb_spec k (k + 1)); [reflexivity | lia].
    + destruct (Z.ltb_spec j' k); destruct (Z.ltb_spec j' (k + 1)); try lia; reflexivity.
  - exists binary. split; [exact Hrun|]. split; [exact Hb|].
    intros i j Hi Hj. rewrite Hent by lia.
    destruct (Z.ltb_spec j (nbCharacters * 8)); [reflexivity | lia].
Qed.

(** X16.  [toBinary] returns on every canvas, and it transposes:
    [binary[x][y]] is 1 when the pixel of column [x] and row [y] of the
    image is 255 and 0 otherwise.  The first index of the matrix is the
    column of the pixel; the columns from 8 on are not read. *)
Theorem toBinary_transposes (im : Image) :
  canvas im ->
  exists binary,
    toBinary im = Ok binary /\
    forall x y, 0 <= x <= 7 -> 0 <= y < nbCharacters * 8 ->
      exists v,
        getpixel im (x, y) = Ok v /\
        getitem2 binary x y = Ok (if v =? 255 then 1 else 0).
Proof.
  intros Hc. destruct (toBinary_spec im Hc) as (binary & Hrun & Hshape & Hent).
  exists binary. split; [exact Hrun|].
  intros x y Hx Hy. exists (pixel im x y). split.
  - destruct Hc. apply getpixel_inside, inside_true. lia.
  - rewrite (getitem2_spec binary 8 (nbCharacters * 8)) by (try assumption; lia).
    rewrite Hent by lia. reflexivity.
Qed.

Lemma toBinary_transposes_witness :
  canvas sample_sheet /\
  exists binary,
    toBinary sample_sheet = Ok binary /\
    forall x y, 0 <= x <= 7 -> 0 <= y < nbCharacters * 8 ->
      exists v,
        getpixel sample_sheet (x, y) = Ok v /\
        getitem2 binary x y = Ok (if v =? 255 then 1 else 0).
Proof.
  split; [exact canvas_sample_sheet|].
  exact (toBinary_transposes sample_sheet canvas_sample_sheet).
Defined.

(** X17.  [toBinary] followed by [convert] packs each column of a
    character into one byte: bit [b] of [table[x][j]] is set exactly when
    the pixel of column [x] and row [b] of character [j] is 255.  The
    bytes are columns of the glyph, least significant bit on top. *)
Theorem table_bytes_are_glyph_columns (im : Image) :
  canvas im ->
  exists binary table,
    toBinary im = Ok binary /\ convert binary = Ok table /\
    forall x j b, 0 <= x <= 7 -> 0 <= j < nbCharacters -> 0 <= b <= 7 ->
      exists byte v,
        getitem2 table x j = Ok byte /\ 0 <= byte <= 255 /\
        getpixel im (x, j * 8 + b) = Ok v /\
        Z.land (Z.shiftr byte b) 1 = (if v =? 255 then 1 else 0).
Proof.
  intros Hc. destruct (toBinary_spec im Hc) as (binary & Hrun & Hshape & Hent).
  destruct (convert_spec binary Hshape) as (table & Hconv & Htab & Hpacked).
  exists binary, table. split; [exact Hrun|]. split; [exact Hconv|].
  intros x j b Hx Hj Hb.
  assert (Hbin : forall b', 0 <= b' <= 7 ->
            entry binary x (j * 8 + b') = 0 \/ entry binary x (j * 8 + b') = 1).
  { intros b' Hb'. rewrite Hent by (unfold nbCharacters in *; lia).
    destruct (_ =? 255); auto. }
  destruct (packed_bits binary x j Hbin) as [Hrange Hbits].
  exists (packed binary x j), (pixel im x (j * 8 + b)).
  split.
  { rewrite (getitem2_spec table 8 nbCharacters) by (try assumption; lia).
    rewrite Hpacked by lia. reflexivity. }
  split; [exact Hrange|]. split.
  { destruct Hc. unfold nbCharacters in *. apply getpixel_inside, inside_true. lia. }
  rewrite (Hbits b Hb). apply Hent; unfold nbCharacters in *; lia.
Qed.

Lemma table_bytes_are_glyph_columns_witness :
  canvas sample_sheet /\
  exists binary table,
    toBinary sample_sheet = Ok binary /\ convert binary = Ok table /\
    forall x j b, 0 <= x <= 7 -> 0 <= j < nbCharacters -> 0 <= b <= 7 ->
      exists byte v,
        getitem2 table x j = Ok byte /\ 0 <= byte <= 255 /\
        getpixel sample_sheet (x, j * 8 + b) = Ok v /\
        Z.land (Z.shiftr byte b) 1 = (if v =? 255 then 1 else 0).
Proof.
  split; [exact canvas_sample_sheet|].
  exact (table_bytes_are_glyph_columns sample_sheet canvas_sample_sheet).
Defined.

(** ** [output]: the text *)

Lemma string_app_assoc (a b c : string) :
  (a ++ (b ++ c))%string = ((a ++ b) ++ c)%string.
Proof.
  induction a as [|ch a IH]; [reflexivity|].
  change (String ch (a ++ (b ++ c)) = String ch ((a ++ b) ++ c))%string.
  f_equal. exact IH.
Qed.

Lemma list_ascii_of_string_app (a b : string) :
  list_ascii_of_string (a ++ b) =
    (list_ascii_of_string a ++ list_ascii_of_string b)%list.
Proof.
  induction a as [|ch a IH]; [reflexivity|].
  change (ch :: list_ascii_of_string (a ++ b) =
          ch :: (list_ascii_of_string a ++ list_ascii_of_string b)%list).
  f_equal. exact IH.
Qed.

(** [s[:-2]] takes a two-character end away. *)
Lemma drop_last2_app (s : string) (c1 c2 : ascii) :
  drop_last2 (s ++ String c1 (String c2 EmptyString)) = s.
Proof.
  unfold drop_last2. rewrite list_ascii_of_string_app. simpl.
  rewrite length_app. simpl.
  replace (List.length (list_ascii_of_string s) + 2 - 2)%nat
    with (List.length (list_ascii_of_string s) + 0)%nat by lia.
  rewrite take_app_add. simpl. rewrite app_nil_r.
  apply string_of_list_ascii_of_string.
Qed.

(** Lines that each end with a separator are the joined lines and one
    more separator. *)
Lemma fold_rows_concat (row : Z -> string) (sep : string) (l : list Z) :
  l <> [] ->
  forall h,
    fold_left (fun s j => (s ++ row j ++ sep)%string) l h =
      ((h ++ String.concat sep (map row l)) ++ sep)%string.
Proof.
  induction l as [|x [|y l] IH]; intros Hne h; [contradiction| |].
  - simpl. apply string_app_assoc.
  - change (fold_left (fun s j => (s ++ row j ++ sep)%string) (x :: y :: l) h)
      with (fold_left (fun s j => (s ++ row j ++ sep)%string) (y :: l)
              (h ++ row x ++ sep)%string).
    rewrite IH by discriminate.
    change (String.concat sep (map row (x :: y :: l)))
      with (row x ++ sep ++ String.concat sep (map row (y :: l)))%string.
    rewrite <- !string_app_assoc. reflexivity.
Qed.

(** The loop over [i] appends the line of character [j], a comma and a
    newline. *)
Lemma output_row_spec (data : list (list Z)) (j : Z) (s : string) :
  matrix_shape data 8 nbCharacters -> 0 <= j < nbCharacters ->
  for_ (range 8) (fun i s =>
    do d <- getitem2 data i j;
    let s := (s ++ format_04x d)%string in
    if i mod 8 =? 7
    then Ok (s ++ "}," ++ newline)%string
    else Ok (s ++ ", ")%string) (s ++ "{")%string =
  Ok (s ++ char_row data j ++ "," ++ newline)%string.
Proof.
  intros Hshape Hj. rewrite range_8. cbn [for_].
  rewrite !(getitem2_spec data 8 nbCharacters) by (try assumption; lia).
  cbn [bind]. cbv zeta.
  change (0 mod 8 =? 7) with false. change (1 mod 8 =? 7) with false.
  change (2 mod 8 =? 7) with false. change (3 mod 8 =? 7) with false.
  change (4 mod 8 =? 7) with false. change (5 mod 8 =? 7) with false.
  change (6 mod 8 =? 7) with false. change (7 mod 8 =? 7) with true.
  cbv iota. cbn [bind]. f_equal.
  unfold char_row. rewrite range_8. cbn [map String.concat].
  rewrite <- !string_app_assoc. reflexivity.
Qed.

(** [output] returns on every table of 8 rows of [nbCharacters] entries
    when [sys.argv[1]] exists. *)
Lemma output_spec (data : list (list Z)) (argv : list string) (name : string) :
  matrix_shape data 8 nbCharacters -> index argv 1 = Ok name ->
  output data argv =
    Ok ("const char " ++ array_name name ++ "[][8] PROGMEM = {" ++ newline
        ++ String.concat ("," ++ newline) (map (char_row data) (range nbCharacters))
        ++ newline ++ "};")%string.
Proof.
  intros Hshape Hname. unfold output. rewrite Hname. cbn [bind]. cbv zeta.
  set (header := ("const char " ++ array_name name ++ "[][8] PROGMEM = {" ++ newline)%string).
  rewrite (for_pure (fun j s => (s ++ char_row data j ++ "," ++ newline)%string)).
  - cbn [bind]. f_equal.
    rewrite (fold_rows_concat (char_row data) ("," ++ newline)%string).
    + change ("," ++ newline)%string
        with (String "," (String "010" EmptyString)) at 2.
      rewrite drop_last2_app. unfold header.
      rewrite <- !string_app_assoc. reflexivity.
    + intros H. apply (f_equal (@List.length Z)) in H. vm_compute in H. discriminate.
  - intros j s Hin. apply In_range in Hin.
    apply output_row_spec; assumption.
Qed.

(** X18.  For every table of 8 rows of [nbCharacters] entries, the text
    of [output] is the declaration line, one line per character with its
    eight entries [data[0][j], ..., data[7][j]] in [format(.., '#04x')]
    between braces, the lines separated by a comma and a newline, and
    the closing line: [s[:-2]] takes away the comma and the newline
    after the last character and nothing else. *)
Theorem output_text (data : list (list Z)) (prog name : string)
    (rest : list string) :
  matrix_shape data 8 nbCharacters ->
  output data (prog :: name :: rest) =
    Ok ("const char " ++ array_name name ++ "[][8] PROGMEM = {" ++ newline
        ++ String.concat ("," ++ newline) (map (char_row data) (range nbCharacters))
        ++ newline ++ "};")%string.
Proof.
  intros Hshape. apply output_spec; [exact Hshape | reflexivity].
Qed.

Lemma sample_table_shape : matrix_shape sample_table 8 nbCharacters.
Proof. apply matrix_shape_check. vm_compute. reflexivity. Qed.

Lemma output_text_witness :
  matrix_shape sample_table 8 nbCharacters /\
  output sample_table ["font2oled.py"; "My Font-1.ttf"]%string =
    Ok ("const char " ++ array_name "My Font-1.ttf" ++ "[][8] PROGMEM = {" ++ newline
        ++ String.concat ("," ++ newline)
             (map (char_row sample_table) (range nbCharacters))
        ++ newline ++ "};")%string.
Proof.
  split; [exact sample_table_shape|].
  exact (output_text sample_table "font2oled.py" "My Font-1.ttf" [] sample_table_shape).
Defined.

(** ** [output]: the name of the array *)

(** X19.  Whatever the path of the font, the name of the array holds no
    character from the space to the colon (the digits, the dot, the
    hyphen and the slash are among them) and no question mark. *)
Theorem array_name_characters (argv1 : string) (c : ascii) :
  In c (list_ascii_of_string (array_name argv1)) ->
  ~ (32 <= nat_of_ascii c <= 58)%nat /\ c <> "?"%char.
Proof.
  unfold array_name, re_sub_class. rewrite list_ascii_of_string_of_list_ascii.
  intros Hin. apply filter_In in Hin as [_ Hkeep].
  apply negb_true_iff in Hkeep.
  assert (Hno : ~ ((32 <= nat_of_ascii c <= 58)%nat \/ c = "?"%char)).
  { intros H. apply filename_pattern_matches in H. congruence. }
  tauto.
Qed.

Lemma array_name_characters_witness :
  In "F"%char (list_ascii_of_string (array_name "dir/My Font-1.ttf")) /\
  ~ (32 <= nat_of_ascii "F" <= 58)%nat /\ "F"%char <> "?"%char.
Proof.
  assert (H : In "F"%char (list_ascii_of_string (array_name "dir/My Font-1.ttf")))
    by (vm_compute; auto).
  split; [exact H|].
  exact (array_name_characters "dir/My Font-1.ttf" "F" H).
Defined.

Lemma rfind_from_app (c : ascii) (l1 l2 : list ascii) (pos last : Z) :
  rfind_from c (l1 ++ l2) pos last =
    rfind_from c l2 (pos + Z.of_nat (List.length l1)) (rfind_from c l1 pos last).
Proof.
  revert pos last. induction l1 as [|a l1 IH]; intros pos last.
  - simpl. rewrite Z.add_0_r. reflexivity.
  - cbn [app rfind_from List.length]. rewrite IH. f_equal. lia.
Qed.

Lemma rfind_from_absent (c : ascii) (l : list ascii) (pos last : Z) :
  ~ In c l -> rfind_from c l pos last = last.
Proof.
  revert pos last. induction l as [|a l IH]; intros pos last Hno; [reflexivity|].
  cbn [rfind_from]. destruct (Ascii.eqb_spec a c) as [->|_].
  - exfalso. apply Hno. left. reflexivity.
  - apply IH. intros H. apply Hno. right. exact H.
Qed.

Lemma basename_no_slash (file : string) :
  ~ In "/"%char (list_ascii_of_string file) -> basename file = file.
Proof.
  intros Hno. unfold basename, rfind. rewrite rfind_from_absent by exact Hno.
  unfold slice_from. simpl. apply string_of_list_ascii_of_string.
Qed.

Lemma basename_of_path (dir file : string) :
  ~ In "/"%char (list_ascii_of_string file) ->
  basename (dir ++ "/" ++ file) = file.
Proof.
  intros Hno. unfold basename, rfind.
  rewrite !list_ascii_of_string_app.
  change (list_ascii_of_string "/") with ["/"%char].
  set (d := list_ascii_of_string dir). set (f := list_ascii_of_string file) in *.
  rewrite rfind_from_app. cbn [app rfind_from].
  rewrite Ascii.eqb_refl. rewrite rfind_from_absent by exact Hno.
  unfold slice_from.
  replace (Z.to_nat (0 + Z.of_nat (List.length d) + 1))
    with (List.length (d ++ ["/"%char])) by (rewrite length_app; simpl; lia).
  change (d ++ "/"%char :: f) with (d ++ ["/"%char] ++ f).
  rewrite app_assoc, drop_app_length.
  apply string_of_list_ascii_of_string.
Qed.

(** X20.  The directories of the path play no part: a font given by a
    path that ends with a slash and a file name gets the array name the
    file name alone gets. *)
Theorem array_name_ignores_directory (dir file : string) :
  ~ In "/"%char (list_ascii_of_string file) ->
  array_name (dir ++ "/" ++ file) = array_name file.
Proof.
  intros Hno. unfold array_name.
  rewrite (basename_of_path dir file Hno), (basename_no_slash file Hno).
  reflexivity.
Qed.

Lemma array_name_ignores_directory_witness :
  ~ In "/"%char (list_ascii_of_string "Arial.ttf") /\
  array_name ("/usr/share/fonts" ++ "/" ++ "Arial.ttf") = array_name "Arial.ttf".
Proof.
  assert (H : ~ In "/"%char (list_ascii_of_string "Arial.ttf")).
  { simpl. intros [H|[H|[H|[H|[H|[H|[H|[H|[H|[]]]]]]]]]]; discriminate H. }
  split; [exact H|].
  exact (array_name_ignores_directory "/usr/share/fonts" "Arial.ttf" H).
Defined.

(** ** The whole program *)

(** With a font PIL loads at every size the search tries, [checkArgs]
    returns the centred image after saving it, or the search error
    ends it. *)
Lemma checkArgs_outcomes (truetype : string -> Z -> option Font)
    (prog fontfile : string) (w : World) :
  (forall s, minFontSize - 1 <= s <= maxFontSize - 1 ->
     truetype fontfile s <> None) ->
  (exists im0 im,
     findSize truetype fontfile w = (Ok im0, w) /\
     centerChar im0 = Ok im /\ canvas im /\
     checkArgs truetype [prog; fontfile] w =
       (Ok im, mkWorld (stdout w) (stderr w)
                 (saved w ++ [("font.png"%string, px im)]))) \/
  checkArgs truetype [prog; fontfile] w =
    (Raise (SystemExit (-1)),
     mkWorld (stdout w) (stderr w ++ [search_error]) (saved w)).
Proof.
  intros Hload.
  assert (H8 : truetype fontfile 8 <> None)
    by (apply Hload; unfold minFontSize, maxFontSize; lia).
  unfold checkArgs.
  change (Z.of_nat (List.length [prog; fontfile]) =? 2) with true. cbv iota.
  change (index [prog; fontfile] 1) with (Ok fontfile).
  rewrite (bindM_Ok _ _ w fontfile w) by reflexivity.
  destruct (truetype fontfile 8) as [font8|]; [|contradiction].
  rewrite (bindM_Ok _ _ w tt w) by reflexivity.
  destruct (findSize_while_outcomes truetype fontfile _ maxFontSize w
              (Nat.le_refl _) Hload)
    as [(size & im0 & Hrun & Hx & Hy & _)|Hexit].
  - left.
    assert (Hfind : findSize truetype fontfile w = (Ok im0, w)).
    { unfold findSize. rewrite (bindM_Ok _ _ _ _ _ Hrun). reflexivity. }
    assert (Hc0 : canvas im0).
    { split; rewrite ?Hx, ?Hy; unfold nbCharacters; lia. }
    destruct (centerChar_spec im0 Hc0) as (im & Hcen & Hsz & _).
    exists im0, im. split; [exact Hfind|]. split; [exact Hcen|].
    split; [eapply canvas_same_size; eassumption|].
    rewrite (bindM_Ok _ _ _ _ _ Hfind).
    unfold bindM, lift, save, ret. rewrite Hcen. reflexivity.
  - right. apply bindM_Raise. unfold findSize. apply bindM_Raise. exact Hexit.
Qed.

(** X21.  With a font PIL loads at every size the search tries, the
    program has two outcomes only.  Either it saves the centred image as
    [font.png] and prints one text, the [output] of the table [convert]
    gives for the [toBinary] of that image, and nothing on the standard
    error; or it prints the search error, no table, saves nothing and
    ends by [exit(-1)].  No index of the pipeline is ever out of
    range. *)
Theorem main_outcomes (truetype : string -> Z -> option Font)
    (prog fontfile : string) (w : World) :
  (forall s, minFontSize - 1 <= s <= maxFontSize - 1 ->
     truetype fontfile s <> None) ->
  (exists im0 im binary table text,
     findSize truetype fontfile w = (Ok im0, w) /\
     centerChar im0 = Ok im /\ toBinary im = Ok binary /\
     convert binary = Ok table /\ output table [prog; fontfile] = Ok text /\
     main truetype [prog; fontfile] w =
       (Ok tt, mkWorld (stdout w ++ [text]) (stderr w)
                 (saved w ++ [("font.png"%string, px im)]))) \/
  main truetype [prog; fontfile] w =
    (Raise (SystemExit (-1)),
     mkWorld (stdout w) (stderr w ++ [search_error]) (saved w)).
Proof.
  intros Hload.
  destruct (checkArgs_outcomes truetype prog fontfile w Hload)
    as [(im0 & im & Hfind & Hcen & Hc & Hcheck)|Hexit].
  - left.
    destruct (toBinary_spec im Hc) as (binary & Hbin & Hshape & _).
    destruct (convert_spec binary Hshape) as (table & Hconv & Htab & _).
    pose proof (output_spec table [prog; fontfile] fontfile Htab eq_refl) as Hout.
    eexists im0, im, binary, table, _.
    split; [exact Hfind|]. split; [exact Hcen|]. split; [exact Hbin|].
    split; [exact Hconv|]. split; [exact Hout|].
    unfold main. rewrite (bindM_Ok _ _ _ _ _ Hcheck).
    unfold bindM, lift, print. rewrite Hbin, Hconv, Hout. reflexivity.
  - right. unfold main. apply bindM_Raise. exact Hexit.
Qed.

Lemma main_outcomes_witness :
  (forall s, minFontSize - 1 <= s <= maxFontSize - 1 ->
     sample_truetype "sample.ttf" s <> None) /\
  ((exists im0 im binary table text,
      findSize sample_truetype "sample.ttf" world0 = (Ok im0, world0) /\
      centerChar im0 = Ok im /\ toBinary im = Ok binary /\
      convert binary = Ok table /\
      output table ["font2oled.py"; "sample.ttf"]%string = Ok text /\
      main sample_truetype ["font2oled.py"; "sample.ttf"]%string world0 =
        (Ok tt, mkWorld (stdout world0 ++ [text]) (stderr world0)
                  (saved world0 ++ [("font.png"%string, px im)]))) \/
   main sample_truetype ["font2oled.py"; "sample.ttf"]%string world0 =
     (Raise (SystemExit (-1)),
      mkWorld (stdout world0) (stderr world0 ++ [search_error]) (saved world0))).
Proof.
  assert (H : forall s, minFontSize - 1 <= s <= maxFontSize - 1 ->
                sample_truetype "sample.ttf" s <> None)
    by (intros s _; discriminate).
  split; [exact H|].
  exact (main_outcomes sample_truetype "font2oled.py" "sample.ttf" world0 H).
Defined.

(** X22.  What the table says of the font.  When no glyph has ink above
    its anchor, and [findSize], [centerChar], [toBinary] and [convert]
    have run one after the other, bit [b] of [table[x][j]] is set
    exactly when the glyph of character [j], at the size [findSize]
    stopped at, inks the pixel of row [b] that the centring moved to
    column [x]: the pixel of column [x - s], where [s] is
    [(8 - w) / 2] for the measured width [w] of the character, and 0 for
    the six punctuation signs. *)
Theorem table_bits_are_centred_glyphs (truetype : string -> Z -> option Font)
    (fontname : string) (w w' : World) (im0 im : Image)
    (binary table : list (list Z)) :
  (forall size font, truetype fontname size = Some font -> below_anchor font) ->
  findSize truetype fontname w = (Ok im0, w') ->
  centerChar im0 = Ok im -> toBinary im = Ok binary ->
  convert binary = Ok table ->
  exists size font,
    truetype fontname size = Some font /\
    forall j x b, 0 <= j < nbCharacters -> 0 <= x <= 7 -> 0 <= b <= 7 ->
      exists width byte,
        char_wsize im0 j = Ok width /\ getitem2 table x j = Ok byte /\
        (Z.land (Z.shiftr byte b) 1 = 1 <->
         spaces_of_char j width <= x /\
         In (x - spaces_of_char j width, b) (font j)).
Proof.
  intros Hba Hfind Hcen Hbin Hconv.
  unfold findSize, bindM in Hfind.
  destruct (findSize_while truetype fontname maxFontSize w) as [[[size im1]|e] w1] eqn:E;
    [|discriminate].
  unfold ret in Hfind. cbn [snd] in Hfind. injection Hfind as <- <-.
  pose proof (findSize_while_Ok truetype fontname _ _ _ _ _ _ (Nat.le_refl _) E)
    as (_ & _ & font & Hfont & Hpass).
  destruct (draw_chars_cells font (Hba _ _ Hfont))
    as (im2 & o & Hpass2 & Hx & Hy & Hcells).
  rewrite Hpass in Hpass2. injection Hpass2 as <- <-.
  assert (Hc0 : canvas im1) by (split; rewrite ?Hx, ?Hy; unfold nbCharacters; lia).
  destruct (centerChar_cell im1 Hc0) as (im' & Hcen' & Hc & _ & Hcell & _).
  rewrite Hcen in Hcen'. injection Hcen' as <-.
  destruct (toBinary_spec im Hc) as (binary' & Hbin' & Hshape & Hent).
  rewrite Hbin in Hbin'. injection Hbin' as <-.
  destruct (convert_spec binary Hshape) as (table' & Hconv' & Htab & Hpacked).
  rewrite Hconv in Hconv'. injection Hconv' as <-.
  exists size, font. split; [exact Hfont|].
  intros j x b Hj Hxr Hb.
  exists (ink_width im1 j), (packed binary x j).
  split. { unfold nbCharacters in *. apply char_wsize_spec; lia. }
  split.
  { rewrite (getitem2_spec table 8 nbCharacters) by (try assumption; lia).
    rewrite Hpacked by lia. reflexivity. }
  assert (Hbinary : forall b', 0 <= b' <= 7 ->
            entry binary x (j * 8 + b') = 0 \/ entry binary x (j * 8 + b') = 1).
  { intros b' Hb'. rewrite Hent by (unfold nbCharacters in *; lia).
    destruct (_ =? 255); auto. }
  destruct (packed_bits binary x j Hbinary) as [_ Hbits].
  rewrite (Hbits b Hb), Hent by (unfold nbCharacters in *; lia).
  assert (Hin : in_cell j x (j * 8 + b) = true) by (apply in_cell_true; lia).
  rewrite (Hcell j x (j * 8 + b) Hj Hin).
  pose proof (spaces_of_range _ (ink_width_range im1 j)) as Hs.
  unfold spaces_of_char. destruct (centered j).
  - set (s := spaces_of (ink_width im1 j)) in *.
    destruct (Z.leb_spec 0 (x - s)) as [Hge|Hlt].
    + pose proof (Hcells j (x - s) (j * 8 + b) Hj ltac:(lia) ltac:(lia)) as Hg.
      replace (j * 8 + b - j * 8) with b in Hg by lia. rewrite <- Hg.
      destruct (Z.eqb_spec (pixel im1 (x - s) (j * 8 + b)) 255) as [->|Hne].
      * split; [intros _; split; [lia|reflexivity] | reflexivity].
      * split; [discriminate | intros [_ H]; contradiction].
    + split; [discriminate | intros [H _]; lia].
  - rewrite Z.sub_0_r.
    pose proof (Hcells j x (j * 8 + b) Hj ltac:(lia) ltac:(lia)) as Hg.
    replace (j * 8 + b - j * 8) with b in Hg by lia. rewrite <- Hg.
    destruct (Z.eqb_spec (pixel im1 x (j * 8 + b)) 255) as [->|Hne].
    + split; [intros _; split; [lia|reflexivity] | reflexivity].
    + split; [discriminate | intros [_ H]; contradiction].
Qed.

Lemma canvas_sample_fitted : canvas sample_fitted.
Proof. split; vm_compute; discriminate. Qed.

Lemma centerChar_sample_fitted : centerChar sample_fitted = Ok sample_centered.
Proof.
  unfold sample_centered, unwrap_or.
  destruct (centerChar_spec sample_fitted canvas_sample_fitted) as (im & -> & _).
  reflexivity.
Qed.

Lemma canvas_sample_centered : canvas sample_centered.
Proof.
  unfold sample_centered, unwrap_or.
  destruct (centerChar_spec sample_fitted canvas_sample_fitted) as (im & -> & Hsz & _).
  exact (canvas_same_size _ _ canvas_sample_fitted Hsz).
Qed.

Lemma toBinary_sample_centered : toBinary sample_centered = Ok sample_binary.
Proof.
  unfold sample_binary, unwrap_or.
  destruct (toBinary_spec sample_centered canvas_sample_centered) as (b & -> & _).
  reflexivity.
Qed.

Lemma sample_binary_shape : matrix_shape sample_binary 8 (nbCharacters * 8).
Proof.
  unfold sample_binary, unwrap_or.
  destruct (toBinary_spec sample_centered canvas_sample_centered) as (b & -> & Hs & _).
  exact Hs.
Qed.

Lemma convert_sample_binary : convert sample_binary = Ok sample_packed.
Proof.
  unfold sample_packed, unwrap_or.
  destruct (convert_spec sample_binary sample_binary_shape) as (t & -> & _).
  reflexivity.
Qed.

Lemma table_bits_are_centred_glyphs_witness :
  (forall size font, sample_truetype "sample.ttf" size = Some font ->
     below_anchor font) /\
  findSize sample_truetype "sample.ttf" world0 = (Ok sample_fitted, world0) /\
  centerChar sample_fitted = Ok sample_centered /\
  toBinary sample_centered = Ok sample_binary /\
  convert sample_binary = Ok sample_packed /\
  exists size font,
    sample_truetype "sample.ttf" size = Some font /\
    forall j x b, 0 <= j < nbCharacters -> 0 <= x <= 7 -> 0 <= b <= 7 ->
      exists width byte,
        char_wsize sample_fitted j = Ok width /\
        getitem2 sample_packed x j = Ok byte /\
        (Z.land (Z.shiftr byte b) 1 = 1 <->
         spaces_of_char j width <= x /\
         In (x - spaces_of_char j width, b) (font j)).
Proof.
  split; [apply sample_truetype_below_anchor|].
  split; [exact findSize_sample_fitted|].
  split; [exact centerChar_sample_fitted|].
  split; [exact toBinary_sample_centered|].
  split; [exact convert_sample_binary|].
  exact (table_bits_are_centred_glyphs sample_truetype "sample.ttf" world0 world0
           sample_fitted sample_centered sample_binary sample_packed
           (sample_truetype_below_anchor "sample.ttf") findSize_sample_fitted
           centerChar_sample_fitted toBinary_sample_centered convert_sample_binary).
Defined.

(** ** The width [centerChar] measures *)

Lemma ink_pixels_zero_iff (im : Image) (i j : Z) :
  ink_pixels im i j = 0 <->
  forall p, 0 <= p < 8 -> pixel im j (i * 8 + p) <> 255.
Proof.
  unfold ink_pixels. rewrite range_8. cbn [fold_left]. split.
  - intros H p Hp H255.
    assert (Hc : p = 0 \/ p = 1 \/ p = 2 \/ p = 3 \/ p = 4 \/ p = 5 \/ p = 6 \/ p = 7)
      by lia.
    destruct Hc as [->|[->|[->|[->|[->|[->|[->| ->]]]]]]];
      rewrite H255 in H; change (255 =? 255) with true in H; cbv iota in H;
      repeat match type of H with
             | context [if ?c then _ else _] => destruct c
             end; lia.
  - intros H.
    rewrite !(proj2 (Z.eqb_neq _ 255)) by (apply H; lia). reflexivity.
Qed.

Lemma ink_width_zero_iff (im : Image) (i : Z) :
  ink_width im i = 0 <-> forall j, 0 <= j < 8 -> ink_pixels im i j = 0.
Proof.
  unfold ink_width. rewrite range_8. cbn [fold_left]. split.
  - intros H j Hj.
    assert (Hc : j = 0 \/ j = 1 \/ j = 2 \/ j = 3 \/ j = 4 \/ j = 5 \/ j = 6 \/ j = 7)
      by lia.
    destruct Hc as [->|[->|[->|[->|[->|[->|[->| ->]]]]]]];
      match goal with
      | |- ?a = 0 => destruct (Z.eqb_spec a 0) as [|Hne]; [assumption|]
      end;
      exfalso; cbn [negb] in H;
      repeat match type of H with
             | context [if negb ?c then _ else _] => destruct (negb c)
             end; lia.
  - intros H. rewrite !H by lia. reflexivity.
Qed.

(** X23.  The width [centerChar] measures on a character is between 0
    and 8, so the stride it passes to [shiftRight] is between 0 and 4,
    never negative; and the width is 0 exactly when no pixel of the cell
    is 255. *)
Theorem char_wsize_measure (im : Image) (i : Z) :
  canvas im -> 0 <= i < nbCharacters ->
  exists w,
    char_wsize im i = Ok w /\ 0 <= w <= 8 /\ 0 <= spaces_of w <= 4 /\
    (w = 0 <->
     forall x y, 0 <= x <= 7 -> i * 8 <= y <= i * 8 + 7 ->
       getpixel im (x, y) <> Ok 255).
Proof.
  intros Hc Hi. exists (ink_width im i).
  split. { destruct Hc. unfold nbCharacters in *. apply char_wsize_spec; lia. }
  split; [apply ink_width_range|].
  split; [apply spaces_of_range, ink_width_range|].
  rewrite ink_width_zero_iff. split.
  - intros H x y Hx Hy Hget.
    rewrite (getpixel_cell im i x y Hc Hi) in Hget by (apply in_cell_true; lia).
    injection Hget as Hget.
    pose proof (proj1 (ink_pixels_zero_iff im i x) (H x ltac:(lia)) (y - i * 8)
                  ltac:(lia)) as Hne.
    replace (i * 8 + (y - i * 8)) with y in Hne by lia. contradiction.
  - intros H j Hj. apply ink_pixels_zero_iff. intros p Hp H255.
    apply (H j (i * 8 + p)); [lia | lia |].
    rewrite (getpixel_cell im i j _ Hc Hi) by (apply in_cell_true; lia).
    rewrite H255. reflexivity.
Qed.

Lemma char_wsize_measure_witness :
  canvas sample_sheet /\ 0 <= 67 < nbCharacters /\
  exists w,
    char_wsize sample_sheet 67 = Ok w /\ 0 <= w <= 8 /\ 0 <= spaces_of w <= 4 /\
    (w = 0 <->
     forall x y, 0 <= x <= 7 -> 67 * 8 <= y <= 67 * 8 + 7 ->
       getpixel sample_sheet (x, y) <> Ok 255).
Proof.
  assert (Hi : 0 <= 67 < nbCharacters) by (unfold nbCharacters; lia).
  split; [exact canvas_sample_sheet|]. split; [exact Hi|].
  exact (char_wsize_measure sample_sheet 67 canvas_sample_sheet Hi).
Defined.

(** ** Exceptions *)

Lemma bind_Raise {A B : Type} (m : res A) (k : A -> res B) (e : exn) :
  bind m k = Raise e -> m = Raise e \/ exists a, m = Ok a /\ k a = Raise e.
Proof.
  destruct m as [a|e']; simpl; intros H; [right; eauto | left; congruence].
Qed.

(** A loop raises [IndexError] when its iterations raise nothing else. *)
Lemma for_Raise {S : Type} (l : list Z)
    (body : Z -> S -> res S) (s : S) (e : exn) :
  (forall x s e, In x l -> body x s = Raise e -> e = IndexError) ->
  for_ l body s = Raise e -> e = IndexError.
Proof.
  revert s; induction l as [|x l IH]; intros s Hbody Hrun; simpl in Hrun;
    [discriminate|].
  apply bind_Raise in Hrun as [Hx|(s1 & _ & Hrest)].
  - eapply Hbody; [left; reflexivity | exact Hx].
  - apply (IH s1); [|exact Hrest]. intros; eapply Hbody; eauto. right; assumption.
Qed.

(** A loop that returns has run every iteration to its end. *)
Lemma for_Ok_In {S : Type} (l : list Z) (body : Z -> S -> res S) (s s' : S) :
  for_ l body s = Ok s' ->
  forall x, In x l -> exists s1 s2, body x s1 = Ok s2.
Proof.
  revert s; induction l as [|a l IH]; intros s Hrun x Hin; [contradiction|].
  simpl in Hrun. apply bind_Ok in Hrun as (s1 & Ha & Hrest).
  destruct Hin as [->|Hin]; [eauto|]. eapply IH; eassumption.
Qed.

Lemma getpixel_Raise (im : Image) (xy : Z * Z) (e : exn) :
  getpixel im xy = Raise e -> e = IndexError.
Proof. unfold getpixel. destruct (inside _ _ _); congruence. Qed.

Lemma putpixel_Raise (im : Image) (xy : Z * Z) (v : Z) (e : exn) :
  putpixel im xy v = Raise e -> e = IndexError.
Proof. unfold putpixel. destruct (inside _ _ _); congruence. Qed.

Lemma shiftRight_Raise (im : Image) (i stride : Z) (e : exn) :
  shiftRight im i stride = Raise e -> e = IndexError.
Proof.
  unfold shiftRight. apply for_Raise. intros j s e' _.
  destruct (0 <=? j - stride); apply for_Raise; intros p s1 e'' _ H.
  - apply bind_Raise in H as [H|(v & _ & H)];
      [eapply getpixel_Raise | eapply putpixel_Raise]; exact H.
  - eapply putpixel_Raise; exact H.
Qed.

Lemma char_wsize_Raise (im : Image) (i : Z) (e : exn) :
  char_wsize im i = Raise e -> e = IndexError.
Proof.
  unfold char_wsize. apply for_Raise. intros j w e' _ H.
  apply bind_Raise in H as [H|(v & _ & H)]; [|discriminate].
  revert H. unfold column_pixels. apply for_Raise. intros p c e'' _ H.
  apply bind_Raise in H as [H|(v & _ & H)]; [|discriminate].
  eapply getpixel_Raise; exact H.
Qed.

Lemma centerChar_body_same_size (i : Z) (im im' : Image) :
  centerChar_body i im = Ok im' -> same_size im im'.
Proof.
  unfold centerChar_body. destruct (centered i).
  - intros H. apply bind_Ok in H as (w & _ & H).
    apply shiftRight_frame in H. tauto.
  - intros [= <-]. apply same_size_refl.
Qed.

(** A [centerChar] that returns was given a canvas: its last iteration
    reads the pixel of column 7 in the last row of character 255. *)
Lemma centerChar_Ok_canvas (im im' : Image) :
  centerChar im = Ok im' -> canvas im.
Proof.
  unfold centerChar. change nbCharacters with (255 + 1) at 1.
  rewrite range_succ by lia. rewrite for_app.
  intros H. apply bind_Ok in H as (s1 & Hfirst & Hlast).
  assert (Hsz : same_size im s1).
  { apply (for_preserves (same_size im) _ _ _ _) in Hfirst;
      [exact Hfirst | | apply same_size_refl].
    intros x a b _ Ha Hb. apply centerChar_body_same_size in Hb.
    eapply same_size_trans; eassumption. }
  simpl in Hlast. apply bind_Ok in Hlast as (s2 & Hbody & _).
  unfold centerChar_body in Hbody. change (centered 255) with true in Hbody.
  apply bind_Ok in Hbody as (w & Hw & _).
  unfold char_wsize in Hw.
  destruct (for_Ok_In _ _ _ _ Hw 7) as (w1 & w2 & Hcol);
    [apply In_range; lia|].
  apply bind_Ok in Hcol as (c & Hcol & _).
  unfold column_pixels in Hcol.
  destruct (for_Ok_In _ _ _ _ Hcol 7) as (c1 & c2 & Hpix);
    [apply In_range; lia|].
  apply bind_Ok in Hpix as (v & Hpix & _).
  apply getpixel_Ok in Hpix as [Hin _].
  rewrite (same_size_inside _ _ _ _ Hsz) in Hin. apply inside_true in Hin.
  split; unfold nbCharacters; lia.
Qed.

(** X24.  [centerChar] returns exactly on the images of at least 8
    columns and [nbCharacters * 8] rows; on any other image it raises
    [IndexError], and it raises nothing else. *)
Theorem centerChar_returns_iff_canvas (im : Image) :
  ((exists im', centerChar im = Ok im') <-> canvas im) /\
  (~ canvas im -> centerChar im = Raise IndexError).
Proof.
  assert (Hiff : (exists im', centerChar im = Ok im') <-> canvas im).
  { split.
    - intros [im' H]. eapply centerChar_Ok_canvas; exact H.
    - intros Hc. destruct (centerChar_spec im Hc) as (im' & H & _). eauto. }
  split; [exact Hiff|].
  intros Hno. destruct (centerChar im) as [im'|e] eqn:E.
  - exfalso. apply Hno, Hiff. eauto.
  - f_equal. revert E. unfold centerChar. apply for_Raise.
    intros i s e' _ H. unfold centerChar_body in H.
    destruct (centered i); [|discriminate].
    apply bind_Raise in H as [H|(w & _ & H)];
      [eapply char_wsize_Raise | eapply shiftRight_Raise]; exact H.
Qed.

Lemma centerChar_returns_iff_canvas_witness :
  ~ canvas (Image_new (8, 8)) /\
  ((exists im', centerChar (Image_new (8, 8)) = Ok im') <->
   canvas (Image_new (8, 8))) /\
  centerChar (Image_new (8, 8)) = Raise IndexError.
Proof.
  assert (Hno : ~ canvas (Image_new (8, 8))).
  { intros [_ H]. vm_compute in H. apply H. reflexivity. }
  split; [exact Hno|].
  destruct (centerChar_returns_iff_canvas (Image_new (8, 8))) as [Hiff Hraise].
  split; [exact Hiff | exact (Hraise Hno)].
Defined.

Lemma index_Raise {A : Type} (l : list A) (i : Z) (e : exn) :
  index l i = Raise e -> e = IndexError.
Proof.
  unfold index. cbv zeta.
  destruct (_ <? 0); [congruence|]. destruct (l !! _); congruence.
Qed.

Lemma store_Raise {A : Type} (l : list A) (i : Z) (v : A) (e : exn) :
  store l i v = Raise e -> e = IndexError.
Proof. unfold store. cbv zeta. destruct (_ && _); congruence. Qed.

Lemma getitem2_Raise (m : list (list Z)) (i j : Z) (e : exn) :
  getitem2 m i j = Raise e -> e = IndexError.
Proof.
  unfold getitem2. intros H.
  apply bind_Raise in H as [H|(row & _ & H)]; eapply index_Raise; exact H.
Qed.

Lemma setitem2_Raise (m : list (list Z)) (i j v : Z) (e : exn) :
  setitem2 m i j v = Raise e -> e = IndexError.
Proof.
  unfold setitem2. intros H.
  apply bind_Raise in H as [H|(row & _ & H)]; [eapply index_Raise; exact H|].
  apply bind_Raise in H as [H|(row' & _ & H)]; eapply store_Raise; exact H.
Qed.

Lemma index_Ok {A : Type} (l : list A) (i : Z) (a : A) :
  0 <= i -> index l i = Ok a -> l !! Z.to_nat i = Some a.
Proof.
  intros Hi. unfold index. cbv zeta.
  destruct (Z.ltb_spec i 0); [lia|]. cbv iota.
  destruct (Z.ltb_spec i 0); [lia|].
  destruct (l !! Z.to_nat i); congruence.
Qed.

(** A [toBinary] that returns was given a canvas: its last iteration
    reads the pixel of column 7 in the last row. *)
Lemma toBinary_Ok_canvas (im : Image) (binary : list (list Z)) :
  toBinary im = Ok binary -> canvas im.
Proof.
  unfold toBinary. cbv zeta. intros H.
  destruct (for_Ok_In _ _ _ _ H (nbCharacters * 8 - 1)) as (b1 & b2 & Hrow);
    [apply In_range; unfold nbCharacters; lia|].
  destruct (for_Ok_In _ _ _ _ Hrow 7) as (c1 & c2 & Hpix);
    [apply In_range; lia|].
  apply bind_Ok in Hpix as (v & Hpix & _).
  apply getpixel_Ok in Hpix as [Hin _]. apply inside_true in Hin.
  split; unfold nbCharacters in *; lia.
Qed.

(** X25.  [toBinary] returns exactly on the images of at least 8 columns
    and [nbCharacters * 8] rows; on any other image it raises
    [IndexError]. *)
Theorem toBinary_returns_iff_canvas (im : Image) :
  ((exists binary, toBinary im = Ok binary) <-> canvas im) /\
  (~ canvas im -> toBinary im = Raise IndexError).
Proof.
  assert (Hiff : (exists binary, toBinary im = Ok binary) <-> canvas im).
  { split.
    - intros [b H]. eapply toBinary_Ok_canvas; exact H.
    - intros Hc. destruct (toBinary_spec im Hc) as (b & H & _). eauto. }
  split; [exact Hiff|].
  intros Hno. destruct (toBinary im) as [b|e] eqn:E.
  - exfalso. apply Hno, Hiff. eauto.
  - f_equal. revert E. unfold toBinary. cbv zeta. apply for_Raise.
    intros j s e' _. apply for_Raise. intros i s1 e'' _ H.
    apply bind_Raise in H as [H|(v & _ & H)];
      [eapply getpixel_Raise | eapply setitem2_Raise]; exact H.
Qed.

Lemma toBinary_returns_iff_canvas_witness :
  ~ canvas (Image_new (7, 2048)) /\
  ((exists binary, toBinary (Image_new (7, 2048)) = Ok binary) <->
   canvas (Image_new (7, 2048))) /\
  toBinary (Image_new (7, 2048)) = Raise IndexError.
Proof.
  assert (Hno : ~ canvas (Image_new (7, 2048))).
  { intros [H _]. vm_compute in H. apply H. reflexivity. }
  split; [exact Hno|].
  destruct (toBinary_returns_iff_canvas (Image_new (7, 2048))) as [Hiff Hraise].
  split; [exact Hiff | exact (Hraise Hno)].
Defined.

(** ** [convert] on matrices of any shape *)

Lemma for_ext {S : Type} (l : list Z) (body body' : Z -> S -> res S) (s : S) :
  (forall x s, In x l -> body x s = body' x s) ->
  for_ l body s = for_ l body' s.
Proof.
  revert s; induction l as [|x l IH]; intros s H; [reflexivity|].
  simpl. rewrite (H x s) by (left; reflexivity).
  destruct (body' x s) as [s1|e]; [|reflexivity].
  simpl. apply IH. intros; apply H; right; assumption.
Qed.

Lemma covers_length (m : list (list Z)) (rows cols : Z) :
  0 < rows -> covers m rows cols -> rows <= Z.of_nat (List.length m).
Proof.
  intros Hr Hc. destruct (Hc (rows - 1)) as (row & Hrow & _); [lia|].
  apply lookup_lt_Some in Hrow. lia.
Qed.

Lemma trimmed_shape (m : list (list Z)) (rows cols : Z) :
  0 < rows -> 0 <= cols -> covers m rows cols ->
  matrix_shape (trimmed m rows cols) rows cols.
Proof.
  intros Hr Hcols Hc. pose proof (covers_length m rows cols Hr Hc) as Hlen.
  unfold trimmed. split.
  - rewrite length_fmap, length_take. lia.
  - rewrite Forall_fmap. apply Forall_lookup. intros k row Hk.
    apply lookup_take_Some in Hk as [Hk Hlt].
    destruct (Hc (Z.of_nat k)) as (row' & Hrow' & Hlen'); [lia|].
    rewrite Nat2Z.id in Hrow'. rewrite Hk in Hrow'. injection Hrow' as <-.
    simpl. rewrite length_take. lia.
Qed.

Lemma trimmed_lookup (m : list (list Z)) (rows cols i j : Z) :
  0 <= i < rows -> 0 <= j < cols ->
  (row ← trimmed m rows cols !! Z.to_nat i; row !! Z.to_nat j) =
  (row ← m !! Z.to_nat i; row !! Z.to_nat j).
Proof.
  intros Hi Hj. unfold trimmed.
  rewrite list_lookup_fmap, lookup_take_lt by lia.
  destruct (m !! Z.to_nat i) as [row|]; [|reflexivity].
  simpl. apply lookup_take_lt. lia.
Qed.

Lemma entry_trimmed (m : list (list Z)) (rows cols i j : Z) :
  0 <= i < rows -> 0 <= j < cols ->
  entry (trimmed m rows cols) i j = entry m i j.
Proof.
  intros Hi Hj. unfold entry. rewrite trimmed_lookup by assumption. reflexivity.
Qed.

Lemma getitem2_lookup (m : list (list Z)) (i j : Z) :
  0 <= i -> 0 <= j ->
  getitem2 m i j =
    match row ← m !! Z.to_nat i; row !! Z.to_nat j with
    | Some v => Ok v
    | None => Raise IndexError
    end.
Proof.
  intros Hi Hj. unfold getitem2, index. cbv zeta.
  destruct (Z.ltb_spec i 0); [lia|]. cbv iota.
  destruct (Z.ltb_spec i 0); [lia|].
  destruct (m !! Z.to_nat i) as [row|]; [|reflexivity].
  simpl. destruct (Z.ltb_spec j 0); [lia|]. cbv iota.
  destruct (Z.ltb_spec j 0); [lia|]. reflexivity.
Qed.

Lemma getitem2_trimmed (m : list (list Z)) (rows cols i j : Z) :
  0 <= i < rows -> 0 <= j < cols ->
  getitem2 (trimmed m rows cols) i j = getitem2 m i j.
Proof.
  intros Hi Hj. rewrite !getitem2_lookup by lia.
  rewrite trimmed_lookup by assumption. reflexivity.
Qed.

(** [convert] reads nothing but the first 8 rows' first
    [nbCharacters * 8] entries. *)
Lemma convert_trimmed (pixels : list (list Z)) :
  convert (trimmed pixels 8 (nbCharacters * 8)) = convert pixels.
Proof.
  unfold convert. cbv zeta.
  apply for_ext. intros i data Hi. apply In_range in Hi.
  apply for_ext. intros j data1 Hj. apply In_range in Hj.
  apply for_ext. intros bit data2 Hbit. apply In_range in Hbit.
  destruct (getitem2 data2 i j) as [old|e]; [|reflexivity]. cbn [bind].
  rewrite getitem2_trimmed by (unfold nbCharacters in *; lia). reflexivity.
Qed.

Lemma packed_trimmed (pixels : list (list Z)) (i j : Z) :
  0 <= i < 8 -> 0 <= j < nbCharacters ->
  packed (trimmed pixels 8 (nbCharacters * 8)) i j = packed pixels i j.
Proof.
  intros Hi Hj. unfold packed. rewrite range_8. cbn [fold_left].
  rewrite !entry_trimmed by (unfold nbCharacters in *; lia). reflexivity.
Qed.

(** A [convert] that returns has read entry [nbCharacters * 8 - 1] of
    each of the first 8 rows. *)
Lemma convert_Ok_covers (pixels data : list (list Z)) :
  convert pixels = Ok data -> covers pixels 8 (nbCharacters * 8).
Proof.
  unfold convert. cbv zeta. intros H i Hi.
  destruct (for_Ok_In _ _ _ _ H i) as (d1 & d2 & Hrow);
    [apply In_range; lia|].
  destruct (for_Ok_In _ _ _ _ Hrow (nbCharacters - 1)) as (d3 & d4 & Hchar);
    [apply In_range; unfold nbCharacters; lia|].
  destruct (for_Ok_In _ _ _ _ Hchar 7) as (d5 & d6 & Hbit);
    [apply In_range; lia|].
  apply bind_Ok in Hbit as (old & _ & Hbit).
  apply bind_Ok in Hbit as (p & Hp & _).
  unfold getitem2 in Hp. apply bind_Ok in Hp as (row & Hrow' & Hp).
  apply index_Ok in Hrow'; [|lia].
  apply index_Ok in Hp; [|unfold nbCharacters; lia].
  exists row. split; [exact Hrow'|].
  apply lookup_lt_Some in Hp. unfold nbCharacters in *. lia.
Qed.

(** X26.  [convert] returns exactly when its argument has at least 8
    rows and each of the first 8 holds at least [nbCharacters * 8]
    entries; anything beyond is ignored, the result is the 8 x
    [nbCharacters] table of the packed bytes, and on any other argument
    [convert] raises [IndexError]. *)
Theorem convert_returns_iff_covered (pixels : list (list Z)) :
  ((exists data, convert pixels = Ok data) <->
   covers pixels 8 (nbCharacters * 8)) /\
  (~ covers pixels 8 (nbCharacters * 8) -> convert pixels = Raise IndexError) /\
  (forall data, convert pixels = Ok data ->
     matrix_shape data 8 nbCharacters /\
     forall i j, 0 <= i < 8 -> 0 <= j < nbCharacters ->
       entry data i j = packed pixels i j).
Proof.
  assert (Hret : covers pixels 8 (nbCharacters * 8) ->
    exists data, convert pixels = Ok data /\
      matrix_shape data 8 nbCharacters /\
      forall i j, 0 <= i < 8 -> 0 <= j < nbCharacters ->
        entry data i j = packed pixels i j).
  { intros Hc.
    destruct (convert_spec (trimmed pixels 8 (nbCharacters * 8)))
      as (data & Hrun & Hshape & Hent);
      [apply trimmed_shape; [lia | unfold nbCharacters; lia | exact Hc]|].
    rewrite convert_trimmed in Hrun. exists data. split; [exact Hrun|].
    split; [exact Hshape|]. intros i j Hi Hj.
    rewrite Hent by assumption. apply packed_trimmed; assumption. }
  assert (Hiff : (exists data, convert pixels = Ok data) <->
                 covers pixels 8 (nbCharacters * 8)).
  { split.
    - intros [data H]. eapply convert_Ok_covers; exact H.
    - intros Hc. destruct (Hret Hc) as (data & H & _). eauto. }
  split; [exact Hiff|]. split.
  - intros Hno. destruct (convert pixels) as [data|e] eqn:E.
    + exfalso. apply Hno, Hiff. eauto.
    + f_equal. revert E. unfold convert. cbv zeta. apply for_Raise.
      intros i s e1 _. apply for_Raise. intros j s1 e2 _.
      apply for_Raise. intros bit s2 e3 _ H.
      apply bind_Raise in H as [H|(old & _ & H)];
        [eapply getitem2_Raise; exact H|].
      apply bind_Raise in H as [H|(p & _ & H)];
        [eapply getitem2_Raise | eapply setitem2_Raise]; exact H.
  - intros data Hrun.
    destruct (Hret (convert_Ok_covers _ _ Hrun)) as (data' & Hrun' & Hrest).
    rewrite Hrun in Hrun'. injection Hrun' as <-. exact Hrest.
Qed.

Lemma convert_returns_iff_covered_witness :
  ~ covers [[1; 1]; [0; 1]] 8 (nbCharacters * 8) /\
  convert [[1; 1]; [0; 1]] = Raise IndexError.
Proof.
  assert (Hno : ~ covers [[1; 1]; [0; 1]] 8 (nbCharacters * 8)).
  { intros H. destruct (H 7) as (row & Hrow & _); [lia|]. discriminate Hrow. }
  split; [exact Hno|].
  destruct (convert_returns_iff_covered [[1; 1]; [0; 1]]) as (_ & Hraise & _).
  exact (Hraise Hno).
Defined.
